(** * bughunt-api: the room registry and the game session engine

    A shallow embedding of [rooms/rooms.service.ts], [ai/ai.service.ts] and
    the AI-backed [game/game.service.ts], with the properties of the
    session engine stated and proved over it; and of the handlers of
    [rooms/rooms.gateway.ts] and [game/game.gateway.ts] that call these
    services synchronously.

    Conventions of the embedding.
    - A JavaScript object used as a record of players is an association
      list in own-property order (array-index keys first, ascending, then
      the other keys in insertion order).
    - The service registries ([Map<string, _>]) are [gmap string _].
    - An object mutated in place is threaded through the functions: an
      operation on the registry looks the session up, transforms it and
      stores it back under the same key.  References to card objects held
      by a deferred callback are indices into the [cards] array, which is
      never reordered after creation.
    - [Date.now()] is an explicit argument; [Math.random()] is an oracle
      whose draw for a bound [n] is taken modulo [n].
    - A thrown [TypeError] is a result of its own, with the mutations done
      before the throw kept.
    - What a gateway handler sends is the list of its emissions in the
      order of the calls, each with its audience; a session or room in a
      payload is the object as it is when [emit] is called.  A callback
      armed with [setTimeout] is a function of the state it runs on. *)

From stdpp Require Import gmap strings list fin_maps pretty.
From Stdlib Require Import ZArith Lia Permutation.

Local Open Scope string_scope.
Local Open Scope list_scope.
Local Open Scope nat_scope.
Local Open Scope stdpp_scope.

(** ** JavaScript values *)

(** [string | null | undefined], the type of the pending-flip slots. *)
Inductive JsRef :=
| JsNull
| JsUndefined
| JsStr (s : string).

(** JavaScript truthiness of such a value: only a non-empty string. *)
Definition truthy (v : JsRef) : bool :=
  match v with
  | JsStr s => negb (String.eqb s "")
  | _ => false
  end.

(** How a call completes: it returns, or it throws a [TypeError]. *)
Inductive Completion (A : Type) :=
| Returned (a : A)
| Threw.
Arguments Returned {A} a.
Arguments Threw {A}.

(** ** Ordinary objects as ordered records *)

Module JsObject.

Definition t (V : Type) := list (string * V).

(** Value of a decimal digit string, [None] when a character is not a digit. *)
Fixpoint digitsValue (acc : N) (s : string) : option N :=
  match s with
  | EmptyString => Some acc
  | String c r =>
      let n := Ascii.N_of_ascii c in
      if ((48 <=? n) && (n <=? 57))%N
      then digitsValue (acc * 10 + (n - 48))%N r
      else None
  end.

(** A property key is an array index when it is the canonical decimal
    string of an integer below [2^32 - 1]. *)
Definition arrayIndex (k : string) : option N :=
  match k with
  | EmptyString => None
  | _ =>
      match digitsValue 0%N k with
      | Some n =>
          if String.eqb (pretty n) k && (n <? 4294967295)%N then Some n else None
      | None => None
      end
  end.

Section Ops.
Context {V : Type}.

(** [o[k]] *)
Fixpoint get (k : string) (o : t V) : option V :=
  match o with
  | [] => None
  | (k', v) :: r => if String.eqb k' k then Some v else get k r
  end.

(** Overwrite the value of an existing key, in place. *)
Fixpoint replace (k : string) (v : V) (o : t V) : t V :=
  match o with
  | [] => []
  | (k', v') :: r =>
      if String.eqb k' k then (k', v) :: r else (k', v') :: replace k v r
  end.

(** Place a new array-index key [k] of value [n] among the index keys. *)
Fixpoint insertIndex (n : N) (k : string) (v : V) (o : t V) : t V :=
  match o with
  | [] => [(k, v)]
  | (k', v') :: r =>
      match arrayIndex k' with
      | Some m => if (m <? n)%N then (k', v') :: insertIndex n k v r
                  else (k, v) :: o
      | None => (k, v) :: o
      end
  end.

(** [o[k] = v] *)
Definition set (k : string) (v : V) (o : t V) : t V :=
  match get k o with
  | Some _ => replace k v o
  | None =>
      match arrayIndex k with
      | Some n => insertIndex n k v o
      | None => o ++ [(k, v)]
      end
  end.

(** [Object.keys(o)] and [Object.values(o)] *)
Definition keys (o : t V) : list string := o.*1.
Definition values (o : t V) : list V := o.*2.

(** [Object.values(o).forEach(p => mutate p)] *)
Definition mapValues (f : V → V) (o : t V) : t V :=
  (λ kv, (kv.1, f kv.2)) <$> o.

(** [delete o[k]] *)
Fixpoint delete (k : string) (o : t V) : t V :=
  match o with
  | [] => []
  | (k', v) :: r => if String.eqb k' k then r else (k', v) :: delete k r
  end.

End Ops.

(** [keys.indexOf(k)], with [None] for -1. *)
Fixpoint indexOf (k : string) (ks : list string) : option nat :=
  match ks with
  | [] => None
  | k' :: r => if String.eqb k' k then Some 0 else S <$> indexOf k r
  end.

End JsObject.

(** ** Entities *)

Inductive CardType := bug | solution.
Inductive CardDifficulty := easy | medium | hard.
Inductive GameStatus := waiting | playing | finished.

Global Instance CardType_eq_dec : EqDecision CardType.
Proof. solve_decision. Defined.
Global Instance CardDifficulty_eq_dec : EqDecision CardDifficulty.
Proof. solve_decision. Defined.
Global Instance GameStatus_eq_dec : EqDecision GameStatus.
Proof. solve_decision. Defined.

Module Card.

Record t := mk {
  id : string;
  type : CardType;
  content : string;
  difficulty : CardDifficulty;
  isFlipped : bool;
  isMatched : bool;
  matchingCardId : string;
  position : nat
}.

Definition setFlipped (b : bool) (c : t) : t :=
  mk (id c) (type c) (content c) (difficulty c) b (isMatched c)
     (matchingCardId c) (position c).

Definition setMatched (b : bool) (c : t) : t :=
  mk (id c) (type c) (content c) (difficulty c) (isFlipped c) b
     (matchingCardId c) (position c).

Definition setPosition (p : nat) (c : t) : t :=
  mk (id c) (type c) (content c) (difficulty c) (isFlipped c) (isMatched c)
     (matchingCardId c) p.

End Card.

Module PlayerGameState.

(** [isCurrentTurn] is [None] while the property is absent. *)
Record t := mk {
  id : string;
  nickname : string;
  score : nat;
  matchesFound : nat;
  isCurrentTurn : option bool
}.

Definition setIsCurrentTurn (b : bool) (p : t) : t :=
  mk (id p) (nickname p) (score p) (matchesFound p) (Some b).

End PlayerGameState.

Module GameState.

(** [currentTurn] is [None] when it holds [undefined]. *)
Record t := mk {
  gameId : string;
  status : GameStatus;
  roomCode : string;
  cards : list Card.t;
  players : JsObject.t PlayerGameState.t;
  currentTurn : option string;
  turnNumber : nat;
  firstFlippedCard : JsRef;
  secondFlippedCard : JsRef;
  startedAt : Z;
  endedAt : option Z;
  turnTimeLimit : Z;
  currentTurnStartedAt : Z
}.

Definition setCards (cs : list Card.t) (g : t) : t :=
  mk (gameId g) (status g) (roomCode g) cs (players g) (currentTurn g)
     (turnNumber g) (firstFlippedCard g) (secondFlippedCard g) (startedAt g)
     (endedAt g) (turnTimeLimit g) (currentTurnStartedAt g).

Definition setPlayers (ps : JsObject.t PlayerGameState.t) (g : t) : t :=
  mk (gameId g) (status g) (roomCode g) (cards g) ps (currentTurn g)
     (turnNumber g) (firstFlippedCard g) (secondFlippedCard g) (startedAt g)
     (endedAt g) (turnTimeLimit g) (currentTurnStartedAt g).

Definition setFirstFlippedCard (v : JsRef) (g : t) : t :=
  mk (gameId g) (status g) (roomCode g) (cards g) (players g) (currentTurn g)
     (turnNumber g) v (secondFlippedCard g) (startedAt g)
     (endedAt g) (turnTimeLimit g) (currentTurnStartedAt g).

Definition setSecondFlippedCard (v : JsRef) (g : t) : t :=
  mk (gameId g) (status g) (roomCode g) (cards g) (players g) (currentTurn g)
     (turnNumber g) (firstFlippedCard g) v (startedAt g)
     (endedAt g) (turnTimeLimit g) (currentTurnStartedAt g).

Definition setStatus (s : GameStatus) (g : t) : t :=
  mk (gameId g) s (roomCode g) (cards g) (players g) (currentTurn g)
     (turnNumber g) (firstFlippedCard g) (secondFlippedCard g) (startedAt g)
     (endedAt g) (turnTimeLimit g) (currentTurnStartedAt g).

Definition setEndedAt (z : Z) (g : t) : t :=
  mk (gameId g) (status g) (roomCode g) (cards g) (players g) (currentTurn g)
     (turnNumber g) (firstFlippedCard g) (secondFlippedCard g) (startedAt g)
     (Some z) (turnTimeLimit g) (currentTurnStartedAt g).

Definition setCurrentTurn (p : option string) (g : t) : t :=
  mk (gameId g) (status g) (roomCode g) (cards g) (players g) p
     (turnNumber g) (firstFlippedCard g) (secondFlippedCard g) (startedAt g)
     (endedAt g) (turnTimeLimit g) (currentTurnStartedAt g).

Definition setTurnNumber (n : nat) (g : t) : t :=
  mk (gameId g) (status g) (roomCode g) (cards g) (players g) (currentTurn g)
     n (firstFlippedCard g) (secondFlippedCard g) (startedAt g)
     (endedAt g) (turnTimeLimit g) (currentTurnStartedAt g).

Definition setCurrentTurnStartedAt (z : Z) (g : t) : t :=
  mk (gameId g) (status g) (roomCode g) (cards g) (players g) (currentTurn g)
     (turnNumber g) (firstFlippedCard g) (secondFlippedCard g) (startedAt g)
     (endedAt g) (turnTimeLimit g) z.

End GameState.

Module GameConfig.

Record t := mk {
  numberOfPairs : Z;
  turnTimeLimit : Z;
  difficultyDistribution : nat * nat * nat
}.

End GameConfig.

(** ** The game service: flips, turns and the turn timer *)

(** The [action] field of the results. *)
Inductive FlipAction := ActFlip | ActMatch | ActNoMatch | ActError.
Inductive TimerAction := timeUp.

(** The callback that the no-match branch hands to [setTimeout]: it closes
    over [firstCard] (possibly [undefined]) and [card], kept as indices. *)
Record Deferred := mkDeferred {
  firstCard : option nat;
  card : nat
}.

(** [game.cards.find((c) => c.id === cardId)], with the index found. *)
Fixpoint findCard (cardId : string) (cs : list Card.t) : option (nat * Card.t) :=
  match cs with
  | [] => None
  | c :: r =>
      if String.eqb (Card.id c) cardId then Some (0, c)
      else prod_map S id <$> findCard cardId r
  end.

(** The same search for the id stored in a slot. *)
Definition findCardRef (v : JsRef) (cs : list Card.t) : option (nat * Card.t) :=
  match v with
  | JsStr s => findCard s cs
  | _ => None
  end.

(** [a === b] between [game.currentTurn] and a string. *)
Definition turnIs (turn : option string) (playerId : string) : bool :=
  match turn with
  | Some p => String.eqb p playerId
  | None => false
  end.

Definition calculateScore (difficulty : CardDifficulty) : nat :=
  match difficulty with
  | easy => 10
  | medium => 20
  | hard => 30
  end.

(** [game.cards.every((c) => c.isMatched)] *)
Definition allMatched (cs : list Card.t) : bool := forallb Card.isMatched cs.

Definition switchTurns (now : Z) (game : GameState.t) : GameState.t :=
  let playerIds := JsObject.keys (GameState.players game) in
  let nextIndex :=
    (* indexOf gives -1 for an absent holder, hence 0 after the increment;
       with no player the remainder is NaN and the lookup is undefined *)
    match GameState.currentTurn game with
    | Some p =>
        match JsObject.indexOf p playerIds with
        | Some currentIndex => (currentIndex + 1) `mod` length playerIds
        | None => 0 `mod` length playerIds
        end
    | None => 0 `mod` length playerIds
    end in
  let turn := playerIds !! nextIndex in
  let game := GameState.setCurrentTurn turn game in
  let game := GameState.setTurnNumber (GameState.turnNumber game + 1) game in
  let game := GameState.setCurrentTurnStartedAt now game in
  GameState.setPlayers
    (JsObject.mapValues
       (λ player, PlayerGameState.setIsCurrentTurn
                    (turnIs turn (PlayerGameState.id player)) player)
       (GameState.players game))
    game.

(** [card.isFlipped = b] on the card object at an index. *)
Definition flipAt (b : bool) (i : nat) (game : GameState.t) : GameState.t :=
  GameState.setCards (alter (Card.setFlipped b) i (GameState.cards game)) game.

Definition matchAt (i : nat) (game : GameState.t) : GameState.t :=
  GameState.setCards (alter (Card.setMatched true) i (GameState.cards game)) game.

(** The body of [handleCardFlip] once the session has been found. *)
Definition flipCard (now : Z) (playerId cardId : string) (game : GameState.t)
  : GameState.t * Completion FlipAction * option Deferred :=
  if negb (turnIs (GameState.currentTurn game) playerId)
  then (game, Returned ActError, None)
  else
    match findCard cardId (GameState.cards game) with
    | None => (game, Returned ActError, None)
    | Some (ci, c) =>
        if Card.isMatched c || Card.isFlipped c
        then (game, Returned ActError, None)
        else
          let game := flipAt true ci game in
          if negb (truthy (GameState.firstFlippedCard game))
          then (GameState.setFirstFlippedCard (JsStr cardId) game,
                Returned ActFlip, None)
          else
            let game := GameState.setSecondFlippedCard (JsStr cardId) game in
            let first :=
              findCardRef (GameState.firstFlippedCard game) (GameState.cards game) in
            let isPair :=
              match first with
              | Some (_, fc) => String.eqb (Card.matchingCardId fc) cardId
              | None => false
              end in
            if isPair
            then
              let game := matchAt ci game in
              let game :=
                match first with
                | Some (fi, _) => matchAt fi game
                | None => game
                end in
              match JsObject.get playerId (GameState.players game) with
              | None => (game, Threw, None)
              | Some player =>
                  let player :=
                    PlayerGameState.mk
                      (PlayerGameState.id player)
                      (PlayerGameState.nickname player)
                      (PlayerGameState.score player
                       + calculateScore (Card.difficulty c))
                      (PlayerGameState.matchesFound player + 1)
                      (PlayerGameState.isCurrentTurn player) in
                  let game :=
                    GameState.setPlayers
                      (JsObject.replace playerId player (GameState.players game))
                      game in
                  let game := GameState.setFirstFlippedCard JsUndefined game in
                  let game := GameState.setSecondFlippedCard JsUndefined game in
                  let game :=
                    if allMatched (GameState.cards game)
                    then GameState.setEndedAt now
                           (GameState.setStatus finished game)
                    else GameState.setCurrentTurnStartedAt now game in
                  (game, Returned ActMatch, None)
              end
            else
              (game, Returned ActNoMatch,
               Some (mkDeferred (fst <$> first) ci))
    end.

(** The deferred callback of the no-match branch, run on the session it
    closed over. *)
Definition resolveNoMatch (now : Z) (d : Deferred) (game : GameState.t)
  : GameState.t :=
  let game :=
    match firstCard d with
    | Some fi => flipAt false fi game
    | None => game
    end in
  let game := flipAt false (card d) game in
  let game := GameState.setFirstFlippedCard JsUndefined game in
  let game := GameState.setSecondFlippedCard JsUndefined game in
  switchTurns now game.

(** The body of [handleTimerExpiration] once the turn check has passed. *)
Definition expireTurn (now : Z) (game : GameState.t) : GameState.t :=
  let game :=
    if truthy (GameState.firstFlippedCard game)
    then
      let game :=
        match findCardRef (GameState.firstFlippedCard game)
                          (GameState.cards game) with
        | Some (fi, _) => flipAt false fi game
        | None => game
        end in
      GameState.setFirstFlippedCard JsNull game
    else game in
  switchTurns now game.

Section Registry.

Implicit Types games : gmap string GameState.t.

(** [handleCardFlip]: [None] in the completion stands for [null]; the
    [gameState] of a result is the registry's entry after the call. *)
Definition handleCardFlip games (now : Z) (gameId playerId cardId : string)
  : gmap string GameState.t * Completion (option FlipAction) * option Deferred :=
  match games !! gameId with
  | None => (games, Returned None, None)
  | Some game =>
      match flipCard now playerId cardId game with
      | (game', Returned a, d) => (<[gameId := game']> games, Returned (Some a), d)
      | (game', Threw, d) => (<[gameId := game']> games, Threw, d)
      end
  end.

Definition handleTimerExpiration games (now : Z) (gameId playerId : string)
  : gmap string GameState.t * option TimerAction :=
  match games !! gameId with
  | None => (games, None)
  | Some game =>
      if negb (turnIs (GameState.currentTurn game) playerId)
      then (games, None)
      else (<[gameId := expireTurn now game]> games, Some timeUp)
  end.

End Registry.

(** ** The content provider ([AiService]) *)

Module Pair.

Record t := mk {
  bug : string;
  solution : string;
  difficulty : CardDifficulty
}.

End Pair.

(** What the completion request yields: the request, the access to
    [choices[0].message.content] or [JSON.parse] throws; or the parsed
    value is not an array; or it is an array, whose elements are taken at
    the type the method declares for them. *)
Inductive AiReply :=
| AiFailure
| AiNotArray
| AiArray (aiPairs : list Pair.t).

Definition fallbackContent : list (CardDifficulty * list (string * string)) :=
  [ (easy,
     [ ("Null Pointer Exception", "Check for null before accessing object");
       ("Array Index Out of Bounds", "Verify array index is within bounds");
       ("Infinite Loop", "Add proper loop termination condition") ]);
    (medium,
     [ ("Race Condition", "Implement proper synchronization");
       ("Memory Leak", "Release resources in finally block");
       ("SQL Injection", "Use parameterized queries") ]);
    (hard,
     [ ("Deadlock", "Implement proper lock ordering");
       ("Buffer Overflow", "Validate buffer size before writing");
       ("Cross-Site Scripting", "Sanitize user input") ]) ].

(** [[a[i], a[j]] = [a[j], a[i]]]: [a[i]] is written first. *)
Definition swap {A : Type} (i j : nat) (a : list A) : list A :=
  match a !! i, a !! j with
  | Some x, Some y => <[j := x]> (<[i := y]> a)
  | _, _ => a
  end.

(** The loop [for (let i = ...; i > 0; i--)] of [shuffleArray], entered at
    [i]; the draw [Math.floor(Math.random() * (i + 1))] of iteration [i] is
    [rnd i] reduced modulo [i + 1]. *)
Fixpoint shuffleArrayFrom {A : Type} (rnd : nat → nat) (i : nat)
    (shuffled : list A) : list A :=
  match i with
  | 0 => shuffled
  | S i' =>
      let j := rnd i `mod` (i + 1) in
      shuffleArrayFrom rnd i' (swap i j shuffled)
  end.

Definition shuffleArray {A : Type} (rnd : nat → nat) (array : list A) : list A :=
  shuffleArrayFrom rnd (length array - 1) array.

(** [array.slice(0, count)] for an integer [count]: a negative end counts
    from the end of the array. *)
Definition slice0 {A : Type} (count : Z) (array : list A) : list A :=
  if (count <? 0)%Z
  then take (Z.to_nat (Z.max (Z.of_nat (length array) + count) 0)) array
  else take (Z.to_nat count) array.

Definition getFallbackPairs (rnd : nat → nat) (count : Z) : list Pair.t :=
  let pairs :=
    fold_left
      (λ pairs entry,
         fold_left
           (λ pairs item, pairs ++ [Pair.mk item.1 item.2 entry.1])
           entry.2 pairs)
      fallbackContent [] in
  slice0 count (shuffleArray rnd pairs).

Definition generateBugSolutionPairs (reply : AiReply) (rnd : nat → nat)
    (count : Z) : list Pair.t :=
  match reply with
  | AiArray aiPairs =>
      if (Z.of_nat (length aiPairs) =? count)%Z then aiPairs
      else getFallbackPairs rnd count
  | _ => getFallbackPairs rnd count
  end.

(** ** Building a board *)

(** The template literal [`card_${position}`]. *)
Definition cardId (position : nat) : string := "card_" +:+ pretty position.

(** One round of the [pairs.forEach] of [generateCards], on the local
    variables [cards] and [position]. *)
Definition pushPair (acc : list Card.t * nat) (pair : Pair.t)
  : list Card.t * nat :=
  let '(cards, position) := acc in
  let bugId := cardId position in
  let solutionId := cardId (position + 1) in
  (cards ++
     [ Card.mk bugId bug (Pair.bug pair) (Pair.difficulty pair)
               false false solutionId position;
       Card.mk solutionId solution (Pair.solution pair) (Pair.difficulty pair)
               false false bugId (position + 1) ],
   position + 2).

(** The loop of [shuffleCards], which also rewrites the positions of the
    two cards it exchanged. *)
Fixpoint shuffleCardsFrom (rnd : nat → nat) (i : nat) (shuffled : list Card.t)
  : list Card.t :=
  match i with
  | 0 => shuffled
  | S i' =>
      let j := rnd i `mod` (i + 1) in
      let shuffled := swap i j shuffled in
      let shuffled := alter (Card.setPosition i) i shuffled in
      let shuffled := alter (Card.setPosition j) j shuffled in
      shuffleCardsFrom rnd i' shuffled
  end.

Definition shuffleCards (rnd : nat → nat) (cards : list Card.t) : list Card.t :=
  shuffleCardsFrom rnd (length cards - 1) cards.

Definition generateCards (rnd : nat → nat) (pairs : list Pair.t) : list Card.t :=
  shuffleCards rnd (fold_left pushPair pairs ([], 0)).1.

(** ** Creating a session *)

Module PlayerEntry.

Record t := mk {
  id : string;
  nickname : string
}.

End PlayerEntry.

(** The [players.reduce] of [createGame]: no [isCurrentTurn] is written. *)
Definition seedPlayers (players : list PlayerEntry.t)
  : JsObject.t PlayerGameState.t :=
  fold_left
    (λ acc player,
       JsObject.set (PlayerEntry.id player)
         (PlayerGameState.mk (PlayerEntry.id player)
            (PlayerEntry.nickname player) 0 0 None)
         acc)
    players [].

(** [createGame].  [reply] is what the AI request yields, [rndPairs] and
    [rndCards] drive the two shuffles, [drawnId] is the value of
    [Math.random().toString(36).substring(7)], and [startedNow], [turnNow]
    are the two readings of the clock.  With no player, [players[0].id]
    throws before the session is stored. *)
Definition createGame (games : gmap string GameState.t) (reply : AiReply)
    (rndPairs rndCards : nat → nat) (drawnId : string) (startedNow turnNow : Z)
    (roomCode : string) (players : list PlayerEntry.t) (config : GameConfig.t)
  : gmap string GameState.t * Completion GameState.t :=
  let pairs :=
    generateBugSolutionPairs reply rndPairs (GameConfig.numberOfPairs config) in
  let cards := generateCards rndCards pairs in
  match players !! 0 with
  | None => (games, Threw)
  | Some first =>
      let gameState :=
        GameState.mk drawnId playing roomCode cards (seedPlayers players)
          (Some (PlayerEntry.id first)) 1 JsNull JsNull startedNow None
          (GameConfig.turnTimeLimit config) turnNow in
      (<[GameState.gameId gameState := gameState]> games, Returned gameState)
  end.

(** ** The room registry ([RoomsService]) *)

Module Player.

Record t := mk {
  id : string;
  nickname : string;
  isReady : bool;
  isHost : bool;
  joinedAt : Z
}.

Definition setIsReady (b : bool) (p : t) : t :=
  mk (id p) (nickname p) b (isHost p) (joinedAt p).

Definition setIsHost (b : bool) (p : t) : t :=
  mk (id p) (nickname p) (isReady p) b (joinedAt p).

End Player.

Module GameSettings.

Record t := mk {
  turnTimeLimit : Z;
  allowSpectators : bool;
  isPrivate : bool
}.

(** [Partial<GameSettings>] *)
Record partial := mkPartial {
  turnTimeLimit' : option Z;
  allowSpectators' : option bool;
  isPrivate' : option bool
}.

End GameSettings.

Module GameRoom.

Record t := mk {
  roomCode : string;
  hostId : string;
  players : JsObject.t Player.t;
  status : GameStatus;
  maxPlayers : nat;
  createdAt : Z;
  settings : GameSettings.t
}.

Definition setPlayers (ps : JsObject.t Player.t) (r : t) : t :=
  mk (roomCode r) (hostId r) ps (status r) (maxPlayers r) (createdAt r)
     (settings r).

Definition setHostId (h : string) (r : t) : t :=
  mk (roomCode r) h (players r) (status r) (maxPlayers r) (createdAt r)
     (settings r).

Definition setStatus (st : GameStatus) (r : t) : t :=
  mk (roomCode r) (hostId r) (players r) st (maxPlayers r) (createdAt r)
     (settings r).

End GameRoom.

Definition chars : string := "ABCDEFGHIJKLMNOPQRSTUVWXYZ0123456789".

(** [s.charAt(k)] *)
Definition charAt (s : string) (k : nat) : string :=
  match String.get k s with
  | Some c => String c ""
  | None => ""
  end.

(** One candidate code: six draws, joined. *)
Definition drawCode (rnd : nat → nat) : string :=
  String.concat ""
    ((λ i, charAt chars (rnd i `mod` String.length chars)) <$> seq 0 6).

(** [generateRoomCode]: the [do ... while (this.rooms.has(code))] loop,
    bounded by [fuel]; [rnd attempt] drives the draws of one attempt.
    [None] means that the fuel ran out. *)
Fixpoint generateRoomCode (fuel : nat) (rooms : gmap string GameRoom.t)
    (rnd : nat → nat → nat) (attempt : nat) : option string :=
  match fuel with
  | 0 => None
  | S fuel' =>
      let code := drawCode (rnd attempt) in
      match rooms !! code with
      | Some _ => generateRoomCode fuel' rooms rnd (S attempt)
      | None => Some code
      end
  end.

Definition createRoom (fuel : nat) (rooms : gmap string GameRoom.t)
    (rnd : nat → nat → nat) (joinedNow createdNow : Z)
    (hostId nickname : string) (settings : option GameSettings.partial)
  : option (gmap string GameRoom.t * GameRoom.t) :=
  roomCode ← generateRoomCode fuel rooms rnd 0;
  let host := Player.mk hostId nickname false true joinedNow in
  let room :=
    GameRoom.mk roomCode hostId (JsObject.set hostId host []) waiting 2
      createdNow
      (GameSettings.mk
         (default 30%Z (settings ≫= GameSettings.turnTimeLimit'))
         (default false (settings ≫= GameSettings.allowSpectators'))
         (default false (settings ≫= GameSettings.isPrivate'))) in
  Some (<[roomCode := room]> rooms, room).

(** [joinRoom]: [None] stands for the [null] result. *)
Definition joinRoom (rooms : gmap string GameRoom.t) (now : Z)
    (roomCode playerId nickname : string)
  : gmap string GameRoom.t * option GameRoom.t :=
  match rooms !! roomCode with
  | None => (rooms, None)
  | Some room =>
      if GameRoom.maxPlayers room
         <=? length (JsObject.keys (GameRoom.players room))
      then (rooms, None)
      else
        let isNicknameTaken :=
          existsb (λ player, String.eqb (Player.nickname player) nickname)
                  (JsObject.values (GameRoom.players room)) in
        if isNicknameTaken then (rooms, None)
        else
          let player := Player.mk playerId nickname false false now in
          let room :=
            GameRoom.setPlayers
              (JsObject.set playerId player (GameRoom.players room)) room in
          (<[roomCode := room]> rooms, Some room)
  end.

(** ** The rest of the two services *)

(** [leaveRoom].  The new host is [Object.values(room.players)[0]]; it is
    flagged through [room.players[newHost.id]], which throws when no
    player is stored under that id. *)
Definition leaveRoom (rooms : gmap string GameRoom.t) (roomCode playerId : string)
  : gmap string GameRoom.t * Completion (option GameRoom.t) :=
  match rooms !! roomCode with
  | None => (rooms, Returned None)
  | Some room =>
      let room :=
        GameRoom.setPlayers
          (JsObject.delete playerId (GameRoom.players room)) room in
      if length (JsObject.keys (GameRoom.players room)) =? 0
      then (delete roomCode rooms, Returned None)
      else if String.eqb playerId (GameRoom.hostId room)
      then
        match JsObject.values (GameRoom.players room) !! 0 with
        | None => (<[roomCode := room]> rooms, Threw)
        | Some newHost =>
            let room := GameRoom.setHostId (Player.id newHost) room in
            match JsObject.get (Player.id newHost) (GameRoom.players room) with
            | None => (<[roomCode := room]> rooms, Threw)
            | Some flagged =>
                let room :=
                  GameRoom.setPlayers
                    (JsObject.replace (Player.id newHost)
                       (Player.setIsHost true flagged) (GameRoom.players room))
                    room in
                (<[roomCode := room]> rooms, Returned (Some room))
            end
        end
      else (<[roomCode := room]> rooms, Returned (Some room))
  end.

(** [getRoom]: [this.rooms.get(roomCode) || null]. *)
Definition getRoom (rooms : gmap string GameRoom.t) (roomCode : string)
  : option GameRoom.t :=
  rooms !! roomCode.

(** [setPlayerReady]. *)
Definition setPlayerReady (rooms : gmap string GameRoom.t)
    (roomCode playerId : string) (isReady : bool)
  : gmap string GameRoom.t * option GameRoom.t :=
  match rooms !! roomCode with
  | None => (rooms, None)
  | Some room =>
      match JsObject.get playerId (GameRoom.players room) with
      | None => (rooms, None)
      | Some player =>
          let room :=
            GameRoom.setPlayers
              (JsObject.replace playerId (Player.setIsReady isReady player)
                 (GameRoom.players room))
              room in
          (<[roomCode := room]> rooms, Some room)
      end
  end.

(** [Math.max(...xs)] on natural numbers; [None] is the [-Infinity] of an
    empty argument list. *)
Definition mathMax (xs : list nat) : option nat :=
  match xs with
  | [] => None
  | _ => Some (max_list xs)
  end.

(** [getWinners]: the winners and [isTie]; [None] is the [null] result. *)
Definition getWinners (games : gmap string GameState.t) (gameId : string)
  : option (list PlayerGameState.t * bool) :=
  match games !! gameId with
  | None => None
  | Some game =>
      let players := JsObject.values (GameState.players game) in
      let maxScore := mathMax (PlayerGameState.score <$> players) in
      let winners :=
        filter (λ p, Some (PlayerGameState.score p) = maxScore) players in
      Some (winners, 1 <? length winners)
  end.

(** ** The gateways *)

(** Whom a handler sends to: the socket of the calling client
    ([client.emit]) or the sockets that joined a room
    ([this.server.to(roomCode).emit]). *)
Inductive Audience :=
| ToClient
| ToRoom (roomCode : string).

(** The events of [GameGateway.handleCardFlip], each with the fields of
    its [data]; the [gameState] field is the session as it is when the
    event is sent. *)
Module GameEvent.

Inductive t :=
| error (message : string)
| cardFlipped (gameState : GameState.t) (cardId playerId : string)
| matched (gameState : GameState.t) (playerId : string)
    (matchedCards : list JsRef) (message : string)
| over (gameState : GameState.t) (winners : list PlayerGameState.t)
    (isTie : bool) (message : string)
| noMatch (gameState : GameState.t) (playerId : string) (cards : list JsRef)
    (message : string)
| turnChanged (gameState : GameState.t) (currentPlayerId : option string)
    (currentPlayerNickname : string) (message : string).

End GameEvent.

Module GameGateway.

Definition CARD_FLIP_DELAY : Z := 3000.

(** The [switch (action)] of [handleCardFlip]: what is sent, and whether
    the handler returns (then with [true] when it has armed the
    [game:turnChanged] callback) or throws, which the reads
    [gameState.players[client.id].nickname] and [winners[0].nickname] do
    on [undefined]. *)
Definition announceFlip (games : gmap string GameState.t)
    (gameId clientId cardId : string) (gameState : GameState.t)
    (action : FlipAction)
  : list (Audience * GameEvent.t) * Completion bool :=
  let room := ToRoom (GameState.roomCode gameState) in
  match action with
  | ActError =>
      ([(ToClient,
         GameEvent.error
           "Invalid move. It might not be your turn or the card is already flipped.")],
       Returned false)
  | ActFlip =>
      ([(room, GameEvent.cardFlipped gameState cardId clientId)],
       Returned false)
  | ActMatch =>
      match JsObject.get clientId (GameState.players gameState) with
      | None => ([], Threw)
      | Some player =>
          let sent :=
            [(room,
              GameEvent.matched gameState clientId
                [GameState.firstFlippedCard gameState;
                 GameState.secondFlippedCard gameState]
                (PlayerGameState.nickname player
                 +:+ " found a match! They get another turn."))] in
          match GameState.status gameState with
          | finished =>
              match getWinners games gameId with
              | None => (sent, Returned false)
              | Some (winners, isTie) =>
                  if isTie
                  then (sent ++ [(room,
                                  GameEvent.over gameState winners isTie
                                    "It's a tie!")],
                        Returned false)
                  else
                    match winners !! 0 with
                    | None => (sent, Threw)
                    | Some winner =>
                        (sent ++ [(room,
                                   GameEvent.over gameState winners isTie
                                     (PlayerGameState.nickname winner
                                      +:+ " wins with "
                                      +:+ pretty (PlayerGameState.score winner)
                                      +:+ " points!"))],
                         Returned false)
                    end
              end
          | _ => (sent, Returned false)
          end
      end
  | ActNoMatch =>
      ([(room,
         GameEvent.noMatch gameState clientId
           [GameState.firstFlippedCard gameState;
            GameState.secondFlippedCard gameState]
           "No match! Switching turns...")],
       Returned true)
  end.

(** The callback armed for [CARD_FLIP_DELAY], run on the session as it
    is when the delay has passed.  [gameState.players[gameState.currentTurn]]
    with no holder reads the key ["undefined"]. *)
Definition announceTurn (gameState : GameState.t)
  : Completion (Audience * GameEvent.t) :=
  let key := default "undefined" (GameState.currentTurn gameState) in
  match JsObject.get key (GameState.players gameState) with
  | None => Threw
  | Some player =>
      Returned
        (ToRoom (GameState.roomCode gameState),
         GameEvent.turnChanged gameState (GameState.currentTurn gameState)
           (PlayerGameState.nickname player)
           (PlayerGameState.nickname player +:+ "'s turn"))
  end.

(** [handleCardFlip] of the gateway: the registry after the call, what
    was sent, how the handler completed, and the callback the service
    deferred.  The [gameState] of the service's result is the registry's
    entry, which is there whenever the service returns an action. *)
Definition handleCardFlip (games : gmap string GameState.t) (now : Z)
    (gameId clientId cardId : string)
  : gmap string GameState.t * list (Audience * GameEvent.t)
    * Completion bool * option Deferred :=
  let '(games', result, d) := handleCardFlip games now gameId clientId cardId in
  match result with
  | Threw => (games', [], Threw, d)
  | Returned None =>
      (games', [(ToClient, GameEvent.error "Invalid game ID")],
       Returned false, d)
  | Returned (Some action) =>
      match games' !! gameId with
      | None => (games', [], Threw, d)
      | Some gameState =>
          let '(sent, completion) :=
            announceFlip games' gameId clientId cardId gameState action in
          (games', sent, completion, d)
      end
  end.

End GameGateway.

(** The events of [RoomsGateway]; [opponentLeft] is the [room:updated]
    of [handleRoomLeave], whose data is the room with a [message] added. *)
Module RoomEvent.

Inductive t :=
| created (room : GameRoom.t)
| updated (room : GameRoom.t)
| joined (room : GameRoom.t)
| full (message : string) (room : GameRoom.t)
| error (message : string)
| opponentLeft (room : GameRoom.t) (message : string)
| gameStart (message : string) (room : GameRoom.t) (currentTurn : string)
    (turnNumber : nat) (scores : JsObject.t nat).

End RoomEvent.

(** What a handler of [RoomsGateway] does to the sockets, in order. *)
Inductive RoomEffect :=
| SocketJoin (roomCode : string)
| SocketLeave (roomCode : string)
| Send (audience : Audience) (event : RoomEvent.t).

Module RoomsGateway.

Definition handleRoomCreate (fuel : nat) (rooms : gmap string GameRoom.t)
    (rnd : nat → nat → nat) (joinedNow createdNow : Z)
    (clientId nickname : string) (settings : option GameSettings.partial)
  : option (gmap string GameRoom.t * list RoomEffect) :=
  '(rooms', room) ←
    createRoom fuel rooms rnd joinedNow createdNow clientId nickname settings;
  Some (rooms',
        [SocketJoin (GameRoom.roomCode room);
         Send ToClient (RoomEvent.created room);
         Send (ToRoom (GameRoom.roomCode room)) (RoomEvent.updated room)]).

Definition handleRoomJoin (rooms : gmap string GameRoom.t) (now : Z)
    (roomCode clientId nickname : string)
  : gmap string GameRoom.t * list RoomEffect :=
  match joinRoom rooms now roomCode clientId nickname with
  | (rooms', Some room) =>
      (rooms',
       [SocketJoin (GameRoom.roomCode room);
        Send ToClient (RoomEvent.joined room)]
       ++ (if length (JsObject.keys (GameRoom.players room)) =? 2
           then [Send (ToRoom (GameRoom.roomCode room))
                   (RoomEvent.full
                      "Both players have joined! Get ready to start the game."
                      room)]
           else [])
       ++ [Send (ToRoom (GameRoom.roomCode room)) (RoomEvent.updated room)])
  | (rooms', None) =>
      (rooms',
       [Send ToClient
          (RoomEvent.error
             "Failed to join room. Room might be full, invalid, or nickname taken.")])
  end.

Definition handleRoomLeave (rooms : gmap string GameRoom.t)
    (roomCode clientId : string)
  : gmap string GameRoom.t * list RoomEffect * Completion unit :=
  match leaveRoom rooms roomCode clientId with
  | (rooms', Threw) => (rooms', [], Threw)
  | (rooms', Returned None) => (rooms', [SocketLeave roomCode], Returned ())
  | (rooms', Returned (Some room)) =>
      (rooms',
       [SocketLeave roomCode;
        Send (ToRoom roomCode)
          (RoomEvent.opponentLeft room "Opponent left the game")],
       Returned ())
  end.

(** [Object.fromEntries(Object.keys(players).map((id) => [id, 0]))] *)
Definition zeroScores (players : JsObject.t Player.t) : JsObject.t nat :=
  fold_left (λ scores playerId, JsObject.set playerId 0 scores)
    (JsObject.keys players) [].

(** [handlePlayerReady]; [room.status = 'playing'] is written to the room
    of the registry after [room:updated] has been sent. *)
Definition handlePlayerReady (rooms : gmap string GameRoom.t)
    (roomCode clientId : string) (isReady : bool)
  : gmap string GameRoom.t * list RoomEffect :=
  match setPlayerReady rooms roomCode clientId isReady with
  | (rooms', None) => (rooms', [])
  | (rooms', Some room) =>
      let updated :=
        Send (ToRoom (GameRoom.roomCode room)) (RoomEvent.updated room) in
      let allPlayersReady :=
        forallb Player.isReady (JsObject.values (GameRoom.players room)) in
      if allPlayersReady
         && (length (JsObject.keys (GameRoom.players room)) =? 2)
      then
        let room := GameRoom.setStatus playing room in
        (<[roomCode := room]> rooms',
         [updated;
          Send (ToRoom (GameRoom.roomCode room))
            (RoomEvent.gameStart "Game is starting!" room
               (GameRoom.hostId room) 1
               (zeroScores (GameRoom.players room)))])
      else (rooms', [updated])
  end.

End RoomsGateway.

(** ** Vocabulary of the statements *)

(** The reasons for which a flip is turned down: it is not the caller's
    turn, no card has the id, or the card found is matched or flipped. *)
Definition rejectedFlip (game : GameState.t) (playerId cardId : string) : Prop :=
  GameState.currentTurn game ≠ Some playerId
  ∨ (∀ c, c ∈ GameState.cards game → Card.id c ≠ cardId)
  ∨ (∃ i c, findCard cardId (GameState.cards game) = Some (i, c)
            ∧ (Card.isMatched c = true ∨ Card.isFlipped c = true)).


(** A card without its position: what a shuffle must carry along. *)
Definition face (c : Card.t)
  : string * CardType * string * CardDifficulty * bool * bool * string :=
  (Card.id c, Card.type c, Card.content c, Card.difficulty c,
   Card.isFlipped c, Card.isMatched c, Card.matchingCardId c).

Definition opposite (t : CardType) : CardType :=
  match t with
  | bug => solution
  | solution => bug
  end.

(** [d] is the partner of [c]: each names the other, the types are
    opposite and the difficulty is shared. *)
Definition partnerOf (c d : Card.t) : Prop :=
  Card.matchingCardId d = Card.id c
  ∧ Card.matchingCardId c = Card.id d
  ∧ Card.type d = opposite (Card.type c)
  ∧ Card.difficulty d = Card.difficulty c.

(** The [forEach] of [generateCards] read as a recursion on the pairs,
    entered with the counter at [position]. *)
Fixpoint mintFrom (position : nat) (pairs : list Pair.t) : list Card.t :=
  match pairs with
  | [] => []
  | next :: rest =>
      (pushPair ([], position) next).1 ++ mintFrom (position + 2) rest
  end.

(** Every card of a board sits at the index that its position names. *)
Definition positioned (cs : list Card.t) : Prop :=
  ∀ k c, cs !! k = Some c → Card.position c = k.

(** The players whose [isCurrentTurn] flag is [true]. *)
Definition holdersOfTurn (game : GameState.t) : list PlayerGameState.t :=
  filter (λ p, PlayerGameState.isCurrentTurn p = Some true)
         (JsObject.values (GameState.players game)).

(** Every player state is stored under its own id, once. *)
Definition wellKeyed (players : JsObject.t PlayerGameState.t) : Prop :=
  NoDup (JsObject.keys players)
  ∧ ∀ k p, (k, p) ∈ players → PlayerGameState.id p = k.

(** ** Sessions over time *)

(** A live session: the game object together with the deferred callbacks
    that closed over it and have not run yet, oldest first. *)
Record Session := mkSession {
  game : GameState.t;
  pending : list Deferred
}.

(** What can happen to a session: a [handleCardFlip] call, a
    [handleTimerExpiration] call, and the run of the oldest deferred
    callback (they all carry the same delay, so they run in the order in
    which they were scheduled). *)
Inductive Event :=
| EvFlip (now : Z) (playerId cardId : string)
| EvTimer (now : Z) (playerId : string)
| EvResolve (now : Z).

Definition step (e : Event) (s : Session) : Session :=
  match e with
  | EvFlip now playerId cardId =>
      let '(g, _, d) := flipCard now playerId cardId (game s) in
      mkSession g (pending s ++ option_list d)
  | EvTimer now playerId =>
      if turnIs (GameState.currentTurn (game s)) playerId
      then mkSession (expireTurn now (game s)) (pending s)
      else s
  | EvResolve now =>
      match pending s with
      | d :: rest => mkSession (resolveNoMatch now d (game s)) rest
      | [] => s
      end
  end.

Definition run (events : list Event) (s : Session) : Session :=
  fold_left (λ s e, step e s) events s.

(** The states that a session can be in, under any interleaving. *)
Inductive reachable (init : Session) : Session → Prop :=
| reach_init : reachable init init
| reach_step e s : reachable init s → reachable init (step e s).

(** The states reached when flips and timer expirations are only let in
    while no deferred resolution is waiting. *)
Inductive serialized (init : Session) : Session → Prop :=
| ser_init : serialized init init
| ser_flip now playerId cardId s :
    serialized init s → pending s = [] →
    serialized init (step (EvFlip now playerId cardId) s)
| ser_timer now playerId s :
    serialized init s → pending s = [] →
    serialized init (step (EvTimer now playerId) s)
| ser_resolve now s :
    serialized init s → serialized init (step (EvResolve now) s).

(** A card that is face up and not matched. *)
Definition unresolvedCard (c : Card.t) : bool :=
  Card.isFlipped c && negb (Card.isMatched c).

(** How many cards are flipped and unresolved. *)
Definition unresolvedIn (cs : list Card.t) : nat :=
  length (filter (λ c, unresolvedCard c = true) cs).

Definition unresolved (g : GameState.t) : nat :=
  unresolvedIn (GameState.cards g).

(** The holder of the turn is one of the session's players. *)
Definition holderPresent (g : GameState.t) : Prop :=
  ∀ p, GameState.currentTurn g = Some p →
       p ∈ JsObject.keys (GameState.players g).

(** The player to whom [switchTurns] gives the turn. *)
Definition nextHolder (g : GameState.t) : option string :=
  GameState.currentTurn (switchTurns 0 g).

(** The status agrees with the board. *)
Definition finishedIffAllMatched (g : GameState.t) : Prop :=
  GameState.status g = finished ↔ allMatched (GameState.cards g) = true.

(** The scores and match counts, player by player. *)
Definition tally (g : GameState.t) : list (string * (nat * nat)) :=
  (λ kp, (kp.1, (PlayerGameState.score kp.2, PlayerGameState.matchesFound kp.2)))
    <$> GameState.players g.

(** The pending-flip slots against the board, while nothing is deferred:
    a set first slot names a card that is face up and unmatched, the only
    such card; with the slot unset there is none. *)
Definition quietSlots (g : GameState.t) : Prop :=
  if truthy (GameState.firstFlippedCard g)
  then ∃ fi fc,
         findCardRef (GameState.firstFlippedCard g) (GameState.cards g)
         = Some (fi, fc)
         ∧ unresolvedCard fc = true ∧ unresolved g = 1
  else unresolved g = 0.

(** The same while a no-match pair waits for the callback [d]: both slots
    are set, and the two cards that [d] closed over are the face-up
    unmatched ones. *)
Definition waitingSlots (g : GameState.t) (d : Deferred) : Prop :=
  truthy (GameState.firstFlippedCard g) = true
  ∧ truthy (GameState.secondFlippedCard g) = true
  ∧ ∃ fi fc c,
      firstCard d = Some fi ∧ fi ≠ card d
      ∧ GameState.cards g !! fi = Some fc
      ∧ GameState.cards g !! card d = Some c
      ∧ unresolvedCard fc = true ∧ unresolvedCard c = true
      ∧ unresolved g = 2.

Definition slotsInv (s : Session) : Prop :=
  Forall (λ c, Card.id c ≠ "") (GameState.cards (game s))
  ∧ holderPresent (game s)
  ∧ match pending s with
    | [] => quietSlots (game s)
    | [d] => waitingSlots (game s) d
    | _ => False
    end.

(** What every reachable session satisfies. *)
Definition soundGame (g : GameState.t) : Prop :=
  finishedIffAllMatched g ∧ holderPresent g.

(** ** Vocabulary for rooms and scores *)

(** Every member of a room is stored under its own id. *)
Definition membersKeyed (players : JsObject.t Player.t) : Prop :=
  ∀ k p, (k, p) ∈ players → Player.id p = k.

(** What the registry keeps of every room: members under distinct keys
    that are their ids, at least one and at most [maxPlayers] of them, and
    no nickname twice. *)
Definition roomOk (room : GameRoom.t) : Prop :=
  NoDup (JsObject.keys (GameRoom.players room))
  ∧ membersKeyed (GameRoom.players room)
  ∧ GameRoom.players room ≠ []
  ∧ length (JsObject.keys (GameRoom.players room)) ≤ GameRoom.maxPlayers room
  ∧ NoDup (Player.nickname <$> JsObject.values (GameRoom.players room)).

(** The member named by [hostId] carries [isHost], and nobody else does. *)
Definition hostOk (room : GameRoom.t) : Prop :=
  (∃ h, JsObject.get (GameRoom.hostId room) (GameRoom.players room) = Some h
        ∧ Player.isHost h = true)
  ∧ ∀ k p, (k, p) ∈ GameRoom.players room → Player.isHost p = true →
           k = GameRoom.hostId room.

(** Every room is stored under its own code and is in order. *)
Definition registryOk (rooms : gmap string GameRoom.t) : Prop :=
  ∀ code room, rooms !! code = Some room →
               GameRoom.roomCode room = code ∧ roomOk room.

(** The matched cards of a board, their number and what they are worth. *)
Definition matchedCards (cs : list Card.t) : list Card.t :=
  filter (λ c, Card.isMatched c = true) cs.







(** The players of a session with the nicknames they carry. *)
Definition nicknames (g : GameState.t) : list (string * string) :=
  (λ kp, (kp.1, PlayerGameState.nickname kp.2)) <$> GameState.players g.

(** The calls that reach the room registry through [RoomsGateway], and
    what a sequence of them makes of the registry. *)
Inductive RoomCall :=
| CallCreate (fuel : nat) (rnd : nat → nat → nat) (joinedNow createdNow : Z)
    (clientId nickname : string) (settings : option GameSettings.partial)
| CallJoin (now : Z) (roomCode clientId nickname : string)
| CallLeave (roomCode clientId : string)
| CallReady (roomCode clientId : string) (isReady : bool).

Definition roomStep (call : RoomCall) (rooms : gmap string GameRoom.t)
  : gmap string GameRoom.t :=
  match call with
  | CallCreate fuel rnd joinedNow createdNow clientId nickname settings =>
      match RoomsGateway.handleRoomCreate fuel rooms rnd joinedNow createdNow
              clientId nickname settings with
      | Some (rooms', _) => rooms'
      | None => rooms
      end
  | CallJoin now roomCode clientId nickname =>
      (RoomsGateway.handleRoomJoin rooms now roomCode clientId nickname).1
  | CallLeave roomCode clientId =>
      (RoomsGateway.handleRoomLeave rooms roomCode clientId).1.1
  | CallReady roomCode clientId isReady =>
      (RoomsGateway.handlePlayerReady rooms roomCode clientId isReady).1
  end.

Definition roomRun (calls : list RoomCall) (rooms : gmap string GameRoom.t)
  : gmap string GameRoom.t :=
  fold_left (λ rooms call, roomStep call rooms) calls rooms.

(** What the gateway keeps of every room of the registry. *)
Definition roomsInv (rooms : gmap string GameRoom.t) : Prop :=
  ∀ code room, rooms !! code = Some room →
    GameRoom.roomCode room = code
    ∧ roomOk room
    ∧ GameRoom.maxPlayers room = 2
    ∧ GameRoom.status room ≠ finished.

(** All the built-in pairs, in the order in which [getFallbackPairs]
    collects them. *)
Definition builtInPairs : list Pair.t :=
  fallbackContent
    ≫= λ entry, (λ item, Pair.mk item.1 item.2 entry.1) <$> entry.2.

(** ** Sample data *)

Definition alice : PlayerEntry.t := PlayerEntry.mk "sockA" "alice".
Definition bob : PlayerEntry.t := PlayerEntry.mk "sockB" "bob".

Definition sampleConfig (numberOfPairs : Z) : GameConfig.t :=
  GameConfig.mk numberOfPairs 30 (2, 2, 2).

(** A draw oracle that always answers with the upper bound of its range,
    so that the shuffles leave the order as it is. *)
Definition keepOrder : nat → nat := λ i, i.

(** A session on three pairs, as [createGame] builds it when the AI
    request fails. *)
Definition sampleCreated : gmap string GameState.t * Completion GameState.t :=
  createGame ∅ AiFailure keepOrder keepOrder "k3x9q" 1000 1000 "ROOM01"
    [alice; bob] (sampleConfig 3).

Definition sampleGames : gmap string GameState.t := sampleCreated.1.

Definition sampleGame : GameState.t :=
  Eval vm_compute in
    match sampleCreated.2 with
    | Returned g => g
    | Threw => GameState.mk "" waiting "" [] [] None 0 JsNull JsNull 0 None 0 0
    end.

(** A session on a single pair, and the two flips that finish it. *)
Definition onePairCreated : gmap string GameState.t * Completion GameState.t :=
  createGame ∅ AiFailure keepOrder keepOrder "q7w1z" 1000 1000 "ROOM01"
    [alice; bob] (sampleConfig 1).

Definition onePairGame : GameState.t :=
  Eval vm_compute in
    match onePairCreated.2 with
    | Returned g => g
    | Threw => GameState.mk "" waiting "" [] [] None 0 JsNull JsNull 0 None 0 0
    end.

Definition onePairFinished : Session :=
  run [EvFlip 2000 "sockA" "card_0"; EvFlip 3000 "sockA" "card_1"]
      (mkSession onePairGame []).

(** Three flips of alice in a row on the sample session: the second does
    not match the first, and the third comes before the deferred
    resolution has run. *)
Definition threeFlips : Session :=
  run [EvFlip 2000 "sockA" "card_0"; EvFlip 2100 "sockA" "card_2";
       EvFlip 2200 "sockA" "card_4"]
      (mkSession sampleGame []).

Definition sampleRoom : GameRoom.t :=
  GameRoom.mk "ABC123" "sockA"
    (JsObject.set "sockA" (Player.mk "sockA" "alice" false true 10) [])
    waiting 2 10 (GameSettings.mk 30 false false).

Definition sampleRooms : gmap string GameRoom.t := {[ "ABC123" := sampleRoom ]}.

(** * Properties *)

(** ** Facts about ordered records *)

Section JsObjectFacts.
Context {V : Type}.
Implicit Types (o : JsObject.t V) (k : string) (v : V).

Lemma eqb_string_true k k' : String.eqb k' k = true ↔ k' = k.
Proof. apply String.eqb_eq. Qed.

Lemma eqb_string_false k k' : String.eqb k' k = false ↔ k' ≠ k.
Proof. apply String.eqb_neq. Qed.


Lemma get_None_keys o k : JsObject.get k o = None ↔ k ∉ JsObject.keys o.
Proof.
  unfold JsObject.keys. induction o as [|[k' v'] r IH]; csimpl.
  - split; [intros _; apply not_elem_of_nil | done].
  - rewrite not_elem_of_cons. destruct (String.eqb k' k) eqn:E.
    + apply eqb_string_true in E as ->. split; [done | intros []; done].
    + apply eqb_string_false in E. rewrite IH. split; [by split | by intros []].
Qed.

Lemma get_is_Some_keys o k : is_Some (JsObject.get k o) ↔ k ∈ JsObject.keys o.
Proof.
  destruct (JsObject.get k o) eqn:E.
  - split; [intros _ | eauto].
    destruct (decide (k ∈ JsObject.keys o)) as [|Hn]; [done|].
    apply get_None_keys in Hn. congruence.
  - split; [intros [? [=]] | intros Hin].
    apply get_None_keys in E. done.
Qed.

Lemma keys_replace o k v : JsObject.keys (JsObject.replace k v o) = JsObject.keys o.
Proof.
  unfold JsObject.keys. induction o as [|[k' v'] r IH]; simpl; [done|].
  destruct (String.eqb k' k); csimpl; [done | by f_equal].
Qed.

Lemma get_replace o k k' v :
  JsObject.get k' (JsObject.replace k v o)
  = if decide (k = k') then (λ _, v) <$> JsObject.get k o
    else JsObject.get k' o.
Proof.
  induction o as [|[k0 v0] r IH]; simpl; [by case_decide|].
  destruct (String.eqb k0 k) eqn:E; simpl.
  - apply eqb_string_true in E as ->. case_decide as Hk.
    + subst. by rewrite String.eqb_refl.
    + by apply eqb_string_false in Hk as ->.
  - apply eqb_string_false in E. destruct (String.eqb k0 k') eqn:E'.
    + apply eqb_string_true in E' as ->. by rewrite decide_False by done.
    + done.
Qed.

Lemma keys_insertIndex o n k v :
  JsObject.keys (JsObject.insertIndex n k v o) ≡ₚ k :: JsObject.keys o.
Proof.
  unfold JsObject.keys. induction o as [|[k' v'] r IH]; simpl; [done|].
  destruct (JsObject.arrayIndex k') as [m|]; [|done].
  destruct (m <? n)%N; [|done]. csimpl. rewrite IH. apply Permutation_swap.
Qed.

Lemma get_insertIndex o n k k' v :
  JsObject.get k o = None →
  JsObject.get k' (JsObject.insertIndex n k v o)
  = if decide (k = k') then Some v else JsObject.get k' o.
Proof.
  induction o as [|[k0 v0] r IH]; simpl.
  - intros _. case_decide as Hk.
    + subst. by rewrite String.eqb_refl.
    + by apply eqb_string_false in Hk as ->.
  - destruct (String.eqb k0 k) eqn:E; [done|]. intros Hr.
    apply eqb_string_false in E.
    assert (JsObject.get k' ((k, v) :: (k0, v0) :: r)
            = if decide (k = k') then Some v
              else if String.eqb k0 k' then Some v0 else JsObject.get k' r) as Hhead.
    { simpl. case_decide as Hk.
      - subst. by rewrite String.eqb_refl.
      - by apply eqb_string_false in Hk as ->. }
    destruct (JsObject.arrayIndex k0) as [m|]; [|exact Hhead].
    destruct (m <? n)%N; [|exact Hhead].
    simpl. rewrite IH by done.
    destruct (String.eqb k0 k') eqn:E'; [|done].
    apply eqb_string_true in E' as ->. by rewrite decide_False by done.
Qed.

Lemma get_app_single o k k' v :
  JsObject.get k o = None →
  JsObject.get k' (o ++ [(k, v)])
  = if decide (k = k') then Some v else JsObject.get k' o.
Proof.
  induction o as [|[k0 v0] r IH]; simpl.
  - intros _. case_decide as Hk.
    + subst. by rewrite String.eqb_refl.
    + by apply eqb_string_false in Hk as ->.
  - destruct (String.eqb k0 k) eqn:E; [done|]. intros Hr.
    apply eqb_string_false in E. rewrite IH by done.
    destruct (String.eqb k0 k') eqn:E'; [|done].
    apply eqb_string_true in E' as ->. by rewrite decide_False by done.
Qed.

(** Reading after [o[k] = v]. *)
Lemma get_set o k k' v :
  JsObject.get k' (JsObject.set k v o)
  = if decide (k = k') then Some v else JsObject.get k' o.
Proof.
  unfold JsObject.set. destruct (JsObject.get k o) as [v0|] eqn:E.
  - rewrite get_replace, E. done.
  - destruct (JsObject.arrayIndex k).
    + by apply get_insertIndex.
    + by apply get_app_single.
Qed.

(** The keys after [o[k] = v], up to order. *)
Lemma keys_set o k v :
  JsObject.keys (JsObject.set k v o)
  ≡ₚ if decide (k ∈ JsObject.keys o) then JsObject.keys o
     else k :: JsObject.keys o.
Proof.
  unfold JsObject.set. destruct (JsObject.get k o) as [v0|] eqn:E.
  - rewrite keys_replace, decide_True; [done|].
    apply get_is_Some_keys. eauto.
  - apply get_None_keys in E. rewrite decide_False by done.
    destruct (JsObject.arrayIndex k).
    + apply keys_insertIndex.
    + unfold JsObject.keys. rewrite fmap_app. simpl.
      symmetry. apply Permutation_cons_append.
Qed.

Lemma keys_set_NoDup o k v :
  NoDup (JsObject.keys o) → NoDup (JsObject.keys (JsObject.set k v o)).
Proof.
  intros Hnd. rewrite keys_set. case_decide; [done|]. by constructor.
Qed.

Lemma keys_set_elem o k k' v :
  k' ∈ JsObject.keys (JsObject.set k v o) ↔ k' = k ∨ k' ∈ JsObject.keys o.
Proof.
  rewrite keys_set. case_decide; [|by rewrite elem_of_cons].
  split; [by right | by intros [->|]].
Qed.

Lemma keys_mapValues o (f : V → V) :
  JsObject.keys (JsObject.mapValues f o) = JsObject.keys o.
Proof.
  unfold JsObject.keys, JsObject.mapValues. rewrite <- list_fmap_compose.
  by apply list_fmap_ext.
Qed.


End JsObjectFacts.

(** Array-index keys come first, in ascending order; then the others in
    the order of their insertion. *)
Example keys_order :
  JsObject.keys
    (JsObject.set "2" 6 (JsObject.set "a" 5 (JsObject.set "01" 4
      (JsObject.set "2" 3 (JsObject.set "10" 2 (JsObject.set "b" 1 []))))))
  = ["2"; "10"; "b"; "01"; "a"].
Proof. reflexivity. Qed.

Section SetFacts.
Context {V : Type}.
Implicit Types (o : JsObject.t V) (k : string) (v : V).

Lemma elem_of_replace o k v k' v' :
  (k', v') ∈ JsObject.replace k v o → (k' = k ∧ v' = v) ∨ (k', v') ∈ o.
Proof.
  induction o as [|[k0 v0] r IH]; simpl; [by intros ?%elem_of_nil|].
  destruct (String.eqb k0 k) eqn:E.
  - apply eqb_string_true in E as ->.
    intros [[= -> ->]|Hin]%elem_of_cons; [by left | right; by right].
  - intros [[= -> ->]|Hin]%elem_of_cons; [right; left|].
    destruct (IH Hin) as [?|?]; [by left | right; by right].
Qed.

Lemma elem_of_insertIndex o n k v k' v' :
  (k', v') ∈ JsObject.insertIndex n k v o → (k' = k ∧ v' = v) ∨ (k', v') ∈ o.
Proof.
  induction o as [|[k0 v0] r IH]; simpl.
  - intros [[= -> ->]|[]%elem_of_nil]%elem_of_cons. by left.
  - assert ((k', v') ∈ (k, v) :: (k0, v0) :: r →
            (k' = k ∧ v' = v) ∨ (k', v') ∈ (k0, v0) :: r) as Hhead.
    { intros [[= -> ->]|Hin]%elem_of_cons; [by left | by right]. }
    destruct (JsObject.arrayIndex k0) as [m|]; [|done].
    destruct (m <? n)%N; [|done].
    intros [[= -> ->]|Hin]%elem_of_cons; [right; left|].
    destruct (IH Hin) as [?|?]; [by left | right; by right].
Qed.

Lemma elem_of_set o k v k' v' :
  (k', v') ∈ JsObject.set k v o → (k' = k ∧ v' = v) ∨ (k', v') ∈ o.
Proof.
  unfold JsObject.set. destruct (JsObject.get k o).
  - apply elem_of_replace.
  - destruct (JsObject.arrayIndex k).
    + apply elem_of_insertIndex.
    + intros [Hin|[= -> ->]%list_elem_of_singleton]%elem_of_app;
        [by right | by left].
Qed.

End SetFacts.

Lemma indexOf_Some (ks : list string) k i :
  JsObject.indexOf k ks = Some i → ks !! i = Some k.
Proof.
  revert i. induction ks as [|k' r IH]; intros i; simpl; [done|].
  destruct (String.eqb k' k) eqn:E.
  - apply eqb_string_true in E as ->. by intros [= <-].
  - destruct (JsObject.indexOf k r) as [i'|]; simpl; [|done].
    intros [= <-]. simpl. by apply IH.
Qed.

Lemma indexOf_elem (ks : list string) k :
  k ∈ ks → is_Some (JsObject.indexOf k ks).
Proof.
  induction ks as [|k' r IH]; [by intros ?%elem_of_nil|].
  simpl. destruct (String.eqb k' k) eqn:E; [eauto|].
  apply eqb_string_false in E.
  intros [?|Hin]%elem_of_cons; [congruence|].
  destruct (IH Hin) as [i ->]. simpl. eauto.
Qed.

(** ** Facts about the card search *)

Lemma findCard_Some cardId cs i c :
  findCard cardId cs = Some (i, c) → cs !! i = Some c ∧ Card.id c = cardId.
Proof.
  revert i. induction cs as [|c0 r IH]; intros i; simpl; [done|].
  destruct (String.eqb (Card.id c0) cardId) eqn:E.
  - apply eqb_string_true in E. by intros [= <- <-].
  - destruct (findCard cardId r) as [[i' c']|]; simpl; [|done].
    intros [= <- <-]. simpl. by apply IH.
Qed.

Lemma findCard_None cardId cs :
  findCard cardId cs = None ↔ ∀ c, c ∈ cs → Card.id c ≠ cardId.
Proof.
  induction cs as [|c0 r IH]; simpl.
  - split; [intros _ c ?%elem_of_nil; done | done].
  - destruct (String.eqb (Card.id c0) cardId) eqn:E.
    + apply eqb_string_true in E. split; [done|].
      intros H. exfalso. apply (H c0); [left | done].
    + apply eqb_string_false in E.
      destruct (findCard cardId r) as [[i' c']|]; simpl.
      * split; [done|]. intros H. exfalso.
        assert (Some (i', c') = None) as Habs; [|done].
        apply IH. intros c Hc. apply H. by right.
      * split; [|done]. intros _ c [->|Hc]%elem_of_cons; [done|].
        by apply IH.
Qed.

Lemma turnIs_true turn playerId : turnIs turn playerId = true ↔ turn = Some playerId.
Proof.
  destruct turn as [p|]; simpl; [|done].
  rewrite eqb_string_true. split; [by intros -> | by intros [= ->]].
Qed.

Lemma turnIs_false turn playerId : turnIs turn playerId = false ↔ turn ≠ Some playerId.
Proof. rewrite <- turnIs_true. by destruct (turnIs turn playerId). Qed.

(** ** Rejected flips *)

Lemma flipCard_rejected now playerId cardId game :
  rejectedFlip game playerId cardId →
  flipCard now playerId cardId game = (game, Returned ActError, None).
Proof.
  unfold flipCard. intros [Hturn | [Hnone | (i & c & Hfind & Hc)]].
  - apply turnIs_false in Hturn. by rewrite Hturn.
  - apply findCard_None in Hnone. rewrite Hnone.
    by destruct (negb _).
  - rewrite Hfind. destruct (negb _); [done|].
    assert (Card.isMatched c || Card.isFlipped c = true) as ->; [|done].
    apply orb_true_iff. done.
Qed.

(** An [error] action is returned for these reasons only. *)
Lemma flipCard_error_inv now playerId cardId game d game' :
  flipCard now playerId cardId game = (game', Returned ActError, d) →
  rejectedFlip game playerId cardId.
Proof.
  unfold flipCard, rejectedFlip.
  destruct (turnIs _ _) eqn:Hturn; simpl;
    [| intros _; left; by apply turnIs_false].
  destruct (findCard _ _) as [[ci c]|] eqn:Hfind;
    [| intros _; right; left; by apply findCard_None].
  destruct (Card.isMatched c || Card.isFlipped c) eqn:Hc.
  - intros _. right; right. exists ci, c. split; [done|].
    by apply orb_true_iff.
  - destruct (negb (truthy _)); [done|].
    match goal with |- context [if ?b then _ else _] => destruct b end; [|done].
    destruct (JsObject.get _ _); done.
Qed.

(** C4. A [handleCardFlip] call that is rejected (the caller does not hold
    the turn, or the card id is unknown, or the card is already matched or
    already flipped) answers with the [error] action, schedules nothing and
    leaves the whole registry, hence the session, exactly as it was. *)
Theorem handleCardFlip_rejected_no_mutation
    (games : gmap string GameState.t) now gameId playerId cardId game :
  games !! gameId = Some game →
  rejectedFlip game playerId cardId →
  handleCardFlip games now gameId playerId cardId
  = (games, Returned (Some ActError), None).
Proof.
  intros Hgame Hrej. unfold handleCardFlip. rewrite Hgame.
  rewrite (flipCard_rejected _ _ _ _ Hrej).
  by rewrite insert_id.
Qed.

Lemma handleCardFlip_rejected_witness :
  sampleGames !! "k3x9q" = Some sampleGame
  ∧ rejectedFlip sampleGame "sockB" "card_0"
  ∧ handleCardFlip sampleGames 2000 "k3x9q" "sockB" "card_0"
    = (sampleGames, Returned (Some ActError), None).
Proof.
  assert (sampleGames !! "k3x9q" = Some sampleGame) as Hg
    by (vm_compute; reflexivity).
  assert (rejectedFlip sampleGame "sockB" "card_0") as Hr
    by (left; vm_compute; discriminate).
  exact (conj Hg (conj Hr
    (handleCardFlip_rejected_no_mutation sampleGames 2000 "k3x9q" "sockB"
       "card_0" sampleGame Hg Hr))).
Defined.

(** Every [error] result of [handleCardFlip] comes with an untouched
    registry. *)
Lemma handleCardFlip_error_no_mutation
    (games games' : gmap string GameState.t) now gameId playerId cardId d :
  handleCardFlip games now gameId playerId cardId
  = (games', Returned (Some ActError), d) →
  games' = games ∧ d = None.
Proof.
  unfold handleCardFlip. destruct (games !! gameId) as [game|] eqn:Hgame; [|done].
  destruct (flipCard now playerId cardId game) as [[game' [a|]] d'] eqn:Hflip;
    [|done].
  intros [= <- -> <-].
  pose proof (flipCard_error_inv _ _ _ _ _ _ Hflip) as Hrej.
  rewrite (flipCard_rejected _ _ _ _ Hrej) in Hflip.
  injection Hflip as <- <-. by rewrite insert_id.
Qed.

(** ** Joining a room *)

Lemma existsb_nickname nickname (ps : list Player.t) :
  existsb (λ player, String.eqb (Player.nickname player) nickname) ps = true
  ↔ ∃ player, player ∈ ps ∧ Player.nickname player = nickname.
Proof.
  rewrite existsb_exists. split; intros (player & Hin & Hn); exists player.
  - split; [by apply list_elem_of_In | by apply eqb_string_true].
  - split; [by apply list_elem_of_In | by apply eqb_string_true].
Qed.


(** The comparison of nicknames is exact: [alice] is taken in the sample
    room, [Alice] is not. *)
Example joinRoom_nickname_case :
  (joinRoom sampleRooms 20 "ABC123" "sockB" "alice").2 = None
  ∧ (GameRoom.players <$> (joinRoom sampleRooms 20 "ABC123" "sockB" "Alice").2)
    = Some [ ("sockA", Player.mk "sockA" "alice" false true 10);
             ("sockB", Player.mk "sockB" "Alice" false false 20) ].
Proof. split; by vm_compute. Qed.

(** A third player is turned away from a room of two. *)
Example joinRoom_full :
  let rooms := (joinRoom sampleRooms 20 "ABC123" "sockB" "bob").1 in
  joinRoom rooms 30 "ABC123" "sockC" "carol" = (rooms, None).
Proof. by vm_compute. Qed.

(** ** Session ids and room codes *)

Lemma generateRoomCode_fresh fuel (rooms : gmap string GameRoom.t) rnd attempt code :
  generateRoomCode fuel rooms rnd attempt = Some code →
  rooms !! code = None
  ∧ ∃ n, code = drawCode (rnd (attempt + n))
      ∧ ∀ m, m < n → is_Some (rooms !! drawCode (rnd (attempt + m))).
Proof.
  revert attempt. induction fuel as [|fuel IH]; intros attempt; simpl; [done|].
  destruct (rooms !! drawCode (rnd attempt)) as [r|] eqn:Hhit.
  - intros H. destruct (IH _ H) as (Hfree & n & Hcode & Hbusy).
    split; [done|]. exists (S n). split.
    + by rewrite Nat.add_succ_r.
    + intros [|m] Hm.
      * rewrite Nat.add_0_r. eauto.
      * rewrite Nat.add_succ_r. apply Hbusy. lia.
  - intros [= <-]. split; [done|]. exists 0. rewrite Nat.add_0_r.
    split; [done | lia].
Qed.

Lemma generateRoomCode_returns fuel (rooms : gmap string GameRoom.t) rnd attempt n :
  n < fuel → rooms !! drawCode (rnd (attempt + n)) = None →
  is_Some (generateRoomCode fuel rooms rnd attempt).
Proof.
  revert attempt n. induction fuel as [|fuel IH]; intros attempt n Hn Hfree; [lia|].
  simpl. destruct (rooms !! drawCode (rnd attempt)) as [r|] eqn:Hhit; [|eauto].
  destruct n as [|n]; [rewrite Nat.add_0_r in Hfree; congruence|].
  apply (IH (S attempt) n); [lia|]. by rewrite Nat.add_succ_r in Hfree.
Qed.

(** C10. [createGame] stores the new session under the id it drew without
    looking at the registry: the sessions under every other id are left as
    they were, and a second call that draws the id of an earlier one puts
    its own session in the place of the first (the two sample calls differ
    in their room); [generateRoomCode], on the contrary, returns only a
    code that no live room has, having drawn again for every candidate that
    collided, and it does return once a candidate is free. *)
Theorem createGame_unchecked_id :
  (∀ (games : gmap string GameState.t) reply rndPairs rndCards drawnId
     startedNow turnNow roomCode players config other,
     other ≠ drawnId →
     (createGame games reply rndPairs rndCards drawnId startedNow turnNow
        roomCode players config).1 !! other = games !! other)
  ∧ (∀ (games : gmap string GameState.t) reply rndPairs rndCards drawnId
       startedNow turnNow roomCode players config game,
       (createGame games reply rndPairs rndCards drawnId startedNow turnNow
          roomCode players config).2 = Returned game →
       GameState.gameId game = drawnId
       ∧ (createGame games reply rndPairs rndCards drawnId startedNow turnNow
            roomCode players config).1 !! drawnId = Some game)
  ∧ (∃ first second,
       sampleCreated = (sampleGames, Returned first)
       ∧ createGame sampleGames AiFailure keepOrder keepOrder "k3x9q" 5000 5000
           "ROOM02" [bob; alice] (sampleConfig 3)
         = (<["k3x9q" := second]> sampleGames, Returned second)
       ∧ sampleGames !! "k3x9q" = Some first
       ∧ first ≠ second
       ∧ ∀ gameId, <["k3x9q" := second]> sampleGames !! gameId ≠ Some first)
  ∧ (∀ fuel (rooms : gmap string GameRoom.t) rnd attempt code,
       generateRoomCode fuel rooms rnd attempt = Some code →
       rooms !! code = None
       ∧ ∃ n, code = drawCode (rnd (attempt + n))
           ∧ ∀ m, m < n → is_Some (rooms !! drawCode (rnd (attempt + m))))
  ∧ (∀ fuel (rooms : gmap string GameRoom.t) rnd attempt n,
       n < fuel → rooms !! drawCode (rnd (attempt + n)) = None →
       is_Some (generateRoomCode fuel rooms rnd attempt)).
Proof.
  split; [|split; [|split; [|split]]].
  - intros * Hne. unfold createGame.
    destruct (players !! 0); simpl; [|done]. by rewrite lookup_insert_ne.
  - intros *. unfold createGame.
    destruct (players !! 0); simpl; [|done].
    intros [= <-]. simpl. split; [done | by rewrite lookup_insert_eq].
  - eexists _, _. split; [reflexivity|]. split; [reflexivity|].
    split; [by vm_compute|]. split; [by vm_compute|].
    intros gameId. destruct (decide (gameId = "k3x9q")) as [->|Hne].
    + rewrite lookup_insert_eq. by vm_compute.
    + rewrite lookup_insert_ne by done.
      unfold sampleGames, sampleCreated, createGame. simpl.
      rewrite lookup_insert_ne by done. by rewrite lookup_empty.
  - apply generateRoomCode_fresh.
  - apply generateRoomCode_returns.
Qed.

(** ** The fallback of the content provider *)

Lemma length_swap {A} i j (a : list A) : length (swap i j a) = length a.
Proof.
  unfold swap. destruct (a !! i), (a !! j); try done.
  by rewrite !length_insert.
Qed.

Lemma length_shuffleArrayFrom {A} rnd i (a : list A) :
  length (shuffleArrayFrom rnd i a) = length a.
Proof.
  revert a. induction i as [|i IH]; intros a; simpl; [done|].
  by rewrite IH, length_swap.
Qed.

Lemma length_shuffleArray {A} rnd (a : list A) :
  length (shuffleArray rnd a) = length a.
Proof. apply length_shuffleArrayFrom. Qed.

Lemma length_getFallbackPairs rnd count :
  length (getFallbackPairs rnd count)
  = if (count <? 0)%Z then Z.to_nat (Z.max (9 + count) 0)
    else Z.to_nat count `min` 9.
Proof.
  unfold getFallbackPairs, slice0.
  destruct (count <? 0)%Z eqn:E;
    rewrite length_take, length_shuffleArray; simpl; [|lia].
  apply Z.ltb_lt in E. lia.
Qed.

(** In the range of the built-in set the provider does deliver [count]
    pairs, whatever the AI request yields. *)
Lemma generateBugSolutionPairs_length_small reply rnd count :
  (0 ≤ count ≤ 9)%Z →
  Z.of_nat (length (generateBugSolutionPairs reply rnd count)) = count.
Proof.
  intros Hc. unfold generateBugSolutionPairs.
  assert (Z.of_nat (length (getFallbackPairs rnd count)) = count) as Hfb.
  { rewrite length_getFallbackPairs.
    destruct (count <? 0)%Z eqn:E; [apply Z.ltb_lt in E|]; lia. }
  destruct reply as [| |aiPairs]; try done.
  destruct (Z.of_nat (length aiPairs) =? count)%Z eqn:E; [|done].
  by apply Z.eqb_eq in E.
Qed.

Example fallback_counts :
  length (getFallbackPairs keepOrder 6) = 6
  ∧ length (getFallbackPairs keepOrder 9) = 9
  ∧ length (getFallbackPairs keepOrder 12) = 9
  ∧ length (getFallbackPairs keepOrder (-2)) = 7.
Proof. repeat split; by vm_compute. Qed.

(** C6. When the AI request fails and more pairs are asked for than the
    built-in set holds, [generateBugSolutionPairs] returns the nine
    built-in pairs only: the shuffled set is cut with [slice(0, count)] and
    nothing is repeated, so fewer than [count] pairs come back. *)
Theorem generateBugSolutionPairs_fallback_short rnd count :
  (9 < count)%Z →
  length (generateBugSolutionPairs AiFailure rnd count) = 9
  ∧ (Z.of_nat (length (generateBugSolutionPairs AiFailure rnd count)) < count)%Z.
Proof.
  intros Hc. simpl. rewrite length_getFallbackPairs.
  destruct (count <? 0)%Z eqn:E; [apply Z.ltb_lt in E|]; lia.
Qed.

Lemma generateBugSolutionPairs_fallback_short_witness :
  (9 < 10)%Z
  ∧ length (generateBugSolutionPairs AiFailure keepOrder 10) = 9
  ∧ (Z.of_nat (length (generateBugSolutionPairs AiFailure keepOrder 10)) < 10)%Z.
Proof.
  assert (9 < 10)%Z as H by lia.
  exact (conj H (generateBugSolutionPairs_fallback_short keepOrder 10 H)).
Defined.

(** ** The turn flags *)

Section ValuesFacts.
Context {V : Type} (P : V → Prop).
Implicit Types (o : JsObject.t V).

Lemma values_replace_Forall o k v :
  P v → Forall P (JsObject.values o) →
  Forall P (JsObject.values (JsObject.replace k v o)).
Proof.
  intros Hv. unfold JsObject.values.
  induction o as [|[k' v'] r IH]; csimpl; [done|].
  intros [Hv' Hr]%Forall_cons.
  destruct (String.eqb k' k); csimpl; constructor; auto.
Qed.

Lemma values_insertIndex_Forall o n k v :
  P v → Forall P (JsObject.values o) →
  Forall P (JsObject.values (JsObject.insertIndex n k v o)).
Proof.
  intros Hv. unfold JsObject.values.
  induction o as [|[k' v'] r IH]; csimpl; [by constructor|].
  intros Hall. pose proof Hall as [Hv' Hr]%Forall_cons.
  destruct (JsObject.arrayIndex k') as [m|]; [|by constructor].
  destruct (m <? n)%N; csimpl; constructor; auto.
Qed.

Lemma values_set_Forall o k v :
  P v → Forall P (JsObject.values o) →
  Forall P (JsObject.values (JsObject.set k v o)).
Proof.
  intros Hv Ho. unfold JsObject.set. destruct (JsObject.get k o).
  - by apply values_replace_Forall.
  - destruct (JsObject.arrayIndex k).
    + by apply values_insertIndex_Forall.
    + unfold JsObject.values in *. rewrite fmap_app.
      apply Forall_app. split; [done | by constructor].
Qed.

End ValuesFacts.

(** Whatever holds of the empty record and is kept by one more
    [acc[player.id] = {...}] holds of the seeded players. *)
Lemma seedPlayers_ind (P : JsObject.t PlayerGameState.t → Prop) players :
  P [] →
  (∀ acc player,
     P acc →
     P (JsObject.set (PlayerEntry.id player)
          (PlayerGameState.mk (PlayerEntry.id player)
             (PlayerEntry.nickname player) 0 0 None) acc)) →
  P (seedPlayers players).
Proof.
  intros Hnil Hset. unfold seedPlayers.
  generalize (@nil (string * PlayerGameState.t)) Hnil.
  induction players as [|player rest IH]; intros acc Hacc; simpl; [done|].
  by apply IH, Hset.
Qed.

Lemma seedPlayers_no_flag players :
  Forall (λ p, PlayerGameState.isCurrentTurn p = None)
         (JsObject.values (seedPlayers players)).
Proof.
  apply seedPlayers_ind; [constructor|].
  intros acc player Hacc. by apply values_set_Forall.
Qed.

(** C3. In the session that [createGame] returns, whose status is
    [playing] and whose turn belongs to the first-listed player, no player
    state carries [isCurrentTurn = true]: the flag is not written at
    creation at all. *)
Theorem createGame_sets_no_turn_flag
    (games : gmap string GameState.t) reply rndPairs rndCards drawnId
    startedNow turnNow roomCode players config game :
  (createGame games reply rndPairs rndCards drawnId startedNow turnNow
     roomCode players config).2 = Returned game →
  GameState.status game = playing
  ∧ GameState.currentTurn game = PlayerEntry.id <$> players !! 0
  ∧ holdersOfTurn game = []
  ∧ ∀ p, p ∈ JsObject.values (GameState.players game) →
         PlayerGameState.isCurrentTurn p = None.
Proof.
  unfold createGame. destruct (players !! 0) as [first|]; simpl; [|done].
  intros [= <-]. simpl. split; [done|]. split; [done|].
  pose proof (seedPlayers_no_flag players) as Hall.
  split.
  - unfold holdersOfTurn. simpl.
    induction Hall as [|p ps Hp Hps IH]; [done|].
    rewrite filter_cons, decide_False by congruence. done.
  - intros p Hp. by eapply Forall_forall in Hall.
Qed.

Lemma createGame_sets_no_turn_flag_witness :
  sampleCreated.2 = Returned sampleGame
  ∧ GameState.status sampleGame = playing
  ∧ GameState.currentTurn sampleGame = Some "sockA"
  ∧ holdersOfTurn sampleGame = [].
Proof.
  assert (sampleCreated.2 = Returned sampleGame) as H by (vm_compute; reflexivity).
  destruct (createGame_sets_no_turn_flag _ _ _ _ _ _ _ _ _ _ _ H)
    as (Hs & Ht & Hh & _).
  exact (conj H (conj Hs (conj Ht Hh))).
Defined.

(** ** Matching flips *)

Lemma findCard_alter f i cardId cs :
  (∀ c, Card.id (f c) = Card.id c) →
  findCard cardId (alter f i cs)
  = (λ jc, (jc.1, if decide (jc.1 = i) then f jc.2 else jc.2))
      <$> findCard cardId cs.
Proof.
  intros Hid. revert i. induction cs as [|c0 r IH]; intros i; [done|].
  destruct i as [|i]; csimpl.
  - rewrite Hid. destruct (String.eqb (Card.id c0) cardId); [done|].
    by destruct (findCard cardId r) as [[j c]|].
  - destruct (String.eqb (Card.id c0) cardId); [done|].
    rewrite IH. destruct (findCard cardId r) as [[j c]|]; simpl; [|done].
    f_equal. f_equal. destruct (decide (j = i)), (decide (S j = S i)); done || lia.
Qed.

Lemma findCardRef_alter f i v cs :
  (∀ c, Card.id (f c) = Card.id c) →
  findCardRef v (alter f i cs)
  = (λ jc, (jc.1, if decide (jc.1 = i) then f jc.2 else jc.2))
      <$> findCardRef v cs.
Proof. intros Hid. destruct v; try done. by apply findCard_alter. Qed.



(** ** The board: pairs, shuffle and positions *)

Lemma fold_pushPair_mintFrom pairs acc position :
  fold_left pushPair pairs (acc, position)
  = (acc ++ mintFrom position pairs, position + 2 * length pairs).
Proof.
  revert acc position. induction pairs as [|p rest IH]; intros acc position; simpl.
  - by rewrite app_nil_r, Nat.add_0_r.
  - rewrite IH. f_equal; [|lia]. by rewrite <- app_assoc.
Qed.

Lemma generateCards_mintFrom rnd pairs :
  generateCards rnd pairs = shuffleCards rnd (mintFrom 0 pairs).
Proof. unfold generateCards. by rewrite fold_pushPair_mintFrom. Qed.

Lemma length_mintFrom position pairs :
  length (mintFrom position pairs) = 2 * length pairs.
Proof.
  revert position. induction pairs as [|p rest IH]; intros position; simpl; [done|].
  rewrite IH. lia.
Qed.

Lemma cardId_inj k k' : cardId k = cardId k' → k = k'.
Proof.
  unfold cardId. intros H. simpl in H.
  injection H as H. by apply (inj pretty).
Qed.


Lemma ids_mintFrom position pairs :
  Card.id <$> mintFrom position pairs
  = cardId <$> seq position (2 * length pairs).
Proof.
  revert position. induction pairs as [|p rest IH]; intros position; [done|].
  simpl length. replace (2 * S (length rest)) with (S (S (2 * length rest))) by lia.
  simpl. rewrite IH. unfold cardId. do 3 f_equal; [by rewrite Nat.add_1_r|].
  by replace (position + 2) with (S (S position)) by lia.
Qed.

Lemma ids_mintFrom_NoDup position pairs :
  NoDup (Card.id <$> mintFrom position pairs).
Proof.
  rewrite ids_mintFrom. apply NoDup_fmap_2_strong; [|apply NoDup_seq].
  intros k k' _ _. apply cardId_inj.
Qed.

Lemma matching_mintFrom position pairs :
  Card.matchingCardId <$> mintFrom position pairs
  ≡ₚ Card.id <$> mintFrom position pairs.
Proof.
  revert position. induction pairs as [|p rest IH]; intros position; [done|].
  simpl. rewrite IH. apply Permutation_swap.
Qed.

Lemma mintFrom_partner position pairs c :
  c ∈ mintFrom position pairs →
  ∃ d, d ∈ mintFrom position pairs ∧ partnerOf c d.
Proof.
  revert position. induction pairs as [|p rest IH]; intros position;
    [by intros ?%elem_of_nil|].
  simpl. intros [->|[->|Hin]%elem_of_cons]%elem_of_cons.
  - eexists. split; [right; left|]. by repeat split.
  - eexists. split; [left|]. by repeat split.
  - destruct (IH _ Hin) as (d & Hd & Hp). exists d.
    split; [by do 2 right | done].
Qed.

Lemma mintFrom_positioned position pairs k c :
  mintFrom position pairs !! k = Some c → Card.position c = position + k.
Proof.
  revert position k. induction pairs as [|p rest IH]; intros position k; [done|].
  simpl. destruct k as [|[|k]]; simpl.
  - intros [= <-]. simpl. lia.
  - intros [= <-]. simpl. lia.
  - intros H. apply IH in H. lia.
Qed.

Lemma insert_swap_in {A} (r : list A) j y x :
  r !! j = Some y → y :: <[j := x]> r ≡ₚ x :: r.
Proof.
  revert j. induction r as [|d r IH]; intros j; [done|].
  destruct j as [|j]; simpl.
  - intros [= ->]. apply Permutation_swap.
  - intros H. rewrite Permutation_swap, (IH _ H). apply Permutation_swap.
Qed.

Lemma swap_Permutation {A} i j (a : list A) : swap i j a ≡ₚ a.
Proof.
  unfold swap. destruct (a !! i) as [x|] eqn:Hi; [|done].
  destruct (a !! j) as [y|] eqn:Hj; [|done].
  revert i j Hi Hj. induction a as [|c r IH]; intros i j Hi Hj; [done|].
  destruct i as [|i], j as [|j]; simpl in *.
  - by injection Hi as ->.
  - injection Hi as ->. by apply insert_swap_in.
  - injection Hj as ->. by apply insert_swap_in.
  - by rewrite IH.
Qed.

Lemma swap_lookup_ne {A} i j k (a : list A) :
  k ≠ i → k ≠ j → swap i j a !! k = a !! k.
Proof.
  intros Hi Hj. unfold swap. destruct (a !! i), (a !! j); try done.
  by rewrite !list_lookup_insert_ne by done.
Qed.

Lemma fmap_alter_absorb {A B} (g : A → B) (f : A → A) k (l : list A) :
  (∀ x, g (f x) = g x) → g <$> alter f k l = g <$> l.
Proof.
  intros Hgf. apply list_eq. intros i. rewrite !list_lookup_fmap.
  destruct (decide (k = i)) as [->|Hne].
  - rewrite list_lookup_alter_eq. destruct (l !! i); simpl; [|done].
    by rewrite Hgf.
  - by rewrite list_lookup_alter_ne.
Qed.

Lemma shuffleCardsFrom_face rnd i cs :
  face <$> shuffleCardsFrom rnd i cs ≡ₚ face <$> cs.
Proof.
  revert cs. induction i as [|i IH]; intros cs; simpl; [done|].
  rewrite IH, !fmap_alter_absorb by done.
  apply fmap_Permutation, swap_Permutation.
Qed.

Lemma exchange_positioned i j cs :
  positioned cs →
  positioned (alter (Card.setPosition j) j
                (alter (Card.setPosition i) i (swap i j cs))).
Proof.
  intros Hcs k c.
  set (swapped := swap i j cs).
  set (placed := alter (Card.setPosition i) i swapped).
  destruct (decide (j = k)) as [<-|Hj].
  { rewrite list_lookup_alter_eq.
    destruct (placed !! j); csimpl; [|done]. by intros [= <-]. }
  rewrite list_lookup_alter_ne by done. unfold placed.
  destruct (decide (i = k)) as [<-|Hi].
  { rewrite list_lookup_alter_eq.
    destruct (swapped !! i); csimpl; [|done]. by intros [= <-]. }
  rewrite list_lookup_alter_ne by done. unfold swapped.
  rewrite swap_lookup_ne by done. apply Hcs.
Qed.

Lemma shuffleCardsFrom_positioned rnd i cs :
  positioned cs → positioned (shuffleCardsFrom rnd i cs).
Proof.
  revert cs. induction i as [|i IH]; intros cs Hcs; simpl; [done|].
  by apply IH, exchange_positioned.
Qed.

Lemma positioned_seq cs :
  positioned cs → Card.position <$> cs = seq 0 (length cs).
Proof.
  intros Hcs. apply list_eq. intros k. rewrite list_lookup_fmap.
  destruct (cs !! k) as [c|] eqn:Hk; simpl.
  - rewrite (Hcs _ _ Hk). symmetry. apply lookup_seq.
    split; [done|]. by apply lookup_lt_Some in Hk.
  - symmetry. apply lookup_seq_ge. by apply lookup_ge_None in Hk.
Qed.

Lemma length_shuffleCardsFrom rnd i cs :
  length (shuffleCardsFrom rnd i cs) = length cs.
Proof.
  revert cs. induction i as [|i IH]; intros cs; simpl; [done|].
  by rewrite IH, !length_alter, length_swap.
Qed.

Lemma NoDup_fmap_elem_inj {A B} (f : A → B) (l : list A) x y :
  NoDup (f <$> l) → x ∈ l → y ∈ l → f x = f y → x = y.
Proof.
  induction l as [|a l IH]; [by intros _ ?%elem_of_nil|].
  csimpl. intros [Hnot Hnd]%NoDup_cons.
  intros [->|Hx]%elem_of_cons [->|Hy]%elem_of_cons Heq; auto.
  - exfalso. apply Hnot. rewrite Heq. by apply list_elem_of_fmap_2.
  - exfalso. apply Hnot. rewrite <- Heq. by apply list_elem_of_fmap_2.
Qed.

(** What a board minted from [pairs] and shuffled looks like. *)
Lemma generateCards_board rnd pairs :
  let board := generateCards rnd pairs in
  length board = 2 * length pairs
  ∧ face <$> board ≡ₚ face <$> mintFrom 0 pairs
  ∧ Card.position <$> board = seq 0 (2 * length pairs)
  ∧ NoDup (Card.id <$> board)
  ∧ NoDup (Card.matchingCardId <$> board)
  ∧ ∀ c, c ∈ board → ∃ d, d ∈ board ∧ partnerOf c d.
Proof.
  intros board. unfold board. rewrite generateCards_mintFrom.
  unfold shuffleCards.
  set (n := length (mintFrom 0 pairs) - 1).
  pose proof (shuffleCardsFrom_face rnd n (mintFrom 0 pairs)) as Hface.
  assert (length (shuffleCardsFrom rnd n (mintFrom 0 pairs)) = 2 * length pairs)
    as Hlen by (by rewrite length_shuffleCardsFrom, length_mintFrom).
  assert (∀ (B : Type) (g : Card.t → B) (h : _ → B),
            (∀ c, g c = h (face c)) →
            g <$> shuffleCardsFrom rnd n (mintFrom 0 pairs)
            ≡ₚ g <$> mintFrom 0 pairs) as Hvia.
  { intros B g h Hgh.
    rewrite (list_fmap_ext g (h ∘ face) _ (λ _ c _, Hgh c)).
    rewrite (list_fmap_ext g (h ∘ face) (mintFrom 0 pairs) (λ _ c _, Hgh c)).
    rewrite !list_fmap_compose. by apply fmap_Permutation. }
  split; [done|]. split; [done|]. split; [|split; [|split]].
  - rewrite <- Hlen. apply positioned_seq, shuffleCardsFrom_positioned.
    intros k c Hk. by apply mintFrom_positioned in Hk.
  - rewrite (Hvia _ Card.id (λ f, f.1.1.1.1.1.1)) by done.
    apply ids_mintFrom_NoDup.
  - rewrite (Hvia _ Card.matchingCardId (λ f, f.2)) by done.
    rewrite matching_mintFrom. apply ids_mintFrom_NoDup.
  - intros c Hc.
    assert (face c ∈ face <$> mintFrom 0 pairs) as Hfc.
    { rewrite <- Hface. by apply list_elem_of_fmap_2. }
    apply list_elem_of_fmap in Hfc as (c0 & Hc0 & Hin0).
    destruct (mintFrom_partner _ _ _ Hin0) as (d0 & Hd0 & Hp0).
    assert (face d0 ∈ face <$> shuffleCardsFrom rnd n (mintFrom 0 pairs)) as Hfd.
    { rewrite Hface. by apply list_elem_of_fmap_2. }
    apply list_elem_of_fmap in Hfd as (d & Hd & Hin).
    exists d. split; [done|].
    unfold face in Hc0, Hd. unfold partnerOf in *.
    injection Hc0 as -> -> _ -> _ _ ->. injection Hd as <- <- _ <- _ _ <-.
    done.
Qed.

(** C8. On the board of every session that [createGame] returns, with [N]
    twice the number of pairs obtained from the content provider: there
    are [N] cards; every card has a partner on the board (each names the
    other, the types are opposite, the difficulty is shared), and that
    partner is the only card whose [matchingCardId] names it; the shuffle
    keeps the cards up to their order and positions, on this board and on
    any other; and the positions read along the board are [0, 1, ...,
    N - 1], each card carrying the index at which it lies. *)
Theorem createGame_board
    (games : gmap string GameState.t) reply rndPairs rndCards drawnId
    startedNow turnNow roomCode players config game :
  (createGame games reply rndPairs rndCards drawnId startedNow turnNow
     roomCode players config).2 = Returned game →
  let pairs :=
    generateBugSolutionPairs reply rndPairs (GameConfig.numberOfPairs config) in
  let board := GameState.cards game in
  length board = 2 * length pairs
  ∧ (∀ c, c ∈ board →
       ∃ d, d ∈ board ∧ d ≠ c ∧ partnerOf c d
            ∧ ∀ d', d' ∈ board → Card.matchingCardId d' = Card.id c → d' = d)
  ∧ face <$> board ≡ₚ face <$> (fold_left pushPair pairs ([], 0)).1
  ∧ (∀ rnd cards, face <$> shuffleCards rnd cards ≡ₚ face <$> cards)
  ∧ Card.position <$> board = seq 0 (2 * length pairs).
Proof.
  unfold createGame. destruct (players !! 0) as [first|]; simpl; [|done].
  intros [= <-]. simpl.
  set (pairs := generateBugSolutionPairs _ _ _).
  destruct (generateCards_board rndCards pairs)
    as (Hlen & Hface & Hpos & Hids & Hmatch & Hpartner).
  split; [done|]. split; [|split; [|split; [|done]]].
  - intros c Hc. destruct (Hpartner c Hc) as (d & Hd & Hp).
    exists d. split; [done|]. split; [|split; [done|]].
    + intros ->. destruct Hp as (_ & _ & Ht & _). by destruct (Card.type c).
    + intros d' Hd' Hm. destruct Hp as (Hback & _).
      apply (NoDup_fmap_elem_inj Card.matchingCardId _ _ _ Hmatch Hd' Hd).
      congruence.
  - by rewrite fold_pushPair_mintFrom.
  - intros rnd cards. apply shuffleCardsFrom_face.
Qed.

Lemma createGame_board_witness :
  sampleCreated.2 = Returned sampleGame
  ∧ length (GameState.cards sampleGame) = 6
  ∧ Card.position <$> GameState.cards sampleGame = seq 0 6.
Proof.
  assert (sampleCreated.2 = Returned sampleGame) as H by (vm_compute; reflexivity).
  destruct (createGame_board _ _ _ _ _ _ _ _ _ _ _ H) as (Hlen & _ & _ & _ & Hpos).
  split; [exact H|]. split.
  - rewrite Hlen. vm_compute. reflexivity.
  - rewrite Hpos. vm_compute. reflexivity.
Defined.

(** ** How a flip completes *)

(** The five ways in which [flipCard] completes, with what each leaves in
    the session. *)
Lemma flipCard_cases now playerId cardId g :
  let r := flipCard now playerId cardId g in
  r = (g, Returned ActError, None)
  ∨ (∃ ci c,
       findCard cardId (GameState.cards g) = Some (ci, c)
       ∧ unresolvedCard c = false ∧ Card.isMatched c = false
       ∧ truthy (GameState.firstFlippedCard g) = false
       ∧ r = (GameState.setFirstFlippedCard (JsStr cardId) (flipAt true ci g),
              Returned ActFlip, None))
  ∨ (∃ ci c first,
       findCard cardId (GameState.cards g) = Some (ci, c)
       ∧ Card.isFlipped c = false ∧ Card.isMatched c = false
       ∧ truthy (GameState.firstFlippedCard g) = true
       ∧ findCardRef (GameState.firstFlippedCard g) (GameState.cards g) = first
       ∧ r = (GameState.setSecondFlippedCard (JsStr cardId) (flipAt true ci g),
              Returned ActNoMatch, Some (mkDeferred (fst <$> first) ci)))
  ∨ (∃ ci c fi fc g' out,
       findCard cardId (GameState.cards g) = Some (ci, c)
       ∧ Card.isFlipped c = false ∧ Card.isMatched c = false
       ∧ GameState.currentTurn g = Some playerId
       ∧ truthy (GameState.firstFlippedCard g) = true
       ∧ findCardRef (GameState.firstFlippedCard g) (GameState.cards g)
         = Some (fi, fc)
       ∧ r = (g', out, None)
       ∧ GameState.cards g'
         = alter (Card.setMatched true) fi
             (alter (Card.setMatched true) ci
                (alter (Card.setFlipped true) ci (GameState.cards g)))
       ∧ GameState.currentTurn g' = GameState.currentTurn g
       ∧ JsObject.keys (GameState.players g') = JsObject.keys (GameState.players g)
       ∧ ((out = Threw ∧ JsObject.get playerId (GameState.players g) = None)
          ∨ (out = Returned ActMatch
             ∧ GameState.firstFlippedCard g' = JsUndefined
             ∧ GameState.secondFlippedCard g' = JsUndefined
             ∧ GameState.status g'
               = if allMatched (GameState.cards g') then finished
                 else GameState.status g))).
Proof.
  unfold flipCard.
  destruct (turnIs _ _) eqn:Hturn; simpl; [|by left].
  apply turnIs_true in Hturn.
  destruct (findCard _ _) as [[ci c]|] eqn:Hfind; [|by left].
  destruct (Card.isMatched c) eqn:Hm; simpl; [by left|].
  destruct (Card.isFlipped c) eqn:Hf; simpl; [by left|].
  destruct (truthy (GameState.firstFlippedCard g)) eqn:Htruthy; simpl.
  2:{ right; left. exists ci, c. unfold unresolvedCard. by rewrite Hf. }
  rewrite findCardRef_alter by done.
  destruct (findCardRef (GameState.firstFlippedCard g) (GameState.cards g))
    as [[fi fc]|] eqn:Hfirst; simpl.
  2:{ right; right; left. exists ci, c, None. done. }
  assert (Card.matchingCardId
            (if decide (fi = ci) then Card.setFlipped true fc else fc)
          = Card.matchingCardId fc) as -> by (by case_decide).
  destruct (String.eqb (Card.matchingCardId fc) cardId) eqn:Hpair.
  2:{ right; right; left. exists ci, c, (Some (fi, fc)). done. }
  right; right; right.
  destruct (JsObject.get playerId (GameState.players g)) as [player|] eqn:Hplayer.
  - eexists ci, c, fi, fc, _, _. do 6 (split; [done|]).
    split; [reflexivity|].
    split; [by destruct (allMatched _)|].
    split; [by destruct (allMatched _)|].
    split; [destruct (allMatched _); simpl; apply keys_replace|].
    right. split; [done|].
    by destruct (allMatched _) eqn:Hall; simpl; rewrite ?Hall.
  - eexists ci, c, fi, fc, _, _. do 6 (split; [done|]).
    split; [reflexivity|]. do 3 (split; [done|]). by left.
Qed.

(** ** What the turn operations leave alone *)

Lemma switchTurns_cards now g : GameState.cards (switchTurns now g) = GameState.cards g.
Proof. done. Qed.


Lemma switchTurns_first now g :
  GameState.firstFlippedCard (switchTurns now g) = GameState.firstFlippedCard g.
Proof. done. Qed.


Lemma switchTurns_keys now g :
  JsObject.keys (GameState.players (switchTurns now g))
  = JsObject.keys (GameState.players g).
Proof. unfold switchTurns. simpl. apply keys_mapValues. Qed.

Lemma switchTurns_tally now g : tally (switchTurns now g) = tally g.
Proof.
  unfold tally, switchTurns, JsObject.mapValues. simpl.
  rewrite <- list_fmap_compose. by apply list_fmap_ext.
Qed.

Lemma switchTurns_currentTurn now g :
  GameState.currentTurn (switchTurns now g) = nextHolder g.
Proof. done. Qed.

Lemma nextHolder_present g p :
  nextHolder g = Some p → p ∈ JsObject.keys (GameState.players g).
Proof.
  unfold nextHolder, switchTurns. simpl. intros H.
  by apply list_elem_of_lookup_2 in H.
Qed.

Lemma switchTurns_holderPresent now g : holderPresent (switchTurns now g).
Proof.
  intros p. rewrite switchTurns_currentTurn, switchTurns_keys.
  apply nextHolder_present.
Qed.


(** What [createGame] leaves out, [switchTurns] does: after a turn switch
    exactly one player carries the flag, the new holder of the turn. *)
Lemma flagged_count k (o : JsObject.t PlayerGameState.t) :
  (∀ k' p, (k', p) ∈ o → PlayerGameState.id p = k') →
  NoDup (JsObject.keys o) →
  length
    (filter (λ p, PlayerGameState.isCurrentTurn p = Some true)
       (JsObject.values
          (JsObject.mapValues
             (λ player, PlayerGameState.setIsCurrentTurn
                          (turnIs (Some k) (PlayerGameState.id player)) player)
             o)))
  = if decide (k ∈ JsObject.keys o) then 1 else 0.
Proof.
  unfold JsObject.keys, JsObject.values, JsObject.mapValues.
  induction o as [|[k0 p0] r IH]; intros Hid Hnd; [done|].
  csimpl in *. apply NoDup_cons in Hnd as [Hnot Hnd].
  assert (PlayerGameState.id p0 = k0) as Hp0 by (apply Hid; left).
  rewrite filter_cons. simpl. rewrite Hp0.
  specialize (IH (λ k' p Hin, Hid k' p (list_elem_of_further _ _ _ Hin)) Hnd).
  destruct (decide (k = k0)) as [->|Hne].
  - rewrite String.eqb_refl, decide_True by done. simpl. rewrite IH.
    rewrite decide_False by done. by rewrite decide_True by left.
  - apply eqb_string_false in Hne as Hneb. rewrite Hneb.
    rewrite (decide_False (P := Some false = Some true)) by done. rewrite IH.
    destruct (decide (k ∈ r.*1)) as [Hin|Hnin].
    + by rewrite decide_True by by right.
    + rewrite decide_False; [done|]. by intros [?|?]%elem_of_cons.
Qed.

Lemma nextHolder_Some g :
  GameState.players g ≠ [] → is_Some (nextHolder g).
Proof.
  intros Hne. unfold nextHolder, switchTurns. simpl.
  apply lookup_lt_is_Some.
  assert (length (JsObject.keys (GameState.players g)) ≠ 0) as Hlen.
  { unfold JsObject.keys. rewrite length_fmap. by destruct (GameState.players g). }
  destruct (GameState.currentTurn g) as [p|];
    [destruct (JsObject.indexOf _ _)|]; by apply Nat.mod_upper_bound.
Qed.

Lemma switchTurns_one_holder now g :
  wellKeyed (GameState.players g) → GameState.players g ≠ [] →
  length (holdersOfTurn (switchTurns now g)) = 1.
Proof.
  intros [Hnd Hid] Hne. destruct (nextHolder_Some g Hne) as [k Hk].
  pose proof (nextHolder_present _ _ Hk) as Hin.
  unfold holdersOfTurn. unfold nextHolder in Hk.
  unfold switchTurns in *. simpl in *. rewrite Hk.
  rewrite flagged_count by done. by rewrite decide_True.
Qed.


Lemma allMatched_lookup cs i c :
  allMatched cs = true → cs !! i = Some c → Card.isMatched c = true.
Proof.
  unfold allMatched. rewrite forallb_forall. intros Hall Hc.
  by apply Hall, list_elem_of_In, list_elem_of_lookup_2 with i.
Qed.

Lemma allMatched_flip b i cs :
  allMatched (alter (Card.setFlipped b) i cs) = allMatched cs.
Proof.
  unfold allMatched. revert i. induction cs as [|c r IH]; intros i; [done|].
  destruct i as [|i]; csimpl; [done|]. by rewrite IH.
Qed.

Lemma expireTurn_fields now g :
  GameState.status (expireTurn now g) = GameState.status g
  ∧ allMatched (GameState.cards (expireTurn now g)) = allMatched (GameState.cards g)
  ∧ tally (expireTurn now g) = tally g
  ∧ JsObject.keys (GameState.players (expireTurn now g))
    = JsObject.keys (GameState.players g)
  ∧ holderPresent (expireTurn now g).
Proof.
  unfold expireTurn.
  destruct (truthy (GameState.firstFlippedCard g)).
  - destruct (findCardRef _ _) as [[fi fc]|];
      (split; [done|]; split; [|split; [|split]]);
      rewrite ?switchTurns_tally, ?switchTurns_keys, ?switchTurns_cards;
      simpl; rewrite ?allMatched_flip; try done;
      apply switchTurns_holderPresent.
  - split; [done|]. split; [done|]. split; [apply switchTurns_tally|].
    split; [apply switchTurns_keys | apply switchTurns_holderPresent].
Qed.

Lemma resolveNoMatch_fields now d g :
  GameState.status (resolveNoMatch now d g) = GameState.status g
  ∧ allMatched (GameState.cards (resolveNoMatch now d g))
    = allMatched (GameState.cards g)
  ∧ tally (resolveNoMatch now d g) = tally g
  ∧ JsObject.keys (GameState.players (resolveNoMatch now d g))
    = JsObject.keys (GameState.players g)
  ∧ holderPresent (resolveNoMatch now d g).
Proof.
  unfold resolveNoMatch.
  destruct (firstCard d) as [fi|];
    (split; [done|]; split; [|split; [|split]]);
    rewrite ?switchTurns_tally, ?switchTurns_keys, ?switchTurns_cards;
    simpl; rewrite ?allMatched_flip; try done;
    apply switchTurns_holderPresent.
Qed.

(** ** The status against the board *)

Lemma flipCard_finished now playerId cardId g :
  allMatched (GameState.cards g) = true →
  flipCard now playerId cardId g = (g, Returned ActError, None).
Proof.
  intros Hall. apply flipCard_rejected.
  destruct (findCard cardId (GameState.cards g)) as [[ci c]|] eqn:Hfind.
  - right; right. exists ci, c. split; [done|]. left.
    apply findCard_Some in Hfind as [Hci _].
    by eapply allMatched_lookup.
  - right; left. by apply findCard_None.
Qed.

Lemma flipCard_soundGame now playerId cardId g :
  soundGame g → soundGame (flipCard now playerId cardId g).1.1.
Proof.
  intros [Hfin Hholder].
  destruct (flipCard_cases now playerId cardId g)
    as [-> | [(ci & c & _ & _ & _ & _ & ->)
       | [(ci & c & first & _ & _ & _ & _ & _ & ->)
       | (ci & c & fi & fc & g' & out & Hfind & _ & Hm & Hturn & _ & _ & ->
          & Hcards & Hturn' & Hkeys & Hout)]]]; simpl.
  - done.
  - split; [|done]. unfold finishedIffAllMatched in *. simpl.
    by rewrite allMatched_flip.
  - split; [|done]. unfold finishedIffAllMatched in *. simpl.
    by rewrite allMatched_flip.
  - assert (GameState.status g ≠ finished) as Hnot.
    { intros Hf. apply Hfin in Hf. apply findCard_Some in Hfind as [Hci _].
      pose proof (allMatched_lookup _ _ _ Hf Hci). congruence. }
    split.
    + destruct Hout as [[-> Hnone] | (-> & _ & _ & Hstatus)].
      * exfalso. apply get_None_keys in Hnone. by apply Hnone, Hholder.
      * unfold finishedIffAllMatched. rewrite Hstatus.
        destruct (allMatched (GameState.cards g')); [done|].
        split; [done | discriminate].
    + intros p. rewrite Hturn', Hkeys. apply Hholder.
Qed.

Lemma step_soundGame e s : soundGame (game s) → soundGame (game (step e s)).
Proof.
  intros Hs. destruct e as [now p c | now p | now]; unfold step.
  - pose proof (flipCard_soundGame now p c _ Hs) as H.
    by destruct (flipCard now p c (game s)) as [[g' out] d].
  - destruct (turnIs _ _); [|done]. cbn [game].
    destruct (expireTurn_fields now (game s)) as (Hst & Hall & _ & _ & Hh).
    split; [|done]. unfold finishedIffAllMatched. rewrite Hst, Hall. apply Hs.
  - destruct (pending s) as [|d rest]; [done|]. cbn [game].
    destruct (resolveNoMatch_fields now d (game s)) as (Hst & Hall & _ & _ & Hh).
    split; [|done]. unfold finishedIffAllMatched. rewrite Hst, Hall. apply Hs.
Qed.

Lemma reachable_soundGame init s :
  soundGame (game init) → reachable init s → soundGame (game s).
Proof. intros Hinit. induction 1; [done | by apply step_soundGame]. Qed.

(** Once all cards are matched, no event changes the status, the matched
    board or the tally. *)
Lemma step_finished e s :
  soundGame (game s) →
  GameState.status (game s) = finished →
  GameState.status (game (step e s)) = finished
  ∧ allMatched (GameState.cards (game (step e s))) = true
  ∧ tally (game (step e s)) = tally (game s).
Proof.
  intros Hs Hfin. pose proof Hfin as Hall. apply Hs in Hall.
  destruct e as [now p c | now p | now]; unfold step.
  - by rewrite flipCard_finished.
  - destruct (turnIs _ _); [|done]. cbn [game].
    destruct (expireTurn_fields now (game s)) as (-> & -> & -> & _). done.
  - destruct (pending s) as [|d rest]; [done|]. cbn [game].
    destruct (resolveNoMatch_fields now d (game s)) as (-> & -> & -> & _). done.
Qed.

(** ** The session at creation *)

Lemma mintFrom_fresh position pairs c :
  c ∈ mintFrom position pairs →
  Card.isFlipped c = false ∧ Card.isMatched c = false ∧ Card.id c ≠ "".
Proof.
  revert position. induction pairs as [|p rest IH]; intros position;
    [by intros ?%elem_of_nil|].
  simpl. intros [->|[->|Hin]%elem_of_cons]%elem_of_cons; [done | done |].
  by eapply IH.
Qed.

Lemma generateCards_fresh rnd pairs c :
  c ∈ generateCards rnd pairs →
  Card.isFlipped c = false ∧ Card.isMatched c = false ∧ Card.id c ≠ "".
Proof.
  intros Hc. destruct (generateCards_board rnd pairs) as (_ & Hface & _).
  assert (face c ∈ face <$> mintFrom 0 pairs) as Hfc.
  { rewrite <- Hface. by apply list_elem_of_fmap_2. }
  apply list_elem_of_fmap in Hfc as (c0 & Hc0 & Hin0).
  apply mintFrom_fresh in Hin0. unfold face in Hc0.
  injection Hc0 as -> _ _ _ -> -> _. done.
Qed.

Lemma seedPlayers_keys players k :
  k ∈ JsObject.keys (seedPlayers players)
  ↔ ∃ p, p ∈ players ∧ PlayerEntry.id p = k.
Proof.
  unfold seedPlayers.
  assert (∀ acc : JsObject.t PlayerGameState.t,
    k ∈ JsObject.keys
          (fold_left
             (λ acc player,
                JsObject.set (PlayerEntry.id player)
                  (PlayerGameState.mk (PlayerEntry.id player)
                     (PlayerEntry.nickname player) 0 0 None) acc)
             players acc)
    ↔ k ∈ JsObject.keys acc ∨ ∃ p, p ∈ players ∧ PlayerEntry.id p = k) as Hgen.
  { induction players as [|player rest IH]; intros acc; simpl.
    - split; [by left|]. intros [|(p & []%elem_of_nil & _)]. done.
    - rewrite IH, keys_set_elem. split.
      + intros [[->|]|(p & Hp & Hk)]; [right | by left | right].
        * exists player. split; [left | done].
        * exists p. split; [by right | done].
      + intros [|(p & [->|Hp]%elem_of_cons & Hk)]; [by left; right | |].
        * by left; left.
        * right. by exists p. }
  rewrite Hgen. split; [|by right]. by intros [[]%elem_of_nil|].
Qed.

Lemma seedPlayers_NoDup players : NoDup (JsObject.keys (seedPlayers players)).
Proof.
  apply seedPlayers_ind; [constructor|].
  intros acc player Hacc. by apply keys_set_NoDup.
Qed.

Lemma generateBugSolutionPairs_nonempty reply rnd count :
  (0 < count)%Z → generateBugSolutionPairs reply rnd count ≠ [].
Proof.
  intros Hc Hnil. apply (f_equal length) in Hnil. simpl in Hnil.
  unfold generateBugSolutionPairs in Hnil.
  assert (length (getFallbackPairs rnd count) ≠ 0) as Hfb.
  { rewrite length_getFallbackPairs.
    destruct (count <? 0)%Z eqn:E; [apply Z.ltb_lt in E|]; lia. }
  destruct reply as [| |aiPairs]; try done.
  destruct (Z.of_nat (length aiPairs) =? count)%Z eqn:E; [|done].
  apply Z.eqb_eq in E. lia.
Qed.

(** The session that [createGame] returns for at least one pair. *)
Lemma createGame_soundGame
    (games : gmap string GameState.t) reply rndPairs rndCards drawnId
    startedNow turnNow roomCode players config g :
  (createGame games reply rndPairs rndCards drawnId startedNow turnNow
     roomCode players config).2 = Returned g →
  (0 < GameConfig.numberOfPairs config)%Z →
  soundGame g.
Proof.
  unfold createGame. destruct (players !! 0) as [first|] eqn:Hfirst; simpl; [|done].
  intros [= <-] Hcount. split.
  - unfold finishedIffAllMatched. simpl. split; [done|]. intros Hall. exfalso.
    set (pairs := generateBugSolutionPairs _ _ _) in *.
    destruct (generateCards rndCards pairs) as [|c r] eqn:Hboard.
    + destruct (generateCards_board rndCards pairs) as (Hlen & _).
      rewrite Hboard in Hlen. simpl in Hlen.
      pose proof (generateBugSolutionPairs_nonempty reply rndPairs _ Hcount).
      fold pairs in H. destruct pairs; [done | simpl in Hlen; lia].
    + assert (c ∈ generateCards rndCards pairs) as Hc by (rewrite Hboard; left).
      apply generateCards_fresh in Hc as (_ & Hm & _).
      simpl in Hall. rewrite Hm in Hall. done.
  - intros p. simpl. intros [= <-]. apply seedPlayers_keys.
    exists first. split; [|done]. by eapply list_elem_of_lookup_2.
Qed.

Lemma seedPlayers_wellKeyed players : wellKeyed (seedPlayers players).
Proof.
  split; [apply seedPlayers_NoDup|].
  apply (seedPlayers_ind (λ o, ∀ k p, (k, p) ∈ o → PlayerGameState.id p = k)).
  - by intros k p ?%elem_of_nil.
  - intros acc player Hacc k p [[-> ->]|Hin]%elem_of_set; [done | by apply Hacc].
Qed.

(** The first turn switch of a session puts the flag right. *)
Lemma first_switch_flags_one_player
    (games : gmap string GameState.t) reply rndPairs rndCards drawnId
    startedNow turnNow roomCode players config g now :
  (createGame games reply rndPairs rndCards drawnId startedNow turnNow
     roomCode players config).2 = Returned g →
  length (holdersOfTurn (switchTurns now g)) = 1.
Proof.
  unfold createGame. destruct (players !! 0) as [first|] eqn:Hfirst; simpl; [|done].
  intros [= <-]. apply switchTurns_one_holder; simpl.
  - apply seedPlayers_wellKeyed.
  - intros Hnil.
    assert (PlayerEntry.id first ∈ JsObject.keys (seedPlayers players)) as Hin.
    { apply seedPlayers_keys. exists first. split; [|done].
      by eapply list_elem_of_lookup_2. }
    rewrite Hnil in Hin. by apply elem_of_nil in Hin.
Qed.

(** ** A finished session *)

(** With no pair asked for, the board is empty: every card is matched,
    vacuously, and the session is [playing]. *)
Lemma empty_board_is_playing :
  ∃ g, (createGame ∅ AiFailure keepOrder keepOrder "z0" 1000 1000 "ROOM01"
          [alice; bob] (sampleConfig 0)).2 = Returned g
       ∧ allMatched (GameState.cards g) = true
       ∧ GameState.status g = playing.
Proof. eexists. split; [reflexivity|]. split; by vm_compute. Qed.

(** The terminal reading of C2 fails: on the one-pair session that alice
    finishes with two flips, [handleTimerExpiration] for alice still
    returns [timeUp] and rewrites the session (the turn passes to bob and
    the turn number grows). *)
Lemma finished_session_mutated_by_timer :
  onePairCreated.2 = Returned onePairGame
  ∧ reachable (mkSession onePairGame []) onePairFinished
  ∧ GameState.status (game onePairFinished) = finished
  ∧ allMatched (GameState.cards (game onePairFinished)) = true
  ∧ let games : gmap string GameState.t := {[ "q7w1z" := game onePairFinished ]} in
    let after := handleTimerExpiration games 9000 "q7w1z" "sockA" in
    after.2 = Some timeUp
    ∧ after.1 ≠ games
    ∧ (GameState.currentTurn <$> after.1 !! "q7w1z") = Some (Some "sockB")
    ∧ (GameState.turnNumber <$> after.1 !! "q7w1z") = Some 2
    ∧ GameState.turnNumber (game onePairFinished) = 1.
Proof.
  split; [by vm_compute|]. split; [do 2 apply reach_step; apply reach_init|].
  split; [by vm_compute|]. split; [by vm_compute|].
  split; [by vm_compute|]. split.
  - intros Heq.
    assert ((GameState.turnNumber <$>
               (handleTimerExpiration {[ "q7w1z" := game onePairFinished ]}
                  9000 "q7w1z" "sockA").1 !! "q7w1z")
            = (GameState.turnNumber <$>
               ({[ "q7w1z" := game onePairFinished ]} : gmap string GameState.t)
                 !! "q7w1z")) as Hn by (by rewrite Heq).
    vm_compute in Hn. discriminate.
  - split; [by vm_compute|]. split; by vm_compute.
Qed.

(** C2, as the code has it. In a session that [createGame] made for at
    least one pair, in every state that flips, timer expirations and
    deferred no-match resolutions can lead to: the status is [finished]
    exactly when every card is matched; and once it is, every
    [handleCardFlip] is rejected with the registry untouched,
    [handleTimerExpiration] for a player who does not hold the turn is
    without effect, and whatever happens next keeps the status [finished],
    the board fully matched and every player's score and match count. *)
Theorem finished_iff_all_matched_and_kept
    (games0 : gmap string GameState.t) reply rndPairs rndCards drawnId
    startedNow turnNow roomCode players config g0 s :
  (createGame games0 reply rndPairs rndCards drawnId startedNow turnNow
     roomCode players config).2 = Returned g0 →
  (0 < GameConfig.numberOfPairs config)%Z →
  reachable (mkSession g0 []) s →
  (GameState.status (game s) = finished
   ↔ allMatched (GameState.cards (game s)) = true)
  ∧ (GameState.status (game s) = finished →
     (∀ (games : gmap string GameState.t) now gameId playerId cardId,
        games !! gameId = Some (game s) →
        handleCardFlip games now gameId playerId cardId
        = (games, Returned (Some ActError), None))
     ∧ (∀ (games : gmap string GameState.t) now gameId playerId,
          games !! gameId = Some (game s) →
          GameState.currentTurn (game s) ≠ Some playerId →
          handleTimerExpiration games now gameId playerId = (games, None))
     ∧ ∀ e,
         GameState.status (game (step e s)) = finished
         ∧ allMatched (GameState.cards (game (step e s))) = true
         ∧ tally (game (step e s)) = tally (game s)).
Proof.
  intros Hcreate Hcount Hreach.
  pose proof (createGame_soundGame _ _ _ _ _ _ _ _ _ _ _ Hcreate Hcount) as H0.
  pose proof (reachable_soundGame (mkSession g0 []) s H0 Hreach) as Hs.
  split; [apply Hs|]. intros Hfin. split; [|split].
  - intros games now gameId playerId cardId Hgame.
    unfold handleCardFlip. rewrite Hgame, flipCard_finished by by apply Hs.
    by rewrite insert_id.
  - intros games now gameId playerId Hgame Hturn.
    unfold handleTimerExpiration. rewrite Hgame.
    apply turnIs_false in Hturn. by rewrite Hturn.
  - intros e. by apply step_finished.
Qed.

Lemma finished_iff_all_matched_and_kept_witness :
  onePairCreated.2 = Returned onePairGame
  ∧ (0 < GameConfig.numberOfPairs (sampleConfig 1))%Z
  ∧ reachable (mkSession onePairGame []) onePairFinished
  ∧ (GameState.status (game onePairFinished) = finished
     ↔ allMatched (GameState.cards (game onePairFinished)) = true).
Proof.
  assert (onePairCreated.2 = Returned onePairGame) as H1 by (vm_compute; reflexivity).
  assert (0 < GameConfig.numberOfPairs (sampleConfig 1))%Z as H2 by (simpl; lia).
  assert (reachable (mkSession onePairGame []) onePairFinished) as H3
    by (do 2 apply reach_step; apply reach_init).
  exact (conj H1 (conj H2 (conj H3
    (proj1 (finished_iff_all_matched_and_kept _ _ _ _ _ _ _ _ _ _ _ _
              H1 H2 H3))))).
Defined.

(** ** A timer that fires late *)



(** No event adds or removes a player, and the turn stays with one of
    them. *)
Lemma step_players e s :
  holderPresent (game s) →
  holderPresent (game (step e s))
  ∧ JsObject.keys (GameState.players (game (step e s)))
    = JsObject.keys (GameState.players (game s)).
Proof.
  intros Hh. destruct e as [now p c | now p | now]; unfold step.
  - destruct (flipCard_cases now p c (game s))
      as [-> | [(ci & c0 & _ & _ & _ & _ & ->)
         | [(ci & c0 & first & _ & _ & _ & _ & _ & ->)
         | (ci & c0 & fi & fc & g' & out & _ & _ & _ & _ & _ & _ & ->
            & _ & Hturn' & Hkeys & _)]]]; cbn [game]; try done.
    split; [|done]. intros q. rewrite Hturn', Hkeys. apply Hh.
  - destruct (turnIs _ _); [|done]. cbn [game].
    by destruct (expireTurn_fields now (game s)) as (_ & _ & _ & -> & ?).
  - destruct (pending s) as [|d rest]; [done|]. cbn [game].
    by destruct (resolveNoMatch_fields now d (game s)) as (_ & _ & _ & -> & ?).
Qed.

Lemma reachable_players init s :
  holderPresent (game init) → reachable init s →
  holderPresent (game s)
  ∧ JsObject.keys (GameState.players (game s))
    = JsObject.keys (GameState.players (game init)).
Proof.
  intros Hinit. induction 1 as [|e s _ [IHh IHk]]; [done|].
  destruct (step_players e s IHh) as [Hh Hk]. split; [done|]. by rewrite Hk.
Qed.

Lemma createGame_players
    (games : gmap string GameState.t) reply rndPairs rndCards drawnId
    startedNow turnNow roomCode players config g :
  (createGame games reply rndPairs rndCards drawnId startedNow turnNow
     roomCode players config).2 = Returned g →
  holderPresent g ∧ NoDup (JsObject.keys (GameState.players g)).
Proof.
  unfold createGame. destruct (players !! 0) as [first|] eqn:Hfirst; simpl; [|done].
  intros [= <-]. split; [|apply seedPlayers_NoDup].
  intros p. simpl. intros [= <-]. apply seedPlayers_keys.
  exists first. split; [|done]. by eapply list_elem_of_lookup_2.
Qed.



(** ** The pending-flip slots against the board *)

Lemma unresolvedIn_alter f i cs c :
  cs !! i = Some c →
  unresolvedIn (alter f i cs) + (if unresolvedCard c then 1 else 0)
  = unresolvedIn cs + (if unresolvedCard (f c) then 1 else 0).
Proof.
  unfold unresolvedIn. revert i.
  induction cs as [|c0 r IH]; intros i; [done|].
  destruct i as [|i]; csimpl.
  - intros [= ->]. rewrite !filter_cons.
    destruct (unresolvedCard c), (unresolvedCard (f c)); simpl; lia.
  - intros Hc. rewrite !filter_cons. specialize (IH _ Hc).
    destruct (decide (unresolvedCard c0 = true)); simpl; lia.
Qed.

Lemma unresolvedIn_none cs :
  Forall (λ c, Card.isFlipped c = false) cs → unresolvedIn cs = 0.
Proof.
  unfold unresolvedIn. induction 1 as [|c r Hc Hr IH]; [done|].
  rewrite filter_cons, decide_False; [done|].
  unfold unresolvedCard. by rewrite Hc.
Qed.

Lemma ids_alter_flip b i cs :
  Forall (λ c, Card.id c ≠ "") cs →
  Forall (λ c, Card.id c ≠ "") (alter (Card.setFlipped b) i cs).
Proof. intros H. apply Forall_alter; [done|]. by intros c _. Qed.

Lemma ids_alter_match b i cs :
  Forall (λ c, Card.id c ≠ "") cs →
  Forall (λ c, Card.id c ≠ "") (alter (Card.setMatched b) i cs).
Proof. intros H. apply Forall_alter; [done|]. by intros c _. Qed.

Lemma truthy_JsStr s : s ≠ "" → truthy (JsStr s) = true.
Proof. intros H. simpl. apply eqb_string_false in H. by rewrite H. Qed.

Lemma holderPresent_get g playerId :
  holderPresent g → GameState.currentTurn g = Some playerId →
  JsObject.get playerId (GameState.players g) ≠ None.
Proof. intros Hh Ht Hnone. apply get_None_keys in Hnone. by apply Hnone, Hh. Qed.

Lemma findCardRef_Some v cs i c :
  findCardRef v cs = Some (i, c) → cs !! i = Some c.
Proof. destruct v; try done. intros H. by apply findCard_Some in H as [? _]. Qed.

Lemma unresolvedCard_flipped c :
  Card.isMatched c = false → unresolvedCard (Card.setFlipped true c) = true.
Proof. unfold unresolvedCard. simpl. by intros ->. Qed.

Lemma unresolvedCard_isFlipped c : unresolvedCard c = true → Card.isFlipped c = true.
Proof. unfold unresolvedCard. by intros [? _]%andb_true_iff. Qed.

Lemma flip_slotsInv now playerId cardId s :
  slotsInv s → pending s = [] →
  slotsInv (step (EvFlip now playerId cardId) s).
Proof.
  intros (Hids & Hh & Hslots) Hp. rewrite Hp in Hslots. unfold step.
  destruct (flipCard_cases now playerId cardId (game s))
    as [Hr | [(ci & c & Hfind & Hun & Hm & Htr & Hr)
       | [(ci & c & first & Hfind & Hf & Hm & Htr & Hfirst & Hr)
       | (ci & c & fi & fc & g' & out & Hfind & Hf & Hm & Hturn & Htr & Hfirst
          & Hr & Hcards & Hturn' & Hkeys & Hout)]]];
    rewrite Hr, Hp; simpl app; unfold slotsInv; cbn [game pending].
  - done.
  - pose proof Hfind as [Hci Hid]%findCard_Some.
    pose proof (Forall_lookup_1 _ _ _ _ Hids Hci) as Hne.
    simpl in Hne. rewrite Hid in Hne.
    unfold quietSlots in Hslots. rewrite Htr in Hslots.
    split; [by apply ids_alter_flip|]. split; [done|].
    unfold quietSlots. cbn [GameState.firstFlippedCard GameState.setFirstFlippedCard].
    rewrite truthy_JsStr by done.
    exists ci, (Card.setFlipped true c). split; [|split].
    + simpl. rewrite findCard_alter, Hfind by done. simpl.
      by rewrite decide_True.
    + by apply unresolvedCard_flipped.
    + pose proof (unresolvedIn_alter (Card.setFlipped true) ci _ c Hci) as Hcount.
      rewrite Hun, unresolvedCard_flipped in Hcount by done.
      unfold unresolved in *. simpl. lia.
  - pose proof Hfind as [Hci Hid]%findCard_Some.
    pose proof (Forall_lookup_1 _ _ _ _ Hids Hci) as Hne.
    simpl in Hne. rewrite Hid in Hne.
    unfold quietSlots in Hslots. rewrite Htr in Hslots.
    destruct Hslots as (fi & fc & Hfc & Hunfc & Hone).
    rewrite Hfc in Hfirst. subst first.
    pose proof (findCardRef_Some _ _ _ _ Hfc) as Hfi.
    assert (fi ≠ ci) as Hdiff.
    { intros ->. apply unresolvedCard_isFlipped in Hunfc. congruence. }
    split; [by apply ids_alter_flip|]. split; [done|].
    split; [done|]. split; [by apply truthy_JsStr|].
    exists fi, fc, (Card.setFlipped true c). simpl.
    split; [done|]. split; [done|].
    split; [by rewrite list_lookup_alter_ne|].
    split; [by rewrite list_lookup_alter_eq, Hci|].
    split; [done|]. split; [by apply unresolvedCard_flipped|].
    pose proof (unresolvedIn_alter (Card.setFlipped true) ci _ c Hci) as Hcount.
    rewrite unresolvedCard_flipped in Hcount by done.
    assert (unresolvedCard c = false) as Hunc
      by (unfold unresolvedCard; by rewrite Hf).
    rewrite Hunc in Hcount. unfold unresolved in *. simpl. lia.
  - pose proof Hfind as [Hci Hid]%findCard_Some.
    unfold quietSlots in Hslots. rewrite Htr in Hslots.
    destruct Hslots as (fi' & fc' & Hfc & Hunfc & Hone).
    rewrite Hfc in Hfirst. injection Hfirst as -> ->.
    pose proof (findCardRef_Some _ _ _ _ Hfc) as Hfi.
    assert (fi ≠ ci) as Hdiff.
    { intros ->. apply unresolvedCard_isFlipped in Hunfc. congruence. }
    destruct Hout as [[_ Hnone] | (-> & Hfirst' & _ & _)];
      [by apply holderPresent_get in Hturn|].
    split; [rewrite Hcards; by apply ids_alter_match, ids_alter_match,
                                    ids_alter_flip|].
    split; [intros p'; rewrite Hturn', Hkeys; apply Hh|].
    unfold quietSlots. rewrite Hfirst'. simpl.
    unfold unresolved. rewrite Hcards.
    set (cs1 := alter (Card.setFlipped true) ci (GameState.cards (game s))).
    set (cs2 := alter (Card.setMatched true) ci cs1).
    pose proof (unresolvedIn_alter (Card.setFlipped true) ci _ c Hci) as H1.
    assert (cs1 !! ci = Some (Card.setFlipped true c)) as Hci1
      by (unfold cs1; by rewrite list_lookup_alter_eq, Hci).
    pose proof (unresolvedIn_alter (Card.setMatched true) ci _ _ Hci1) as H2.
    assert (cs2 !! fi = Some fc) as Hfi2
      by (unfold cs2, cs1; by rewrite !list_lookup_alter_ne).
    pose proof (unresolvedIn_alter (Card.setMatched true) fi _ _ Hfi2) as H3.
    fold cs1 in H1. fold cs2 in H2.
    rewrite unresolvedCard_flipped in H1, H2 by done.
    rewrite Hunfc in H3.
    assert (unresolvedCard c = false) as Hunc
      by (unfold unresolvedCard; by rewrite Hf).
    rewrite Hunc in H1.
    assert (∀ x, unresolvedCard (Card.setMatched true x) = false) as Hmd
      by (intros x; unfold unresolvedCard; simpl; apply andb_false_r).
    rewrite Hmd in H2, H3. unfold unresolved in Hone. lia.
Qed.

Lemma unresolvedCard_unflipped c : unresolvedCard (Card.setFlipped false c) = false.
Proof. done. Qed.

Lemma timer_slotsInv now playerId s :
  slotsInv s → pending s = [] →
  slotsInv (step (EvTimer now playerId) s).
Proof.
  intros (Hids & Hh & Hslots) Hp. unfold step.
  destruct (turnIs _ _); [|done].
  rewrite Hp in Hslots. unfold slotsInv. cbn [game pending]. rewrite Hp.
  destruct (expireTurn_fields now (game s)) as (_ & _ & _ & _ & Hh').
  unfold quietSlots in *. unfold expireTurn in *.
  rewrite switchTurns_cards, switchTurns_first. unfold unresolved.
  rewrite switchTurns_cards.
  destruct (truthy (GameState.firstFlippedCard (game s))) eqn:Htr.
  - destruct Hslots as (fi & fc & Hfc & Hunfc & Hone).
    rewrite Hfc in *. simpl.
    split; [by apply ids_alter_flip|]. split; [done|].
    pose proof (findCardRef_Some _ _ _ _ Hfc) as Hfi.
    pose proof (unresolvedIn_alter (Card.setFlipped false) fi _ _ Hfi) as H1.
    rewrite Hunfc, unresolvedCard_unflipped in H1.
    unfold unresolved in Hone. lia.
  - rewrite Htr. done.
Qed.

Lemma resolve_slotsInv now s :
  slotsInv s → slotsInv (step (EvResolve now) s).
Proof.
  intros (Hids & Hh & Hslots). unfold step.
  destruct (pending s) as [|d [|d' rest]] eqn:Hp; [| |done].
  { unfold slotsInv. by rewrite Hp. }
  destruct Hslots as (_ & _ & fi & fc & c & Hd & Hdiff & Hfi & Hci
                      & Hunfc & Hunc & Htwo).
  destruct (resolveNoMatch_fields now d (game s)) as (_ & _ & _ & _ & Hh').
  unfold slotsInv. cbn [game pending].
  unfold quietSlots, unresolved, resolveNoMatch in *. rewrite Hd in *.
  rewrite switchTurns_cards, switchTurns_first. simpl.
  split; [by apply ids_alter_flip, ids_alter_flip|]. split; [done|].
  pose proof (unresolvedIn_alter (Card.setFlipped false) fi _ _ Hfi) as H1.
  assert (alter (Card.setFlipped false) fi (GameState.cards (game s)) !! card d
          = Some c) as Hci1 by (by rewrite list_lookup_alter_ne).
  pose proof (unresolvedIn_alter (Card.setFlipped false) (card d) _ _ Hci1) as H2.
  rewrite Hunfc, unresolvedCard_unflipped in H1.
  rewrite Hunc, unresolvedCard_unflipped in H2. lia.
Qed.

Lemma serialized_slotsInv init s :
  slotsInv init → serialized init s → slotsInv s.
Proof.
  intros Hinit. induction 1 as [|now p c s _ IH Hp|now p s _ IH Hp|now s _ IH].
  - done.
  - by apply flip_slotsInv.
  - by apply timer_slotsInv.
  - by apply resolve_slotsInv.
Qed.

Lemma createGame_slotsInv
    (games : gmap string GameState.t) reply rndPairs rndCards drawnId
    startedNow turnNow roomCode players config g :
  (createGame games reply rndPairs rndCards drawnId startedNow turnNow
     roomCode players config).2 = Returned g →
  slotsInv (mkSession g []).
Proof.
  unfold createGame. destruct (players !! 0) as [first|] eqn:Hfirst; simpl; [|done].
  intros [= <-]. unfold slotsInv. cbn [game pending].
  set (pairs := generateBugSolutionPairs _ _ _).
  split; [|split].
  - apply Forall_forall. intros c Hc. simpl in Hc.
    by apply generateCards_fresh in Hc as (_ & _ & ?).
  - intros p. simpl. intros [= <-]. apply seedPlayers_keys.
    exists first. split; [|done]. by eapply list_elem_of_lookup_2.
  - unfold quietSlots, unresolved. simpl. apply unresolvedIn_none.
    apply Forall_forall. intros c Hc.
    by apply generateCards_fresh in Hc as (? & _).
Qed.

(** C5 fails as stated: after alice's second flip, which does not match,
    the first slot is still set although two cards are face up and
    unmatched; and her third flip, made before the deferred resolution has
    run, is taken for a second card, so that three cards are face up and
    unmatched and two resolutions are waiting. *)
Lemma three_cards_flipped_unresolved :
  sampleCreated.2 = Returned sampleGame
  ∧ reachable (mkSession sampleGame []) threeFlips
  ∧ unresolved (game threeFlips) = 3
  ∧ GameState.firstFlippedCard (game threeFlips) = JsStr "card_0"
  ∧ length (pending threeFlips) = 2
  ∧ let twoFlips :=
      run [EvFlip 2000 "sockA" "card_0"; EvFlip 2100 "sockA" "card_2"]
          (mkSession sampleGame []) in
    truthy (GameState.firstFlippedCard (game twoFlips)) = true
    ∧ unresolved (game twoFlips) = 2.
Proof.
  split; [by vm_compute|].
  split; [do 3 apply reach_step; apply reach_init|].
  repeat split; by vm_compute.
Qed.

(** C5, as the code has it. In a session made by [createGame], as long as
    flips and timer expirations are let in only while no deferred
    resolution is waiting: at most two cards are face up and unmatched;
    while nothing is deferred, the first slot is set exactly when one card
    is face up and unmatched; and while a no-match pair waits for its
    resolution, which is then the only one waiting, both slots are set and
    exactly two cards are face up and unmatched. *)
Theorem slots_agree_with_board_when_serialized
    (games : gmap string GameState.t) reply rndPairs rndCards drawnId
    startedNow turnNow roomCode players config g0 s :
  (createGame games reply rndPairs rndCards drawnId startedNow turnNow
     roomCode players config).2 = Returned g0 →
  serialized (mkSession g0 []) s →
  unresolved (game s) ≤ 2
  ∧ (pending s = [] →
     (truthy (GameState.firstFlippedCard (game s)) = true
      ↔ unresolved (game s) = 1))
  ∧ (pending s ≠ [] →
     length (pending s) = 1
     ∧ truthy (GameState.firstFlippedCard (game s)) = true
     ∧ truthy (GameState.secondFlippedCard (game s)) = true
     ∧ unresolved (game s) = 2).
Proof.
  intros Hcreate Hser.
  pose proof (createGame_slotsInv _ _ _ _ _ _ _ _ _ _ _ Hcreate) as Hinit.
  destruct (serialized_slotsInv _ _ Hinit Hser) as (_ & _ & Hslots).
  destruct (pending s) as [|d [|d' rest]]; [| |done].
  - unfold quietSlots in Hslots.
    destruct (truthy (GameState.firstFlippedCard (game s))).
    + destruct Hslots as (fi & fc & _ & _ & ->).
      split; [lia|]. split; [done | by intros []].
    + rewrite Hslots. split; [lia|]. split; [|by intros []].
      intros _. split; [done | lia].
  - destruct Hslots as (H1 & H2 & fi & fc & c & _ & _ & _ & _ & _ & _ & ->).
    split; [lia|]. split; [done|]. done.
Qed.

Lemma slots_agree_with_board_witness :
  let s := run [EvFlip 2000 "sockA" "card_0"; EvFlip 2100 "sockA" "card_2";
                EvResolve 3100]
               (mkSession sampleGame []) in
  sampleCreated.2 = Returned sampleGame
  ∧ serialized (mkSession sampleGame []) s
  ∧ unresolved (game s) ≤ 2.
Proof.
  intros s.
  assert (sampleCreated.2 = Returned sampleGame) as H1 by (vm_compute; reflexivity).
  assert (serialized (mkSession sampleGame []) s) as H2.
  { apply ser_resolve. apply ser_flip; [|reflexivity].
    apply ser_flip; [|reflexivity]. apply ser_init. }
  exact (conj H1 (conj H2
    (proj1 (slots_agree_with_board_when_serialized _ _ _ _ _ _ _ _ _ _ _ _
              H1 H2)))).
Defined.

(** * More of the services, and the gateways *)

(** ** More facts about ordered records *)

Section DeleteFacts.
Context {V : Type}.
Implicit Types (o : JsObject.t V) (k : string) (v : V).

Lemma delete_sublist k o : JsObject.delete k o `sublist_of` o.
Proof.
  induction o as [|[k' v'] r IH]; simpl; [done|].
  destruct (String.eqb k' k); [by apply sublist_cons | by apply sublist_skip].
Qed.

Lemma get_delete_ne k k' o :
  k ≠ k' → JsObject.get k' (JsObject.delete k o) = JsObject.get k' o.
Proof.
  intros Hne. induction o as [|[k0 v0] r IH]; simpl; [done|].
  destruct (String.eqb k0 k) eqn:E; simpl.
  - apply eqb_string_true in E as ->.
    by apply eqb_string_false in Hne as ->.
  - by rewrite IH.
Qed.

Lemma keys_delete_absent k o : k ∉ JsObject.keys o → JsObject.delete k o = o.
Proof.
  unfold JsObject.keys. induction o as [|[k0 v0] r IH]; csimpl; [done|].
  intros [Hne Hr]%not_elem_of_cons.
  assert (String.eqb k0 k = false) as -> by (by apply eqb_string_false).
  by rewrite IH.
Qed.

Lemma keys_delete_NoDup k o :
  NoDup (JsObject.keys o) → NoDup (JsObject.keys (JsObject.delete k o)).
Proof.
  intros Hnd. eapply sublist_NoDup; [done|].
  unfold JsObject.keys. apply fmap_sublist, delete_sublist.
Qed.

Lemma keys_delete_gone k o :
  NoDup (JsObject.keys o) → k ∉ JsObject.keys (JsObject.delete k o).
Proof.
  unfold JsObject.keys. induction o as [|[k0 v0] r IH]; csimpl;
    [intros _; apply not_elem_of_nil|].
  intros [Hnot Hnd]%NoDup_cons.
  destruct (String.eqb k0 k) eqn:E.
  - by apply eqb_string_true in E as ->.
  - apply eqb_string_false in E. csimpl. apply not_elem_of_cons. auto.
Qed.

Lemma keys_delete_other k k' o :
  k' ≠ k → k' ∈ JsObject.keys (JsObject.delete k o) ↔ k' ∈ JsObject.keys o.
Proof.
  intros Hne. rewrite <- !get_is_Some_keys. by rewrite get_delete_ne.
Qed.

(** Deleting leaves nothing exactly when the key was the only one. *)
Lemma delete_empty k o :
  NoDup (JsObject.keys o) → o ≠ [] →
  JsObject.delete k o = [] ↔ JsObject.keys o = [k].
Proof.
  unfold JsObject.keys. destruct o as [|[k0 v0] r]; [done|]. intros _ _. simpl.
  destruct (String.eqb k0 k) eqn:E.
  - apply eqb_string_true in E as ->. csimpl. split.
    + by intros ->.
    + intros [= Hr]. by apply fmap_nil_inv in Hr.
  - apply eqb_string_false in E. csimpl. split; [done|]. by intros [= ? _].
Qed.

(** A replaced value is read back through any view that does not tell it
    from the old one. *)
Lemma values_replace_view {B} (view : V → B) o k v old :
  JsObject.get k o = Some old → view v = view old →
  view <$> JsObject.values (JsObject.replace k v o)
  = view <$> JsObject.values o.
Proof.
  intros Hget Hview. unfold JsObject.values.
  induction o as [|[k0 v0] r IH]; simpl in *; [done|].
  destruct (String.eqb k0 k); csimpl.
  - injection Hget as ->. by rewrite Hview.
  - by rewrite IH.
Qed.

Lemma values_insertIndex o n k v :
  JsObject.values (JsObject.insertIndex n k v o) ≡ₚ v :: JsObject.values o.
Proof.
  unfold JsObject.values. induction o as [|[k' v'] r IH]; simpl; [done|].
  destruct (JsObject.arrayIndex k') as [m|]; [|done].
  destruct (m <? n)%N; [|done]. csimpl. rewrite IH. apply Permutation_swap.
Qed.

(** The values after [o[k] = v] on a new key, up to order. *)
Lemma values_set_new o k v :
  k ∉ JsObject.keys o →
  JsObject.values (JsObject.set k v o) ≡ₚ v :: JsObject.values o.
Proof.
  intros Hk. apply get_None_keys in Hk. unfold JsObject.set. rewrite Hk.
  destruct (JsObject.arrayIndex k).
  - apply values_insertIndex.
  - unfold JsObject.values. rewrite fmap_app. simpl.
    symmetry. apply Permutation_cons_append.
Qed.

(** The values after an overwrite are the old ones with the value under
    the key taken out and the new one put in. *)
Lemma values_replace_swap o k v old :
  JsObject.get k o = Some old →
  ∃ rest, JsObject.values o ≡ₚ old :: rest
          ∧ JsObject.values (JsObject.replace k v o) ≡ₚ v :: rest.
Proof.
  unfold JsObject.values. induction o as [|[k0 v0] r IH]; simpl; [done|].
  destruct (String.eqb k0 k); csimpl.
  - intros [= ->]. by exists r.*2.
  - intros Hget. destruct (IH Hget) as (rest & H1 & H2).
    exists (v0 :: rest). rewrite H1, H2. split; apply Permutation_swap.
Qed.

End DeleteFacts.

(** ** The room registry: creating, joining, leaving, getting ready *)

Lemma set_on_empty {V} k (v : V) : JsObject.set k v [] = [(k, v)].
Proof. unfold JsObject.set. simpl. by destruct (JsObject.arrayIndex k). Qed.

Lemma joinRoom_success_inv
    (rooms rooms' : gmap string GameRoom.t) now roomCode playerId nickname room' :
  joinRoom rooms now roomCode playerId nickname = (rooms', Some room') →
  ∃ room,
    rooms !! roomCode = Some room
    ∧ length (JsObject.keys (GameRoom.players room)) < GameRoom.maxPlayers room
    ∧ (∀ p, p ∈ JsObject.values (GameRoom.players room) →
            Player.nickname p ≠ nickname)
    ∧ room' = GameRoom.setPlayers
                (JsObject.set playerId
                   (Player.mk playerId nickname false false now)
                   (GameRoom.players room)) room
    ∧ rooms' = <[roomCode := room']> rooms.
Proof.
  unfold joinRoom. destruct (rooms !! roomCode) as [room|]; [|done].
  destruct (_ <=? _) eqn:Hfull; [done|]. apply Nat.leb_gt in Hfull.
  destruct (existsb _ _) eqn:Hnick; [done|].
  intros [= <- <-]. exists room. repeat split; try done.
  intros p Hp Hn.
  assert (existsb (λ player, String.eqb (Player.nickname player) nickname)
            (JsObject.values (GameRoom.players room)) = true) as Habs
    by (apply existsb_nickname; eauto).
  congruence.
Qed.

Lemma joinRoom_roomOk
    (rooms rooms' : gmap string GameRoom.t) now roomCode playerId nickname room room' :
  rooms !! roomCode = Some room → roomOk room →
  joinRoom rooms now roomCode playerId nickname = (rooms', Some room') →
  roomOk room'
  ∧ GameRoom.roomCode room' = GameRoom.roomCode room
  ∧ length (JsObject.keys (GameRoom.players room'))
    = if decide (playerId ∈ JsObject.keys (GameRoom.players room))
      then length (JsObject.keys (GameRoom.players room))
      else S (length (JsObject.keys (GameRoom.players room))).
Proof.
  intros Hroom (Hnd & Hkeyed & Hne & Hcap & Hnick) Hjoin.
  apply joinRoom_success_inv in Hjoin
    as (room0 & Hroom0 & Hlt & Hfresh & -> & _).
  rewrite Hroom in Hroom0. injection Hroom0 as <-.
  set (player := Player.mk playerId nickname false false now).
  assert (length (JsObject.keys
                    (JsObject.set playerId player (GameRoom.players room)))
          = if decide (playerId ∈ JsObject.keys (GameRoom.players room))
            then length (JsObject.keys (GameRoom.players room))
            else S (length (JsObject.keys (GameRoom.players room)))) as Hlen.
  { rewrite keys_set. by case_decide. }
  split; [|split; [done | exact Hlen]].
  unfold roomOk. simpl. split; [by apply keys_set_NoDup|].
  split; [|split; [|split]].
  - intros k p [[-> ->]|Hin]%elem_of_set; [done | by apply Hkeyed].
  - intros Hnil.
    pose proof (get_set (GameRoom.players room) playerId playerId player) as Hg.
    rewrite Hnil, decide_True in Hg by done. done.
  - rewrite Hlen. case_decide; lia.
  - destruct (JsObject.get playerId (GameRoom.players room)) as [old|] eqn:Hget.
    + unfold JsObject.set. rewrite Hget.
      destruct (values_replace_swap _ _ player _ Hget) as (rest & H1 & H2).
      rewrite H2. rewrite H1 in Hnick. csimpl in *.
      apply NoDup_cons in Hnick as [_ Hrest]. apply NoDup_cons. split; [|done].
      intros (p & Hp & Hin)%list_elem_of_fmap.
      apply (Hfresh p); [|done]. rewrite H1. by right.
    + apply get_None_keys in Hget. rewrite values_set_new by done. csimpl.
      apply NoDup_cons. split; [|done].
      intros (p & Hp & Hin)%list_elem_of_fmap. by apply (Hfresh p).
Qed.

(** What [leaveRoom] does to a room in order: the room goes with its last
    member; otherwise it stays, and when the host has left the first
    member that remains is flagged and named host. *)
Lemma leaveRoom_roomOk
    (rooms : gmap string GameRoom.t) roomCode playerId room :
  rooms !! roomCode = Some room → roomOk room →
  let remaining := JsObject.delete playerId (GameRoom.players room) in
  (remaining = [] ∧
   leaveRoom rooms roomCode playerId = (delete roomCode rooms, Returned None))
  ∨ (remaining ≠ [] ∧
     ∃ room',
       leaveRoom rooms roomCode playerId
       = (<[roomCode := room']> rooms, Returned (Some room'))
       ∧ roomOk room'
       ∧ GameRoom.roomCode room' = GameRoom.roomCode room
       ∧ GameRoom.status room' = GameRoom.status room
       ∧ GameRoom.maxPlayers room' = GameRoom.maxPlayers room
       ∧ JsObject.keys (GameRoom.players room') = JsObject.keys remaining
       ∧ if String.eqb playerId (GameRoom.hostId room)
         then ∃ k q rest,
                remaining = (k, q) :: rest
                ∧ GameRoom.hostId room' = k
                ∧ GameRoom.players room' = (k, Player.setIsHost true q) :: rest
         else GameRoom.hostId room' = GameRoom.hostId room
              ∧ GameRoom.players room' = remaining).
Proof.
  intros Hroom (Hnd & Hkeyed & Hne & Hcap & Hnick) remaining.
  unfold leaveRoom. rewrite Hroom.
  cbn [GameRoom.players GameRoom.setPlayers GameRoom.hostId].
  fold remaining.
  assert (remaining `sublist_of` GameRoom.players room) as Hsub
    by apply delete_sublist.
  assert (NoDup (JsObject.keys remaining)) as Hnd' by by apply keys_delete_NoDup.
  assert (membersKeyed remaining) as Hkeyed'.
  { intros k p Hin. apply Hkeyed. by eapply elem_of_sublist. }
  assert (length (JsObject.keys remaining)
          ≤ length (JsObject.keys (GameRoom.players room))) as Hlen.
  { unfold JsObject.keys. rewrite !length_fmap. by apply sublist_length. }
  assert (NoDup (Player.nickname <$> JsObject.values remaining)) as Hnick'.
  { eapply sublist_NoDup; [exact Hnick|].
    unfold JsObject.values. by do 2 apply fmap_sublist. }
  destruct remaining as [|[k0 p0] rest] eqn:Hrem; [left; done|].
  right. split; [done|]. simpl length. simpl Nat.eqb. cbv iota.
  destruct (String.eqb playerId (GameRoom.hostId room)) eqn:Hhost.
  - assert (Player.id p0 = k0) as Hid by (apply Hkeyed'; left).
    cbn [JsObject.values fmap list_fmap snd lookup list_lookup].
    cbn [GameRoom.players GameRoom.setHostId GameRoom.setPlayers].
    rewrite Hid. simpl JsObject.get. rewrite String.eqb_refl.
    simpl JsObject.replace. rewrite String.eqb_refl.
    eexists. split; [reflexivity|]. simpl. split.
    + split; [done|]. split; [|split; [done|split; [simpl in *; lia | done]]].
      intros k p [[= -> ->]|Hin]%elem_of_cons; [done|].
      apply Hkeyed'. by right.
    + repeat (split; [reflexivity|]). by exists k0, p0, rest.
  - eexists. split; [reflexivity|]. simpl. split.
    + split; [done|]. split; [done|]. split; [done|].
      split; [simpl in *; lia | done].
    + by repeat (split; [reflexivity|]).
Qed.

Lemma get_Some_elem_of {V} (o : JsObject.t V) k v :
  JsObject.get k o = Some v → (k, v) ∈ o.
Proof.
  induction o as [|[k' v'] r IH]; simpl; [done|].
  destruct (String.eqb k' k) eqn:E.
  - apply eqb_string_true in E as ->. intros [= ->]. left.
  - intros H. right. auto.
Qed.


Lemma setPlayerReady_roomOk
    (rooms : gmap string GameRoom.t) roomCode playerId isReady room player :
  rooms !! roomCode = Some room →
  JsObject.get playerId (GameRoom.players room) = Some player →
  ∃ room',
    setPlayerReady rooms roomCode playerId isReady
    = (<[roomCode := room']> rooms, Some room')
    ∧ GameRoom.players room'
      = JsObject.replace playerId (Player.setIsReady isReady player)
          (GameRoom.players room)
    ∧ room' = GameRoom.setPlayers (GameRoom.players room') room
    ∧ (roomOk room → roomOk room').
Proof.
  intros Hroom Hget. unfold setPlayerReady. rewrite Hroom, Hget.
  eexists. split; [reflexivity|]. split; [done|]. split; [done|].
  intros (Hnd & Hkeyed & Hne & Hcap & Hnick). unfold roomOk. simpl.
  rewrite keys_replace.
  rewrite (values_replace_view Player.nickname _ _ _ player) by done.
  split; [done|]. split; [|split; [|done]].
  - intros k p [[-> ->]|Hin]%elem_of_replace; [|by apply Hkeyed].
    simpl. apply Hkeyed. by apply get_Some_elem_of.
  - intros Hnil. apply (f_equal JsObject.keys) in Hnil.
    rewrite keys_replace in Hnil. by destruct (GameRoom.players room).
Qed.

(** X1. [createRoom] never touches a room that is there: it stores the new
    room under a code that no room had, so every earlier room is still
    found by [getRoom], and so is the new one. The new room holds the
    host alone, flagged as host and not ready, and is waiting for a second
    player ([maxPlayers] is 2). *)
Theorem createRoom_adds_fresh_room
    fuel (rooms rooms' : gmap string GameRoom.t) rnd joinedNow createdNow
    hostId nickname settings room :
  createRoom fuel rooms rnd joinedNow createdNow hostId nickname settings
  = Some (rooms', room) →
  rooms !! GameRoom.roomCode room = None
  ∧ rooms' = <[GameRoom.roomCode room := room]> rooms
  ∧ getRoom rooms' (GameRoom.roomCode room) = Some room
  ∧ (∀ code earlier, getRoom rooms code = Some earlier →
                     getRoom rooms' code = Some earlier)
  ∧ GameRoom.players room
    = [(hostId, Player.mk hostId nickname false true joinedNow)]
  ∧ GameRoom.hostId room = hostId
  ∧ GameRoom.status room = waiting
  ∧ GameRoom.maxPlayers room = 2
  ∧ roomOk room ∧ hostOk room.
Proof.
  unfold createRoom, getRoom.
  destruct (generateRoomCode fuel rooms rnd 0) as [code|] eqn:Hcode; [|done].
  simpl. intros [= <- <-]. simpl. rewrite set_on_empty.
  apply generateRoomCode_fresh in Hcode as [Hfree _].
  split; [done|]. split; [done|]. split; [by rewrite lookup_insert_eq|].
  split.
  { intros code' earlier Hearlier. rewrite lookup_insert_ne; [done|].
    intros <-. congruence. }
  repeat (split; [done|]). split.
  - unfold roomOk. simpl. split; [apply NoDup_singleton|].
    split; [by intros k p [= -> ->]%list_elem_of_singleton|].
    split; [done|]. split; [lia | apply NoDup_singleton].
  - split.
    + exists (Player.mk hostId nickname false true joinedNow). simpl.
      by rewrite String.eqb_refl.
    + simpl. by intros k p [= -> ->]%list_elem_of_singleton.
Qed.

Lemma createRoom_adds_fresh_room_witness :
  ∃ rooms' room,
    createRoom 3 sampleRooms (λ _ _, 1) 50 51 "sockC" "carol" None
    = Some (rooms', room)
    ∧ GameRoom.roomCode room = "BBBBBB"
    ∧ getRoom rooms' "ABC123" = Some sampleRoom
    ∧ getRoom rooms' "BBBBBB" = Some room.
Proof.
  eexists _, _.
  assert (createRoom 3 sampleRooms (λ _ _, 1) 50 51 "sockC" "carol" None
          = Some (<["BBBBBB" :=
                      GameRoom.mk "BBBBBB" "sockC"
                        [("sockC", Player.mk "sockC" "carol" false true 50)]
                        waiting 2 51 (GameSettings.mk 30 false false)]>
                    sampleRooms,
                  GameRoom.mk "BBBBBB" "sockC"
                    [("sockC", Player.mk "sockC" "carol" false true 50)]
                    waiting 2 51 (GameSettings.mk 30 false false))) as H
    by (vm_compute; reflexivity).
  destruct (createRoom_adds_fresh_room _ _ _ _ _ _ _ _ _ _ H)
    as (_ & _ & Hnew & Hold & _).
  split; [exact H|]. split; [reflexivity|]. split; [|exact Hnew].
  apply Hold. vm_compute. reflexivity.
Defined.

Lemma charAt_chars k :
  ∃ c, charAt chars (k `mod` String.length chars) = String c ""
       ∧ c ∈ String.list_ascii_of_string chars.
Proof.
  assert (k `mod` String.length chars < 36) as Hlt
    by (apply Nat.mod_upper_bound; simpl; lia).
  unfold charAt. generalize dependent (k `mod` String.length chars).
  intros i Hi.
  do 36 (destruct i as [|i];
         [eexists; split; [reflexivity|];
          apply (bool_decide_unpack _); vm_compute; exact I|]).
  lia.
Qed.

(** X2. A candidate room code is six characters long, each of them a
    capital letter or a digit, whatever the random draws are. *)
Theorem drawCode_six_alphanumerics rnd :
  String.length (drawCode rnd) = 6
  ∧ ∀ c, c ∈ String.list_ascii_of_string (drawCode rnd) →
         c ∈ String.list_ascii_of_string chars.
Proof.
  unfold drawCode. cbn [seq fmap list_fmap].
  destruct (charAt_chars (rnd 0)) as (c0 & -> & H0).
  destruct (charAt_chars (rnd 1)) as (c1 & -> & H1).
  destruct (charAt_chars (rnd 2)) as (c2 & -> & H2).
  destruct (charAt_chars (rnd 3)) as (c3 & -> & H3).
  destruct (charAt_chars (rnd 4)) as (c4 & -> & H4).
  destruct (charAt_chars (rnd 5)) as (c5 & -> & H5).
  simpl String.concat. split; [done|].
  intros c Hc. simpl in Hc.
  repeat (apply elem_of_cons in Hc as [->|Hc]; [assumption|]).
  by apply elem_of_nil in Hc.
Qed.

(** X3. When a member leaves a room that is in order: if it was the only
    member the room is deleted and [getRoom] no longer finds it; otherwise
    the room stays, without that member and with exactly the other
    members, and is still in order. A player who is not a member changes
    nobody's membership. No other room is touched. *)
Theorem leaveRoom_removes_player
    (rooms : gmap string GameRoom.t) roomCode playerId room :
  rooms !! roomCode = Some room →
  roomOk room →
  let after := leaveRoom rooms roomCode playerId in
  (JsObject.keys (GameRoom.players room) = [playerId] →
   after.2 = Returned None ∧ getRoom after.1 roomCode = None)
  ∧ (JsObject.keys (GameRoom.players room) ≠ [playerId] →
     ∃ room',
       after.2 = Returned (Some room')
       ∧ getRoom after.1 roomCode = Some room'
       ∧ JsObject.get playerId (GameRoom.players room') = None
       ∧ (∀ other, other ≠ playerId →
            (other ∈ JsObject.keys (GameRoom.players room')
             ↔ other ∈ JsObject.keys (GameRoom.players room)))
       ∧ roomOk room')
  ∧ ∀ other, other ≠ roomCode → after.1 !! other = rooms !! other.
Proof.
  intros Hroom Hok after.
  pose proof Hok as (Hnd & _ & Hne & _).
  pose proof (delete_empty playerId (GameRoom.players room) Hnd Hne) as Hempty.
  destruct (leaveRoom_roomOk rooms roomCode playerId room Hroom Hok)
    as [[Hnil Hleave] | (Hsome & room' & Hleave & Hok' & _ & _ & _ & Hkeys & _)];
    unfold after, getRoom; rewrite Hleave; simpl.
  - split; [intros _; split; [done | apply lookup_delete_eq]|].
    split; [intros Hk; by apply Hempty in Hnil|].
    intros other Hother. by apply lookup_delete_ne.
  - split; [intros Hk; by apply Hempty in Hk|].
    split; [|intros other Hother; by apply lookup_insert_ne].
    intros _. exists room'. split; [done|].
    split; [apply lookup_insert_eq|]. split; [|split; [|done]].
    + apply get_None_keys. rewrite Hkeys. by apply keys_delete_gone.
    + intros other Hother. rewrite Hkeys. by apply keys_delete_other.
Qed.

Lemma leaveRoom_removes_player_witness :
  let rooms := (joinRoom sampleRooms 20 "ABC123" "sockB" "bob").1 in
  ∃ room room',
    rooms !! "ABC123" = Some room
    ∧ (leaveRoom rooms "ABC123" "sockA").2 = Returned (Some room')
    ∧ JsObject.keys (GameRoom.players room') = ["sockB"]
    ∧ roomOk room'.
Proof.
  intros rooms.
  set (room := GameRoom.mk "ABC123" "sockA"
                 [("sockA", Player.mk "sockA" "alice" false true 10);
                  ("sockB", Player.mk "sockB" "bob" false false 20)]
                 waiting 2 10 (GameSettings.mk 30 false false)).
  assert (rooms !! "ABC123" = Some room) as H1 by (vm_compute; reflexivity).
  assert (roomOk room) as H2.
  { unfold roomOk. simpl.
    split; [apply (bool_decide_unpack _); vm_compute; exact I|].
    split.
    { intros k p Hin. apply list_elem_of_In in Hin. simpl in Hin.
      destruct Hin as [[= <- <-]|[[= <- <-]|[]]]; reflexivity. }
    split; [discriminate|]. split; [lia|].
    apply (bool_decide_unpack _); vm_compute; exact I. }
  destruct (leaveRoom_removes_player rooms "ABC123" "sockA" room H1 H2)
    as (_ & Hstay & _).
  destruct Hstay as (room' & Hout & _ & _ & _ & Hok'); [discriminate|].
  exists room, room'. split; [exact H1|]. split; [exact Hout|].
  split; [|exact Hok'].
  assert ((leaveRoom rooms "ABC123" "sockA").2
          = Returned (Some (GameRoom.mk "ABC123" "sockB"
               [("sockB", Player.mk "sockB" "bob" false true 20)]
               waiting 2 10 (GameSettings.mk 30 false false)))) as Hc
    by (vm_compute; reflexivity).
  rewrite Hc in Hout. injection Hout as <-. reflexivity.
Defined.

Lemma elem_of_replace_NoDup {V} (o : JsObject.t V) k v k' v' :
  NoDup (JsObject.keys o) →
  (k', v') ∈ JsObject.replace k v o →
  (k' = k ∧ v' = v) ∨ (k' ≠ k ∧ (k', v') ∈ o).
Proof.
  unfold JsObject.keys. induction o as [|[k0 v0] r IH]; csimpl;
    [by intros _ ?%elem_of_nil|].
  intros [Hnot Hnd]%NoDup_cons.
  destruct (String.eqb k0 k) eqn:E.
  - apply eqb_string_true in E as ->.
    intros [[= -> ->]|Hin]%elem_of_cons; [by left|]. right.
    split; [|by right]. intros ->. apply Hnot.
    apply (list_elem_of_fmap_2 fst) in Hin. exact Hin.
  - apply eqb_string_false in E.
    intros [[= -> ->]|Hin]%elem_of_cons; [right; split; [done | left]|].
    destruct (IH Hnd Hin) as [?|[? ?]]; [by left | right; split; [done | by right]].
Qed.

(** X4. When a member leaves a room in order whose host is flagged, and
    the room stays, it still has exactly one flagged host: the same one if
    somebody else left, and, if the host left, the member that comes first
    among those that remain, whose [isHost] is set and whose id becomes
    [hostId]. [leaveRoom] does not throw on such a room. *)
Theorem leaveRoom_hands_over_host
    (rooms : gmap string GameRoom.t) roomCode playerId room :
  rooms !! roomCode = Some room →
  roomOk room →
  hostOk room →
  (leaveRoom rooms roomCode playerId).2 ≠ Threw
  ∧ ∀ room',
      (leaveRoom rooms roomCode playerId).2 = Returned (Some room') →
      hostOk room'
      ∧ (playerId ≠ GameRoom.hostId room →
         GameRoom.hostId room' = GameRoom.hostId room)
      ∧ (playerId = GameRoom.hostId room →
         head (JsObject.keys
                 (JsObject.delete playerId (GameRoom.players room)))
         = Some (GameRoom.hostId room')).
Proof.
  intros Hroom Hok [(h & Hh & Hflag) Honly].
  pose proof Hok as (Hnd & _).
  destruct (leaveRoom_roomOk rooms roomCode playerId room Hroom Hok)
    as [[Hnil Hleave] | (Hsome & room1 & Hleave & _ & _ & _ & _ & _ & Hhost)];
    rewrite Hleave; simpl; [done|].
  split; [done|]. intros room' [= <-].
  destruct (String.eqb playerId (GameRoom.hostId room)) eqn:E.
  - apply eqb_string_true in E.
    destruct Hhost as (k & q & rest & Hrem & Hid & Hplayers).
    split; [|split; [done|]].
    + split.
      * exists (Player.setIsHost true q). rewrite Hid, Hplayers. simpl.
        by rewrite String.eqb_refl.
      * intros k' p. rewrite Hplayers, Hid.
        intros [[= -> ->]|Hin]%elem_of_cons Hp; [done|].
        exfalso.
        assert ((k', p) ∈ JsObject.delete playerId (GameRoom.players room)) as Hin'
          by (rewrite Hrem; by right).
        assert (k' = GameRoom.hostId room) as ->.
        { apply (Honly k' p); [|done].
          eapply elem_of_sublist; [done | apply delete_sublist]. }
        apply (keys_delete_gone playerId (GameRoom.players room) Hnd).
        unfold JsObject.keys.
        apply (list_elem_of_fmap_2 fst) in Hin'. rewrite <- E in Hin'.
        exact Hin'.
    + intros _. by rewrite Hrem, Hid.
  - apply eqb_string_false in E. destruct Hhost as [Hid Hplayers].
    split; [|split; [done | done]].
    split.
    + exists h. rewrite Hid, Hplayers, get_delete_ne by done. done.
    + intros k p Hin Hp. rewrite Hid. apply (Honly k p); [|done].
      rewrite Hplayers in Hin.
      eapply elem_of_sublist; [done | apply delete_sublist].
Qed.

Lemma leaveRoom_hands_over_host_witness :
  let room := GameRoom.mk "ABC123" "sockA"
                [("sockA", Player.mk "sockA" "alice" false true 10);
                 ("sockB", Player.mk "sockB" "bob" true false 20)]
                waiting 2 10 (GameSettings.mk 30 false false) in
  let rooms : gmap string GameRoom.t := {[ "ABC123" := room ]} in
  roomOk room ∧ hostOk room
  ∧ (leaveRoom rooms "ABC123" "sockA").2 ≠ Threw.
Proof.
  intros room rooms.
  assert (rooms !! "ABC123" = Some room) as H1 by (vm_compute; reflexivity).
  assert (roomOk room) as H2.
  { unfold roomOk. simpl.
    split; [apply (bool_decide_unpack _); vm_compute; exact I|].
    split.
    { intros k p Hin. apply list_elem_of_In in Hin. simpl in Hin.
      destruct Hin as [[= <- <-]|[[= <- <-]|[]]]; reflexivity. }
    split; [discriminate|]. split; [lia|].
    apply (bool_decide_unpack _); vm_compute; exact I. }
  assert (hostOk room) as H3.
  { split; [eexists; split; reflexivity|].
    intros k p Hin. apply list_elem_of_In in Hin. simpl in Hin.
    destruct Hin as [[= <- <-]|[[= <- <-]|[]]]; [reflexivity | discriminate]. }
  split; [exact H2|]. split; [exact H3|].
  exact (proj1 (leaveRoom_hands_over_host rooms "ABC123" "sockA" room H1 H2 H3)).
Defined.




Lemma registryOk_insert (rooms : gmap string GameRoom.t) code room :
  registryOk rooms → GameRoom.roomCode room = code → roomOk room →
  registryOk (<[code := room]> rooms).
Proof.
  intros Hreg Hcode Hok code' room'.
  destruct (decide (code = code')) as [<-|Hne].
  - rewrite lookup_insert_eq. by intros [= <-].
  - rewrite lookup_insert_ne by done. apply Hreg.
Qed.

Lemma registryOk_delete (rooms : gmap string GameRoom.t) code :
  registryOk rooms → registryOk (delete code rooms).
Proof.
  intros Hreg code' room'.
  destruct (decide (code = code')) as [<-|Hne].
  - by rewrite lookup_delete_eq.
  - rewrite lookup_delete_ne by done. apply Hreg.
Qed.

Lemma joinRoom_rejected_unchanged
    (rooms rooms' : gmap string GameRoom.t) now roomCode playerId nickname :
  joinRoom rooms now roomCode playerId nickname = (rooms', None) → rooms' = rooms.
Proof.
  unfold joinRoom. destruct (rooms !! roomCode) as [room|]; [|by intros [= <-]].
  destruct (_ <=? _); [by intros [= <-]|].
  destruct (existsb _ _); [by intros [= <-] | done].
Qed.

(** X7. The registry stays in order under its four operations: if every
    room is stored under its own code, with one member at least and
    [maxPlayers] at most, each under its own id, and no nickname twice in
    a room, then the same holds after [createRoom], [joinRoom],
    [leaveRoom] and [setPlayerReady], however they answer. *)
Theorem registry_stays_in_order (rooms : gmap string GameRoom.t) :
  registryOk rooms →
  (∀ fuel rnd joinedNow createdNow hostId nickname settings rooms' room,
     createRoom fuel rooms rnd joinedNow createdNow hostId nickname settings
     = Some (rooms', room) →
     registryOk rooms')
  ∧ (∀ now roomCode playerId nickname,
       registryOk (joinRoom rooms now roomCode playerId nickname).1)
  ∧ (∀ roomCode playerId, registryOk (leaveRoom rooms roomCode playerId).1)
  ∧ (∀ roomCode playerId isReady,
       registryOk (setPlayerReady rooms roomCode playerId isReady).1).
Proof.
  intros Hreg. split; [|split; [|split]].
  - intros * Hcreate. unfold createRoom in Hcreate.
    destruct (generateRoomCode _ _ _ _) as [code|]; [|done].
    simpl in Hcreate. injection Hcreate as <- <-.
    apply registryOk_insert; [done | done|].
    unfold roomOk. simpl. rewrite set_on_empty. simpl.
    split; [apply NoDup_singleton|].
    split; [by intros k p [= -> ->]%list_elem_of_singleton|].
    split; [done|]. split; [lia | apply NoDup_singleton].
  - intros now roomCode playerId nickname.
    destruct (joinRoom rooms now roomCode playerId nickname)
      as [rooms' [room'|]] eqn:Hjoin; simpl.
    + pose proof Hjoin as (room & Hroom & _ & _ & _ & ->)%joinRoom_success_inv.
      destruct (Hreg _ _ Hroom) as [Hcode Hok].
      destruct (joinRoom_roomOk _ _ _ _ _ _ _ _ Hroom Hok Hjoin) as (Hok' & Hc & _).
      apply registryOk_insert; [done | congruence | done].
    + by apply joinRoom_rejected_unchanged in Hjoin as ->.
  - intros roomCode playerId.
    destruct (rooms !! roomCode) as [room|] eqn:Hroom.
    + destruct (Hreg _ _ Hroom) as [Hcode Hok].
      destruct (leaveRoom_roomOk rooms roomCode playerId room Hroom Hok)
        as [[_ ->] | (_ & room' & -> & Hok' & Hc & _)]; simpl.
      * by apply registryOk_delete.
      * apply registryOk_insert; [done | congruence | done].
    + unfold leaveRoom. by rewrite Hroom.
  - intros roomCode playerId isReady.
    destruct (rooms !! roomCode) as [room|] eqn:Hroom;
      [|unfold setPlayerReady; by rewrite Hroom].
    destruct (JsObject.get playerId (GameRoom.players room)) as [player|] eqn:Hget;
      [|unfold setPlayerReady; by rewrite Hroom, Hget].
    destruct (Hreg _ _ Hroom) as [Hcode Hok].
    destruct (setPlayerReady_roomOk rooms roomCode playerId isReady room player
                Hroom Hget) as (room' & -> & _ & Hrest & Hok').
    simpl. apply registryOk_insert; [done | | by apply Hok'].
    rewrite Hrest. done.
Qed.

Lemma registry_stays_in_order_witness :
  registryOk sampleRooms
  ∧ registryOk (leaveRoom sampleRooms "ABC123" "sockA").1.
Proof.
  assert (registryOk sampleRooms) as H.
  { intros code room. unfold sampleRooms.
    destruct (decide (code = "ABC123")) as [->|Hne].
    - rewrite lookup_singleton_eq. intros [= <-]. split; [reflexivity|].
      unfold roomOk. simpl.
      split; [apply (bool_decide_unpack _); vm_compute; exact I|].
      split.
      { intros k p Hin. apply list_elem_of_In in Hin. simpl in Hin.
        destruct Hin as [[= <- <-]|[]]; reflexivity. }
      split; [discriminate|]. split; [lia|].
      apply (bool_decide_unpack _); vm_compute; exact I.
    - rewrite lookup_singleton_ne by done. discriminate. }
  split; [exact H|].
  exact (proj1 (proj2 (proj2 (registry_stays_in_order sampleRooms H)))
           "ABC123" "sockA").
Defined.

(** ** Winners *)




(** ** The order of the turns *)

Lemma indexOf_lookup_NoDup (ks : list string) i k :
  NoDup ks → ks !! i = Some k → JsObject.indexOf k ks = Some i.
Proof.
  intros Hnd Hi.
  destruct (indexOf_elem ks k (list_elem_of_lookup_2 _ _ _ Hi)) as [j Hj].
  rewrite Hj. f_equal. apply indexOf_Some in Hj.
  by apply (NoDup_lookup ks j i k).
Qed.

Lemma indexOf_absent (ks : list string) k :
  k ∉ ks → JsObject.indexOf k ks = None.
Proof.
  intros Hk. destruct (JsObject.indexOf k ks) as [i|] eqn:E; [|done].
  apply indexOf_Some, list_elem_of_lookup_2 in E. done.
Qed.

Lemma nextHolder_index g i h :
  NoDup (JsObject.keys (GameState.players g)) →
  GameState.currentTurn g = Some h →
  JsObject.keys (GameState.players g) !! i = Some h →
  nextHolder g
  = JsObject.keys (GameState.players g)
      !! ((i + 1) `mod` length (JsObject.keys (GameState.players g))).
Proof.
  intros Hnd Hturn Hi. unfold nextHolder, switchTurns. simpl.
  by rewrite Hturn, (indexOf_lookup_NoDup _ _ _ Hnd Hi).
Qed.


Lemma iter_switchTurns_keys now k g :
  JsObject.keys (GameState.players (Nat.iter k (switchTurns now) g))
  = JsObject.keys (GameState.players g).
Proof.
  induction k as [|k IH]; [done|].
  by rewrite Nat.iter_succ, switchTurns_keys.
Qed.

Lemma iter_switchTurns_turn now k g i h :
  NoDup (JsObject.keys (GameState.players g)) →
  GameState.currentTurn g = Some h →
  JsObject.keys (GameState.players g) !! i = Some h →
  GameState.currentTurn (Nat.iter k (switchTurns now) g)
  = JsObject.keys (GameState.players g)
      !! ((i + k) `mod` length (JsObject.keys (GameState.players g))).
Proof.
  intros Hnd Hturn Hi.
  pose proof (lookup_lt_Some _ _ _ Hi) as Hlt.
  set (n := length (JsObject.keys (GameState.players g))) in *.
  induction k as [|k IH].
  - simpl. by rewrite Nat.add_0_r, Nat.mod_small, Hturn.
  - rewrite Nat.iter_succ, switchTurns_currentTurn.
    assert ((i + k) `mod` n < n) as Hj by (apply Nat.mod_upper_bound; lia).
    destruct (lookup_lt_is_Some_2 (JsObject.keys (GameState.players g)) _ Hj)
      as [h' Hh'].
    rewrite Hh' in IH.
    rewrite (nextHolder_index _ ((i + k) `mod` n) h').
    + rewrite iter_switchTurns_keys. fold n.
      rewrite Nat.Div0.add_mod_idemp_l. do 2 f_equal. lia.
    + by rewrite iter_switchTurns_keys.
    + done.
    + by rewrite iter_switchTurns_keys.
Qed.

(** X9. [switchTurns] goes round the players in the order of the keys of
    the [players] record: the turn passes from the player at one index to
    the player at the next, and from the last to the first; when the
    holder is not a player the first player gets the turn. Each switch
    adds one to [turnNumber] and stamps [currentTurnStartedAt]; the cards,
    the slots and the players' ids stay. After as many switches as there
    are players the turn is back with the same player. *)
Theorem switchTurns_round_robin now g :
  NoDup (JsObject.keys (GameState.players g)) →
  let keys := JsObject.keys (GameState.players g) in
  (∀ i h, GameState.currentTurn g = Some h → keys !! i = Some h →
          GameState.currentTurn (switchTurns now g)
          = keys !! ((i + 1) `mod` length keys))
  ∧ ((∀ h, GameState.currentTurn g = Some h → h ∉ keys) →
     GameState.currentTurn (switchTurns now g) = head keys)
  ∧ GameState.turnNumber (switchTurns now g) = GameState.turnNumber g + 1
  ∧ GameState.currentTurnStartedAt (switchTurns now g) = now
  ∧ GameState.cards (switchTurns now g) = GameState.cards g
  ∧ JsObject.keys (GameState.players (switchTurns now g)) = keys
  ∧ (∀ h, GameState.currentTurn g = Some h → h ∈ keys →
          GameState.currentTurn (Nat.iter (length keys) (switchTurns now) g)
          = Some h
          ∧ GameState.turnNumber (Nat.iter (length keys) (switchTurns now) g)
            = GameState.turnNumber g + length keys).
Proof.
  intros Hnd keys. split; [|split; [|split; [|split; [|split; [|split]]]]];
    try done.
  - intros i h Hturn Hi. rewrite switchTurns_currentTurn.
    exact (nextHolder_index g i h Hnd Hturn Hi).
  - intros Habsent. unfold switchTurns. simpl. fold keys.
    destruct (GameState.currentTurn g) as [h|] eqn:Hturn.
    + rewrite indexOf_absent by by apply Habsent.
      rewrite Nat.Div0.mod_0_l. by destruct keys.
    + rewrite Nat.Div0.mod_0_l. by destruct keys.
  - apply switchTurns_keys.
  - intros h Hturn [i Hi]%list_elem_of_lookup_1. split.
    + rewrite (iter_switchTurns_turn now _ g i h) by done. fold keys.
      pose proof (lookup_lt_Some _ _ _ Hi) as Hlt.
      replace ((i + length keys) `mod` length keys) with i; [done|].
      rewrite <- Nat.Div0.add_mod_idemp_r, Nat.Div0.mod_same, Nat.add_0_r.
      by rewrite Nat.mod_small.
    + generalize (length keys). intros n. induction n as [|n IH]; [simpl; lia|].
      rewrite Nat.iter_succ.
      change (GameState.turnNumber (switchTurns now ?x))
        with (GameState.turnNumber x + 1).
      rewrite IH. lia.
Qed.

Lemma switchTurns_round_robin_witness :
  NoDup (JsObject.keys (GameState.players sampleGame))
  ∧ GameState.currentTurn (switchTurns 5000 sampleGame) = Some "sockB"
  ∧ GameState.currentTurn (switchTurns 6000 (switchTurns 5000 sampleGame))
    = Some "sockA".
Proof.
  assert (NoDup (JsObject.keys (GameState.players sampleGame))) as H
    by (apply (bool_decide_unpack _); vm_compute; exact I).
  split; [exact H|].
  destruct (switchTurns_round_robin 5000 sampleGame H) as (Hnext & _).
  split; [|vm_compute; reflexivity].
  exact (Hnext 0 "sockA" eq_refl eq_refl).
Defined.

(** X10. After [switchTurns], in a session whose players are stored under
    their ids, exactly one player carries [isCurrentTurn = true], and it
    is the player whose id is the new [currentTurn]; nobody's score or
    match count has changed. *)
Theorem switchTurns_flags_the_holder now g :
  wellKeyed (GameState.players g) →
  GameState.players g ≠ [] →
  ∃ p, holdersOfTurn (switchTurns now g) = [p]
       ∧ GameState.currentTurn (switchTurns now g)
         = Some (PlayerGameState.id p)
       ∧ tally (switchTurns now g) = tally g.
Proof.
  intros Hkeyed Hne.
  pose proof (switchTurns_one_holder now g Hkeyed Hne) as Hlen.
  destruct (holdersOfTurn (switchTurns now g)) as [|p [|p' rest]] eqn:Hholders;
    try done.
  exists p. split; [done|]. split; [|apply switchTurns_tally].
  assert (p ∈ holdersOfTurn (switchTurns now g)) as Hp by (rewrite Hholders; left).
  unfold holdersOfTurn in Hp. apply list_elem_of_filter in Hp as [Hflag Hin].
  rewrite switchTurns_currentTurn.
  unfold switchTurns, JsObject.values, JsObject.mapValues in Hin. simpl in Hin.
  rewrite <- list_fmap_compose in Hin.
  apply list_elem_of_fmap in Hin as ([k q] & -> & _). simpl in *.
  injection Hflag as Hflag. by apply turnIs_true in Hflag.
Qed.

Lemma switchTurns_flags_the_holder_witness :
  wellKeyed (GameState.players sampleGame)
  ∧ ∃ p, holdersOfTurn (switchTurns 5000 sampleGame) = [p]
         ∧ PlayerGameState.id p = "sockB".
Proof.
  assert (wellKeyed (GameState.players sampleGame)) as H1.
  { split; [apply (bool_decide_unpack _); vm_compute; exact I|].
    intros k p Hin. apply list_elem_of_In in Hin. simpl in Hin.
    destruct Hin as [[= <- <-]|[[= <- <-]|[]]]; reflexivity. }
  assert (GameState.players sampleGame ≠ []) as H2 by discriminate.
  split; [exact H1|].
  destruct (switchTurns_flags_the_holder 5000 sampleGame H1 H2)
    as (p & Hp & Hturn & _).
  exists p. split; [exact Hp|].
  assert (GameState.currentTurn (switchTurns 5000 sampleGame) = Some "sockB")
    as Hb by (vm_compute; reflexivity).
  rewrite Hb in Hturn. by injection Hturn.
Defined.

Lemma expireTurn_turn now g :
  GameState.currentTurn (expireTurn now g) = nextHolder g
  ∧ GameState.turnNumber (expireTurn now g) = GameState.turnNumber g + 1.
Proof.
  unfold expireTurn. rewrite switchTurns_currentTurn.
  destruct (truthy _); [|done]. by destruct (findCardRef _ _) as [[? ?]|].
Qed.

Lemma resolveNoMatch_turn now d g :
  GameState.currentTurn (resolveNoMatch now d g) = nextHolder g
  ∧ GameState.turnNumber (resolveNoMatch now d g) = GameState.turnNumber g + 1.
Proof.
  unfold resolveNoMatch. rewrite switchTurns_currentTurn.
  by destruct (firstCard d).
Qed.

(** X11. Nothing cancels a deferred no-match resolution. In a session of
    two players, when the turn timer of the holder fires while a
    resolution is still waiting, the turn is switched twice: once by the
    timer and once more by the resolution when it runs, so that the turn
    is back with the player who held it and the turn number has grown by
    two. *)
Theorem timer_then_resolution_switches_twice now1 now2 s d rest h :
  NoDup (JsObject.keys (GameState.players (game s))) →
  length (JsObject.keys (GameState.players (game s))) = 2 →
  GameState.currentTurn (game s) = Some h →
  h ∈ JsObject.keys (GameState.players (game s)) →
  pending s = d :: rest →
  let s' := step (EvResolve now2) (step (EvTimer now1 h) s) in
  GameState.currentTurn (game s') = Some h
  ∧ GameState.turnNumber (game s') = GameState.turnNumber (game s) + 2
  ∧ GameState.currentTurn (game (step (EvTimer now1 h) s)) ≠ Some h
  ∧ pending s' = rest.
Proof.
  intros Hnd Hlen Hturn [i Hi]%list_elem_of_lookup_1 Hp s'.
  unfold s', step. apply turnIs_true in Hturn as Hholder. rewrite Hholder.
  cbn [pending game]. rewrite Hp. cbn [game pending].
  destruct (expireTurn_turn now1 (game s)) as [Ht1 Hn1].
  destruct (resolveNoMatch_turn now2 d (expireTurn now1 (game s))) as [Ht2 Hn2].
  destruct (expireTurn_fields now1 (game s)) as (_ & _ & _ & Hk1 & _).
  rewrite Ht2, Hn2, Hn1, Ht1.
  pose proof (lookup_lt_Some _ _ _ Hi) as Hlt.
  pose proof (nextHolder_index (game s) i h Hnd Hturn Hi) as Hnext.
  rewrite Hlen in Hnext.
  assert ((i + 1) `mod` 2 < length (JsObject.keys (GameState.players (game s))))
    as Hj by (rewrite Hlen; apply Nat.mod_upper_bound; lia).
  destruct (lookup_lt_is_Some_2 _ _ Hj) as [h' Hh'].
  rewrite Hh' in Hnext.
  split; [|split; [lia|split; [|done]]].
  - rewrite (nextHolder_index (expireTurn now1 (game s)) ((i + 1) `mod` 2) h');
      rewrite ?Hk1; try done; [|congruence].
    rewrite Hlen, <- Hi. f_equal.
    rewrite Hlen in Hlt. destruct i as [|[|i]]; [done | done | lia].
  - rewrite Hnext. intros [= ->].
    pose proof (NoDup_lookup _ _ _ _ Hnd Hh' Hi) as Heq.
    rewrite Hlen in Hlt. destruct i as [|[|i]]; [done | done | lia].
Qed.

Lemma timer_then_resolution_switches_twice_witness :
  let s := run [EvFlip 2000 "sockA" "card_0"; EvFlip 2100 "sockA" "card_2"]
               (mkSession sampleGame []) in
  let s' := step (EvResolve 3100) (step (EvTimer 2500 "sockA") s) in
  pending s = [mkDeferred (Some 0) 2]
  ∧ GameState.currentTurn (game s) = Some "sockA"
  ∧ GameState.currentTurn (game s') = Some "sockA"
  ∧ GameState.turnNumber (game s') = 3.
Proof.
  intros s s'.
  assert (NoDup (JsObject.keys (GameState.players (game s)))) as H1
    by (apply (bool_decide_unpack _); vm_compute; exact I).
  assert (length (JsObject.keys (GameState.players (game s))) = 2) as H2
    by (vm_compute; reflexivity).
  assert (GameState.currentTurn (game s) = Some "sockA") as H3
    by (vm_compute; reflexivity).
  assert ("sockA" ∈ JsObject.keys (GameState.players (game s))) as H4
    by (apply (bool_decide_unpack _); vm_compute; exact I).
  assert (pending s = [mkDeferred (Some 0) 2]) as H5 by (vm_compute; reflexivity).
  destruct (timer_then_resolution_switches_twice 2500 3100 s _ _ "sockA"
              H1 H2 H3 H4 H5) as (Ht & Hn & _).
  split; [exact H5|]. split; [exact H3|]. split; [exact Ht|].
  unfold s'. rewrite Hn. vm_compute. reflexivity.
Defined.

(** ** A mismatch and its resolution *)

Lemma flip_unflip i (cs : list Card.t) c :
  cs !! i = Some c → Card.isFlipped c = false →
  alter (Card.setFlipped false) i (alter (Card.setFlipped true) i cs) = cs.
Proof.
  intros Hc Hf. rewrite list_alter_alter_eq. apply list_eq. intros k.
  destruct (decide (i = k)) as [<-|Hne].
  - rewrite list_lookup_alter_eq, Hc. simpl. f_equal.
    destruct c. simpl in *. by subst.
  - by rewrite list_lookup_alter_ne.
Qed.

(** X12. A mismatch is undone by its resolution. When the holder of the
    turn, with no card pending, flips a face-down unmatched card and then
    another one that is not its match, the first call answers [flip], the
    second [noMatch] and schedules one resolution; once that resolution
    has run the board is exactly what it was before the two flips, both
    slots are cleared, nobody's score has changed, and the turn has passed
    to the next player with the turn number one higher. *)
Theorem mismatch_round_trip now1 now2 now3 g p a b ia ca ib cb :
  GameState.currentTurn g = Some p →
  truthy (GameState.firstFlippedCard g) = false →
  findCard a (GameState.cards g) = Some (ia, ca) →
  findCard b (GameState.cards g) = Some (ib, cb) →
  a ≠ "" →
  ia ≠ ib →
  Card.isFlipped ca = false → Card.isMatched ca = false →
  Card.isFlipped cb = false → Card.isMatched cb = false →
  Card.matchingCardId ca ≠ b →
  let s1 := step (EvFlip now1 p a) (mkSession g []) in
  let s2 := step (EvFlip now2 p b) s1 in
  let s3 := step (EvResolve now3) s2 in
  (flipCard now1 p a g).1.2 = Returned ActFlip
  ∧ (flipCard now2 p b (game s1)).1.2 = Returned ActNoMatch
  ∧ pending s2 = [mkDeferred (Some ia) ib]
  ∧ GameState.cards (game s3) = GameState.cards g
  ∧ pending s3 = []
  ∧ GameState.firstFlippedCard (game s3) = JsUndefined
  ∧ GameState.secondFlippedCard (game s3) = JsUndefined
  ∧ tally (game s3) = tally g
  ∧ GameState.status (game s3) = GameState.status g
  ∧ GameState.currentTurn (game s3) = nextHolder g
  ∧ GameState.turnNumber (game s3) = GameState.turnNumber g + 1.
Proof.
  intros Hturn Hfirst Ha Hb Hane Hdiff Hfa Hma Hfb Hmb Hnomatch s1 s2 s3.
  apply turnIs_true in Hturn as Hholder.
  pose proof Ha as [Hia _]%findCard_Some.
  pose proof Hb as [Hib _]%findCard_Some.
  set (g1 := GameState.setFirstFlippedCard (JsStr a) (flipAt true ia g)).
  assert (flipCard now1 p a g = (g1, Returned ActFlip, None)) as H1.
  { unfold flipCard. rewrite Hholder, Ha, Hma, Hfa. simpl.
    by rewrite Hfirst. }
  set (g2 := GameState.setSecondFlippedCard (JsStr b) (flipAt true ib g1)).
  assert (flipCard now2 p b g1
          = (g2, Returned ActNoMatch, Some (mkDeferred (Some ia) ib))) as H2.
  { unfold flipCard.
    change (GameState.currentTurn g1) with (GameState.currentTurn g).
    rewrite Hholder.
    change (GameState.cards g1)
      with (alter (Card.setFlipped true) ia (GameState.cards g)).
    rewrite findCard_alter, Hb by done. simpl fmap. cbn [fst snd].
    rewrite decide_False by done. rewrite Hmb, Hfb.
    change (GameState.firstFlippedCard (flipAt true ib g1)) with (JsStr a).
    rewrite truthy_JsStr by done. cbn [orb negb].
    change (GameState.firstFlippedCard
              (GameState.setSecondFlippedCard (JsStr b) (flipAt true ib g1)))
      with (JsStr a).
    change (GameState.cards
              (GameState.setSecondFlippedCard (JsStr b) (flipAt true ib g1)))
      with (alter (Card.setFlipped true) ib
              (alter (Card.setFlipped true) ia (GameState.cards g))).
    assert (findCard a
              (alter (Card.setFlipped true) ib
                 (alter (Card.setFlipped true) ia (GameState.cards g)))
            = Some (ia, Card.setFlipped true ca)) as Hfound.
    { rewrite !findCard_alter, Ha by done. simpl.
      rewrite (decide_False (P := ia = ib)) by done.
      by rewrite decide_True by done. }
    unfold findCardRef. rewrite !Hfound. simpl Card.matchingCardId.
    apply eqb_string_false in Hnomatch. rewrite Hnomatch. done. }
  assert (s1 = mkSession g1 []) as Hs1
    by (unfold s1, step; cbn [game pending]; by rewrite H1).
  assert (s2 = mkSession g2 [mkDeferred (Some ia) ib]) as Hs2
    by (unfold s2, step; rewrite Hs1; cbn [game pending]; by rewrite H2).
  assert (s3 = mkSession (resolveNoMatch now3 (mkDeferred (Some ia) ib) g2) [])
    as Hs3 by (unfold s3, step; by rewrite Hs2).
  rewrite Hs3, Hs2, Hs1, H1. cbn [game pending fst snd].
  rewrite H2. cbn [game pending fst snd].
  destruct (resolveNoMatch_turn now3 (mkDeferred (Some ia) ib) g2) as [-> ->].
  destruct (resolveNoMatch_fields now3 (mkDeferred (Some ia) ib) g2)
    as (-> & _ & -> & _).
  repeat (split; [done|]). split; [|done].
  unfold resolveNoMatch. rewrite switchTurns_cards. simpl.
  rewrite (list_alter_alter_ne (Card.setFlipped false) (Card.setFlipped true)
             _ ia ib) by done.
  rewrite (flip_unflip ia _ ca Hia Hfa).
  by rewrite (flip_unflip ib _ cb Hib Hfb).
Qed.

Lemma mismatch_round_trip_witness :
  let s := run [EvFlip 2000 "sockA" "card_0"; EvFlip 2100 "sockA" "card_2";
                EvResolve 3100]
               (mkSession sampleGame []) in
  GameState.currentTurn sampleGame = Some "sockA"
  ∧ truthy (GameState.firstFlippedCard sampleGame) = false
  ∧ GameState.cards (game s) = GameState.cards sampleGame
  ∧ GameState.currentTurn (game s) = Some "sockB".
Proof.
  intros s.
  assert (GameState.currentTurn sampleGame = Some "sockA") as H1 by reflexivity.
  assert (truthy (GameState.firstFlippedCard sampleGame) = false) as H2
    by reflexivity.
  split; [exact H1|]. split; [exact H2|].
  destruct (mismatch_round_trip 2000 2100 3100 sampleGame "sockA"
              "card_0" "card_2"
              0 (Card.mk "card_0" bug "Null Pointer Exception" easy false false
                   "card_1" 0)
              2 (Card.mk "card_2" bug "Array Index Out of Bounds" easy false
                   false "card_3" 2)
              H1 H2 eq_refl eq_refl ltac:(discriminate) ltac:(lia)
              eq_refl eq_refl eq_refl eq_refl ltac:(discriminate))
    as (_ & _ & _ & Hcards & _ & _ & _ & _ & _ & Hturn & _).
  split; [exact Hcards|]. exact (eq_trans Hturn eq_refl).
Defined.

(** ** The books of a session *)

























(** ** The totals of a finished session *)









(** ** The content provider's shuffle and its built-in pairs *)

Lemma shuffleArrayFrom_Permutation {A} rnd i (a : list A) :
  shuffleArrayFrom rnd i a ≡ₚ a.
Proof.
  revert a. induction i as [|i IH]; intros a; [done|].
  cbn [shuffleArrayFrom]. by rewrite IH, swap_Permutation.
Qed.

(** X15 (shuffleArray): whatever the draws, the shuffle returns the
    elements of its argument, each as often as it occurs there. *)
Theorem shuffleArray_Permutation {A} (rnd : nat → nat) (array : list A) :
  shuffleArray rnd array ≡ₚ array.
Proof. apply shuffleArrayFrom_Permutation. Qed.

Lemma getFallbackPairs_built_in rnd count :
  getFallbackPairs rnd count = slice0 count (shuffleArray rnd builtInPairs).
Proof. reflexivity. Qed.

Lemma builtInPairs_NoDup : NoDup builtInPairs.
Proof.
  apply (NoDup_fmap_1 Pair.bug).
  apply (bool_decide_unpack _). vm_compute. exact I.
Qed.

Lemma slice0_sublist {A} count (a : list A) : slice0 count a `sublist_of` a.
Proof. unfold slice0. destruct (count <? 0)%Z; apply sublist_take. Qed.

(** X16 (getFallbackPairs): the pairs handed out when the AI is not used
    are built-in pairs, none of them twice; and when nine or more are
    asked for, they are the nine built-in pairs, in the order the shuffle
    left them. *)
Theorem getFallbackPairs_distinct_built_in rnd count :
  NoDup (getFallbackPairs rnd count)
  ∧ getFallbackPairs rnd count ⊆ builtInPairs
  ∧ ((9 ≤ count)%Z → getFallbackPairs rnd count = shuffleArray rnd builtInPairs)
  ∧ ((9 ≤ count)%Z → getFallbackPairs rnd count ≡ₚ builtInPairs).
Proof.
  rewrite getFallbackPairs_built_in.
  pose proof (slice0_sublist count (shuffleArray rnd builtInPairs)) as Hsub.
  pose proof (shuffleArray_Permutation rnd builtInPairs) as Hperm.
  assert ((9 ≤ count)%Z →
          slice0 count (shuffleArray rnd builtInPairs)
          = shuffleArray rnd builtInPairs) as Hall.
  { intros Hc. unfold slice0.
    destruct (count <? 0)%Z eqn:E; [apply Z.ltb_lt in E; lia|].
    apply take_ge. rewrite length_shuffleArray.
    change (length builtInPairs) with 9. lia. }
  split; [|split; [|split]].
  - eapply sublist_NoDup; [|exact Hsub]. rewrite Hperm. apply builtInPairs_NoDup.
  - intros p Hp. rewrite <- Hperm. by eapply sublist_subseteq.
  - exact Hall.
  - intros Hc. by rewrite Hall.
Qed.

(** ** The cards of a pair *)

Lemma mintFrom_lookup position pairs k p :
  pairs !! k = Some p →
  mintFrom position pairs !! (2 * k)
  = Some (Card.mk (cardId (position + 2 * k)) bug (Pair.bug p)
            (Pair.difficulty p) false false (cardId (position + 2 * k + 1))
            (position + 2 * k))
  ∧ mintFrom position pairs !! (2 * k + 1)
    = Some (Card.mk (cardId (position + 2 * k + 1)) solution (Pair.solution p)
              (Pair.difficulty p) false false (cardId (position + 2 * k))
              (position + 2 * k + 1)).
Proof.
  revert position k. induction pairs as [|q rest IH]; intros position k; [done|].
  destruct k as [|k].
  - intros [= ->]. cbn [mintFrom pushPair fst app].
    replace (position + 2 * 0) with position by lia. done.
  - intros Hk. destruct (IH (position + 2) k Hk) as [H1 H2].
    cbn [mintFrom pushPair fst app].
    replace (2 * S k) with (S (S (2 * k))) by lia.
    replace (position + S (S (2 * k))) with (position + 2 + 2 * k) by lia.
    split; [exact H1|]. exact H2.
Qed.

Lemma mintFrom_origin position pairs c :
  c ∈ mintFrom position pairs →
  ∃ k p, pairs !! k = Some p
         ∧ (c = Card.mk (cardId (position + 2 * k)) bug (Pair.bug p)
                  (Pair.difficulty p) false false
                  (cardId (position + 2 * k + 1)) (position + 2 * k)
            ∨ c = Card.mk (cardId (position + 2 * k + 1)) solution
                    (Pair.solution p) (Pair.difficulty p) false false
                    (cardId (position + 2 * k)) (position + 2 * k + 1)).
Proof.
  revert position. induction pairs as [|q rest IH]; intros position;
    [by intros ?%elem_of_nil|].
  cbn [mintFrom pushPair fst app].
  intros [->|[->|Hin]%elem_of_cons]%elem_of_cons.
  - exists 0, q. split; [done|]. left.
    by replace (position + 2 * 0) with position by lia.
  - exists 0, q. split; [done|]. right.
    by replace (position + 2 * 0) with position by lia.
  - destruct (IH _ Hin) as (k & p & Hk & Hc). exists (S k), p.
    split; [done|].
    replace (position + 2 * S k) with (position + 2 + 2 * k) by lia.
    exact Hc.
Qed.

(** X17 (generateCards): every pair handed to [generateCards] is on the
    board as a bug card with the bug text and a solution card with the
    solution text, both face down, unmatched, of the pair's difficulty and
    naming each other, under the ids [card_2k] and [card_2k+1] for the
    pair at index [k]; and the board has no other card. *)
Theorem generateCards_cards_of_pairs rnd pairs :
  let board := generateCards rnd pairs in
  (∀ k p, pairs !! k = Some p →
     ∃ b s, b ∈ board ∧ s ∈ board
            ∧ face b = (cardId (2 * k), bug, Pair.bug p, Pair.difficulty p,
                        false, false, cardId (2 * k + 1))
            ∧ face s = (cardId (2 * k + 1), solution, Pair.solution p,
                        Pair.difficulty p, false, false, cardId (2 * k)))
  ∧ ∀ c, c ∈ board →
      ∃ k p, pairs !! k = Some p
             ∧ (face c = (cardId (2 * k), bug, Pair.bug p, Pair.difficulty p,
                          false, false, cardId (2 * k + 1))
                ∨ face c = (cardId (2 * k + 1), solution, Pair.solution p,
                            Pair.difficulty p, false, false, cardId (2 * k))).
Proof.
  intros board.
  destruct (generateCards_board rnd pairs) as (_ & Hface & _). fold board in Hface.
  assert (∀ c', c' ∈ mintFrom 0 pairs → ∃ c, c ∈ board ∧ face c = face c')
    as Hto.
  { intros c' Hc'. apply (list_elem_of_fmap_2 face) in Hc'.
    rewrite <- Hface in Hc'.
    apply list_elem_of_fmap in Hc' as (c & Hfc & Hc). by exists c. }
  split.
  - intros k p Hk. destruct (mintFrom_lookup 0 pairs k p Hk) as [Hb Hs].
    apply list_elem_of_lookup_2, Hto in Hb as (b & Hb & Hfb).
    apply list_elem_of_lookup_2, Hto in Hs as (s & Hs & Hfs).
    exists b, s. split; [done|]. split; [done|]. by rewrite Hfb, Hfs.
  - intros c Hc. apply (list_elem_of_fmap_2 face) in Hc. rewrite Hface in Hc.
    apply list_elem_of_fmap in Hc as (c' & Hfc & Hc').
    destruct (mintFrom_origin 0 pairs c' Hc') as (k & p & Hk & [->| ->]);
      exists k, p; (split; [done|]); rewrite Hfc; [by left | by right].
Qed.

(** ** What the game gateway announces *)

Lemma flipCard_match_inv now playerId cardId g g' d :
  flipCard now playerId cardId g = (g', Returned ActMatch, d) →
  d = None
  ∧ GameState.currentTurn g = Some playerId
  ∧ allMatched (GameState.cards g) = false
  ∧ GameState.firstFlippedCard g' = JsUndefined
  ∧ GameState.secondFlippedCard g' = JsUndefined
  ∧ GameState.roomCode g' = GameState.roomCode g
  ∧ is_Some (JsObject.get playerId (GameState.players g'))
  ∧ GameState.status g'
    = if allMatched (GameState.cards g') then finished else GameState.status g.
Proof.
  unfold flipCard.
  destruct (turnIs _ _) eqn:Hturn; simpl; [|done].
  apply turnIs_true in Hturn.
  destruct (findCard _ _) as [[ci c]|] eqn:Hfind; [|done].
  destruct (Card.isMatched c) eqn:Hm; simpl; [done|].
  destruct (Card.isFlipped c) eqn:Hf; simpl; [done|].
  assert (allMatched (GameState.cards g) = false) as Hnot.
  { destruct (allMatched (GameState.cards g)) eqn:Hall; [|done].
    apply findCard_Some in Hfind as [Hci _].
    pose proof (allMatched_lookup _ _ _ Hall Hci). congruence. }
  destruct (truthy (GameState.firstFlippedCard g)); simpl; [|done].
  destruct (findCardRef _ _) as [[fi fc]|]; simpl; [|done].
  destruct (String.eqb _ _); [|done].
  destruct (JsObject.get playerId (GameState.players g)) as [player|] eqn:Hp;
    [|done].
  destruct (allMatched (alter _ _ _)) eqn:Hall; intros [= <- <-]; simpl;
    rewrite ?Hall, get_replace, decide_True, Hp by done; eauto 10.
Qed.

Lemma gateway_flip_present (games : gmap string GameState.t) now gameId
    clientId cardId g :
  games !! gameId = Some g →
  GameGateway.handleCardFlip games now gameId clientId cardId
  = match flipCard now clientId cardId g with
    | (g', Returned action, d) =>
        let '(sent, completion) :=
          GameGateway.announceFlip (<[gameId := g']> games) gameId clientId
            cardId g' action in
        (<[gameId := g']> games, sent, completion, d)
    | (g', Threw, d) => (<[gameId := g']> games, [], Threw, d)
    end.
Proof.
  intros Hg. unfold GameGateway.handleCardFlip, handleCardFlip. rewrite Hg.
  destruct (flipCard now clientId cardId g) as [[g' [action|]] d]; [|done].
  by rewrite lookup_insert_eq.
Qed.


(** X18 (GameGateway.handleCardFlip): when the service reports a match,
    the gateway sends [game:match] to the room of the session first, with
    the caller as [playerId] and the registry's session as [gameState];
    its [matchedCards] field never names the two cards: the service has
    emptied both slots before the gateway reads them, so the field is
    [undefined, undefined].  Whatever else is sent is a [game:over]. *)
Theorem match_announcement_names_no_cards
    (games games' : gmap string GameState.t) now gameId clientId cardId d :
  handleCardFlip games now gameId clientId cardId
  = (games', Returned (Some ActMatch), d) →
  ∃ gameState player rest completion,
    games' !! gameId = Some gameState
    ∧ JsObject.get clientId (GameState.players gameState) = Some player
    ∧ GameGateway.handleCardFlip games now gameId clientId cardId
      = (games',
         (ToRoom (GameState.roomCode gameState),
          GameEvent.matched gameState clientId [JsUndefined; JsUndefined]
            (PlayerGameState.nickname player
             +:+ " found a match! They get another turn.")) :: rest,
         completion, d)
    ∧ ∀ e, e ∈ rest →
           ∃ winners isTie message,
             e = (ToRoom (GameState.roomCode gameState),
                  GameEvent.over gameState winners isTie message).
Proof.
  intros Hflip. unfold handleCardFlip in Hflip.
  destruct (games !! gameId) as [g|] eqn:Hg; [|done].
  rewrite (gateway_flip_present games now gameId clientId cardId g Hg).
  destruct (flipCard now clientId cardId g) as [[g' [action|]] d'] eqn:Hfc;
    [|done].
  injection Hflip as <- -> <-.
  destruct (flipCard_match_inv _ _ _ _ _ _ Hfc)
    as (_ & _ & _ & Hfirst & Hsecond & _ & [player Hplayer] & _).
  exists g', player. rewrite lookup_insert_eq.
  unfold GameGateway.announceFlip. rewrite Hplayer, Hfirst, Hsecond.
  destruct (GameState.status g');
    try (eexists [], _; split; [done|]; split; [done|]; split; [done|];
         by intros e ?%elem_of_nil).
  destruct (getWinners _ _) as [[winners isTie]|].
  2:{ eexists [], _. split; [done|]. split; [done|]. split; [done|].
      by intros e ?%elem_of_nil. }
  destruct isTie.
  - eexists [_], _. split; [done|]. split; [done|]. split; [done|].
    intros e ->%list_elem_of_singleton. eauto.
  - destruct (winners !! 0).
    + eexists [_], _. split; [done|]. split; [done|]. split; [done|].
      intros e ->%list_elem_of_singleton. eauto.
    + eexists [], _. split; [done|]. split; [done|]. split; [done|].
      by intros e ?%elem_of_nil.
Qed.

Lemma match_announcement_names_no_cards_witness :
  let games :=
    (handleCardFlip onePairCreated.1 2000 "q7w1z" "sockA" "card_0").1.1 in
  let flipped := handleCardFlip games 3000 "q7w1z" "sockA" "card_1" in
  flipped = (flipped.1.1, Returned (Some ActMatch), None)
  ∧ ∃ gameState player rest completion,
      flipped.1.1 !! "q7w1z" = Some gameState
      ∧ JsObject.get "sockA" (GameState.players gameState) = Some player
      ∧ GameGateway.handleCardFlip games 3000 "q7w1z" "sockA" "card_1"
        = (flipped.1.1,
           (ToRoom (GameState.roomCode gameState),
            GameEvent.matched gameState "sockA" [JsUndefined; JsUndefined]
              (PlayerGameState.nickname player
               +:+ " found a match! They get another turn.")) :: rest,
           completion, None)
      ∧ ∀ e, e ∈ rest →
             ∃ winners isTie message,
               e = (ToRoom (GameState.roomCode gameState),
                    GameEvent.over gameState winners isTie message).
Proof.
  intros games flipped.
  assert (flipped = (flipped.1.1, Returned (Some ActMatch), None)) as H
    by (vm_compute; reflexivity).
  split; [exact H|].
  exact (match_announcement_names_no_cards games flipped.1.1 3000 "q7w1z"
           "sockA" "card_1" None H).
Defined.





(** ** Who is announced as the holder of the turn *)

Lemma view_replace {V B} (f : V → B) (o : JsObject.t V) k v old :
  JsObject.get k o = Some old → f v = f old →
  (λ kp, (kp.1, f kp.2)) <$> JsObject.replace k v o
  = (λ kp, (kp.1, f kp.2)) <$> o.
Proof.
  intros Hget Hf. induction o as [|[k' v'] r IH]; [done|].
  simpl in *. destruct (String.eqb k' k); csimpl.
  - injection Hget as ->. by rewrite Hf.
  - by rewrite IH.
Qed.

Lemma view_get {V B} (f : V → B) (o o' : JsObject.t V) k :
  (λ kp, (kp.1, f kp.2)) <$> o = (λ kp, (kp.1, f kp.2)) <$> o' →
  f <$> JsObject.get k o = f <$> JsObject.get k o'.
Proof.
  revert o'. induction o as [|[k1 v1] r IH]; intros [|[k2 v2] r']; try done.
  csimpl. intros [= -> Hv Hr]. destruct (String.eqb k2 k); simpl.
  - by rewrite Hv.
  - by apply IH.
Qed.

Lemma switchTurns_nicknames now g : nicknames (switchTurns now g) = nicknames g.
Proof.
  unfold nicknames, switchTurns, JsObject.mapValues. simpl.
  rewrite <- list_fmap_compose. by apply list_fmap_ext.
Qed.

Lemma flipCard_frame now playerId cardId g :
  GameState.roomCode (flipCard now playerId cardId g).1.1 = GameState.roomCode g
  ∧ nicknames (flipCard now playerId cardId g).1.1 = nicknames g
  ∧ GameState.currentTurn (flipCard now playerId cardId g).1.1
    = GameState.currentTurn g.
Proof.
  unfold flipCard.
  destruct (turnIs _ _); simpl; [|done].
  destruct (findCard _ _) as [[ci c]|]; [|done].
  destruct (Card.isMatched c || Card.isFlipped c); [done|].
  destruct (truthy _); simpl; [|done].
  destruct (findCardRef _ _) as [[fi fc]|]; simpl; [|done].
  destruct (String.eqb _ _); [|done].
  destruct (JsObject.get playerId (GameState.players g)) as [player|] eqn:Hp;
    [|done].
  destruct (allMatched _); simpl; (split; [done|]); (split; [|done]);
    unfold nicknames; simpl; by apply (view_replace _ _ _ _ player).
Qed.

Lemma step_frame e s :
  GameState.players (game s) ≠ [] →
  is_Some (GameState.currentTurn (game s)) →
  GameState.roomCode (game (step e s)) = GameState.roomCode (game s)
  ∧ nicknames (game (step e s)) = nicknames (game s)
  ∧ GameState.players (game (step e s)) ≠ []
  ∧ is_Some (GameState.currentTurn (game (step e s))).
Proof.
  intros Hne Hturn.
  assert (∀ g', nicknames g' = nicknames (game s) → GameState.players g' ≠ [])
    as Hkeep.
  { intros g' Hn Hnil. unfold nicknames in Hn. rewrite Hnil in Hn.
    by destruct (GameState.players (game s)). }
  destruct e as [now p c | now p | now]; unfold step.
  - destruct (flipCard_frame now p c (game s)) as (H1 & H2 & H3).
    destruct (flipCard now p c (game s)) as [[g' out] d]. cbn [game fst] in *.
    split; [done|]. split; [done|]. split; [by apply Hkeep | by rewrite H3].
  - destruct (turnIs _ _); [|done]. cbn [game].
    assert (nicknames (expireTurn now (game s)) = nicknames (game s)) as Hn.
    { unfold expireTurn. rewrite switchTurns_nicknames.
      destruct (truthy _); [|done]. by destruct (findCardRef _ _) as [[? ?]|]. }
    split; [|split; [done|split; [by apply Hkeep|]]].
    + unfold expireTurn. destruct (truthy _); [|done].
      by destruct (findCardRef _ _) as [[? ?]|].
    + destruct (expireTurn_turn now (game s)) as [-> _].
      by apply nextHolder_Some.
  - destruct (pending s) as [|d rest]; [done|]. cbn [game].
    assert (nicknames (resolveNoMatch now d (game s)) = nicknames (game s))
      as Hn.
    { unfold resolveNoMatch. rewrite switchTurns_nicknames.
      by destruct (firstCard d). }
    split; [|split; [done|split; [by apply Hkeep|]]].
    + unfold resolveNoMatch. by destruct (firstCard d).
    + destruct (resolveNoMatch_turn now d (game s)) as [-> _].
      by apply nextHolder_Some.
Qed.

Lemma reachable_frame init s :
  GameState.players (game init) ≠ [] →
  is_Some (GameState.currentTurn (game init)) →
  reachable init s →
  GameState.roomCode (game s) = GameState.roomCode (game init)
  ∧ nicknames (game s) = nicknames (game init)
  ∧ GameState.players (game s) ≠ []
  ∧ is_Some (GameState.currentTurn (game s)).
Proof.
  intros Hne Hturn. induction 1 as [|e s _ (IH1 & IH2 & IH3 & IH4)]; [done|].
  destruct (step_frame e s IH3 IH4) as (H1 & H2 & H3 & H4).
  split; [congruence|]. split; [congruence | done].
Qed.

(** X20 (GameGateway.handleCardFlip, the [game:turnChanged] callback): in
    a session built by [createGame], whenever the callback runs, under any
    interleaving of flips, timer expirations and resolutions, it does not
    throw and sends [game:turnChanged] to the room the session was created
    for, naming the player who holds the turn at that moment with the
    nickname given at creation. *)
Theorem turn_announcement_names_holder
    (games : gmap string GameState.t) reply rndPairs rndCards drawnId
    startedNow turnNow roomCode players config g0 s :
  (createGame games reply rndPairs rndCards drawnId startedNow turnNow
     roomCode players config).2 = Returned g0 →
  reachable (mkSession g0 []) s →
  ∃ holder player,
    GameState.currentTurn (game s) = Some holder
    ∧ JsObject.get holder (seedPlayers players) = Some player
    ∧ GameGateway.announceTurn (game s)
      = Returned
          (ToRoom roomCode,
           GameEvent.turnChanged (game s) (Some holder)
             (PlayerGameState.nickname player)
             (PlayerGameState.nickname player +:+ "'s turn")).
Proof.
  intros Hcreate Hreach.
  destruct (createGame_players _ _ _ _ _ _ _ _ _ _ _ Hcreate) as [Hh _].
  destruct (reachable_players (mkSession g0 []) s Hh Hreach) as [Hholder _].
  unfold createGame in Hcreate.
  destruct (players !! 0) as [first|] eqn:Hfirst; [|done].
  injection Hcreate as <-.
  set (g0 := GameState.mk _ _ _ _ _ _ _ _ _ _ _ _ _) in *.
  assert (GameState.players g0 ≠ []) as Hne.
  { intros Hnil. pose proof (Hh (PlayerEntry.id first) eq_refl) as Hin.
    rewrite Hnil in Hin. by apply elem_of_nil in Hin. }
  destruct (reachable_frame (mkSession g0 []) s Hne (mk_is_Some _ _ eq_refl)
              Hreach)
    as (Hroom & Hnames & _ & [holder Hturn]).
  cbn [game GameState.roomCode] in Hroom.
  exists holder.
  pose proof (Hholder holder Hturn) as Hin.
  apply get_is_Some_keys in Hin as [current Hcurrent].
  pose proof (view_get PlayerGameState.nickname _ _ holder Hnames) as Hview.
  rewrite Hcurrent in Hview.
  change (GameState.players (game (mkSession g0 []))) with (seedPlayers players)
    in Hview.
  change (GameState.roomCode g0) with roomCode in Hroom.
  destruct (JsObject.get holder (seedPlayers players)) as [player|] eqn:Hp;
    [|done].
  injection Hview as Hnick. exists player. split; [done|]. split; [done|].
  unfold GameGateway.announceTurn. rewrite Hturn. simpl.
  by rewrite Hcurrent, Hroom, Hnick.
Qed.

Lemma turn_announcement_names_holder_witness :
  let s := run [EvFlip 2000 "sockA" "card_0"; EvFlip 2100 "sockA" "card_2";
                EvResolve 3100]
               (mkSession sampleGame []) in
  sampleCreated.2 = Returned sampleGame
  ∧ reachable (mkSession sampleGame []) s
  ∧ ∃ holder player,
      GameState.currentTurn (game s) = Some holder
      ∧ JsObject.get holder (seedPlayers [alice; bob]) = Some player
      ∧ GameGateway.announceTurn (game s)
        = Returned
            (ToRoom "ROOM01",
             GameEvent.turnChanged (game s) (Some holder)
               (PlayerGameState.nickname player)
               (PlayerGameState.nickname player +:+ "'s turn")).
Proof.
  intros s.
  assert (sampleCreated.2 = Returned sampleGame) as H1
    by (vm_compute; reflexivity).
  assert (reachable (mkSession sampleGame []) s) as H2
    by (do 3 apply reach_step; apply reach_init).
  exact (conj H1 (conj H2
    (turn_announcement_names_holder _ _ _ _ _ _ _ _ _ _ _ _ H1 H2))).
Defined.

(** ** The rooms under the gateway *)

Lemma roomsInv_insert (rooms : gmap string GameRoom.t) code room :
  roomsInv rooms →
  GameRoom.roomCode room = code → roomOk room → GameRoom.maxPlayers room = 2 →
  GameRoom.status room ≠ finished →
  roomsInv (<[code := room]> rooms).
Proof.
  intros Hinv Hcode Hok Hmax Hst code' room'.
  destruct (decide (code = code')) as [<-|Hne].
  - rewrite lookup_insert_eq. by intros [= <-].
  - rewrite lookup_insert_ne by done. apply Hinv.
Qed.

Lemma roomsInv_delete (rooms : gmap string GameRoom.t) code :
  roomsInv rooms → roomsInv (delete code rooms).
Proof.
  intros Hinv code' room'.
  destruct (decide (code = code')) as [<-|Hne].
  - by rewrite lookup_delete_eq.
  - rewrite lookup_delete_ne by done. apply Hinv.
Qed.

(** What [handlePlayerReady] makes of the registry and sends, for a
    member of a room that is there. *)
Lemma handlePlayerReady_member
    (rooms : gmap string GameRoom.t) roomCode clientId isReady room player :
  rooms !! roomCode = Some room →
  JsObject.get clientId (GameRoom.players room) = Some player →
  let after :=
    GameRoom.setPlayers
      (JsObject.replace clientId (Player.setIsReady isReady player)
         (GameRoom.players room)) room in
  let updated := Send (ToRoom (GameRoom.roomCode room)) (RoomEvent.updated after) in
  RoomsGateway.handlePlayerReady rooms roomCode clientId isReady
  = if forallb Player.isReady (JsObject.values (GameRoom.players after))
       && (length (JsObject.keys (GameRoom.players after)) =? 2)
    then (<[roomCode := GameRoom.setStatus playing after]> rooms,
          [updated;
           Send (ToRoom (GameRoom.roomCode room))
             (RoomEvent.gameStart "Game is starting!"
                (GameRoom.setStatus playing after) (GameRoom.hostId room) 1
                (RoomsGateway.zeroScores (GameRoom.players after)))])
    else (<[roomCode := after]> rooms, [updated]).
Proof.
  intros Hroom Hget after updated.
  unfold RoomsGateway.handlePlayerReady, setPlayerReady.
  rewrite Hroom, Hget. fold after.
  destruct (_ && _); [|done]. by rewrite insert_insert_eq.
Qed.

Lemma roomStep_roomsInv call rooms : roomsInv rooms → roomsInv (roomStep call rooms).
Proof.
  intros Hinv.
  destruct call as [fuel rnd joinedNow createdNow clientId nickname settings
                   | now roomCode clientId nickname
                   | roomCode clientId
                   | roomCode clientId isReady]; unfold roomStep.
  - unfold RoomsGateway.handleRoomCreate, createRoom.
    destruct (generateRoomCode _ _ _ _) as [code|]; [|done]. simpl.
    apply roomsInv_insert; try done.
    unfold roomOk. simpl. rewrite set_on_empty. simpl.
    split; [apply NoDup_singleton|].
    split; [by intros k p [= -> ->]%list_elem_of_singleton|].
    split; [done|]. split; [lia | apply NoDup_singleton].
  - unfold RoomsGateway.handleRoomJoin.
    destruct (joinRoom rooms now roomCode clientId nickname)
      as [rooms' [room'|]] eqn:Hjoin; simpl.
    + pose proof Hjoin as (room & Hroom & _ & _ & Hroom' & ->)%joinRoom_success_inv.
      destruct (Hinv _ _ Hroom) as (Hcode & Hok & Hmax & Hst).
      destruct (joinRoom_roomOk _ _ _ _ _ _ _ _ Hroom Hok Hjoin) as (Hok' & Hc & _).
      apply roomsInv_insert; [done | congruence | done | by subst | by subst].
    + by apply joinRoom_rejected_unchanged in Hjoin as ->.
  - unfold RoomsGateway.handleRoomLeave.
    destruct (rooms !! roomCode) as [room|] eqn:Hroom.
    + destruct (Hinv _ _ Hroom) as (Hcode & Hok & Hmax & Hst).
      destruct (leaveRoom_roomOk rooms roomCode clientId room Hroom Hok)
        as [[_ ->] | (_ & room' & -> & Hok' & Hc & Hs & Hm & _)]; simpl.
      * by apply roomsInv_delete.
      * apply roomsInv_insert; [done | congruence | done | congruence
                               | congruence].
    + unfold leaveRoom. by rewrite Hroom.
  - destruct (rooms !! roomCode) as [room|] eqn:Hroom;
      [|unfold RoomsGateway.handlePlayerReady, setPlayerReady; by rewrite Hroom].
    destruct (JsObject.get clientId (GameRoom.players room)) as [player|] eqn:Hget;
      [|unfold RoomsGateway.handlePlayerReady, setPlayerReady;
        by rewrite Hroom, Hget].
    destruct (Hinv _ _ Hroom) as (Hcode & Hok & Hmax & Hst).
    destruct (setPlayerReady_roomOk rooms roomCode clientId isReady room player
                Hroom Hget) as (room' & _ & Hplayers & Hrm & Hok').
    specialize (Hok' Hok). rewrite Hplayers in Hrm.
    rewrite (handlePlayerReady_member rooms roomCode clientId isReady room
               player Hroom Hget).
    assert (roomOk
              (GameRoom.setPlayers
                 (JsObject.replace clientId (Player.setIsReady isReady player)
                    (GameRoom.players room)) room)) as Hafter.
    { by rewrite <- Hrm. }
    destruct (_ && _); simpl; by apply roomsInv_insert.
Qed.

Lemma roomRun_roomsInv calls rooms : roomsInv rooms → roomsInv (roomRun calls rooms).
Proof.
  revert rooms. induction calls as [|call calls IH]; intros rooms Hinv; [done|].
  simpl. by apply IH, roomStep_roomsInv.
Qed.

(** X21 (RoomsGateway handlers over RoomsService): whatever sequence of
    [room:create], [room:join], [room:leave] and [room:ready] messages the
    gateway has handled since the registry was empty, every room is stored
    under its own code and has one or two members, each stored under its
    own id and no two with the same nickname; and no room has the status
    [finished]. *)
Theorem gateway_rooms_hold_one_or_two (calls : list RoomCall) code room :
  roomRun calls ∅ !! code = Some room →
  GameRoom.roomCode room = code
  ∧ 1 ≤ length (JsObject.keys (GameRoom.players room)) ≤ 2
  ∧ NoDup (JsObject.keys (GameRoom.players room))
  ∧ (∀ k p, (k, p) ∈ GameRoom.players room → Player.id p = k)
  ∧ NoDup (Player.nickname <$> JsObject.values (GameRoom.players room))
  ∧ GameRoom.status room ≠ finished.
Proof.
  intros Hroom.
  assert (roomsInv ∅) as H0 by (intros c r; by rewrite lookup_empty).
  destruct (roomRun_roomsInv calls ∅ H0 code room Hroom)
    as (Hcode & (Hnd & Hkeyed & Hne & Hcap & Hnick) & Hmax & Hst).
  split; [done|]. split; [|done].
  rewrite Hmax in Hcap. split; [|done].
  unfold JsObject.keys. rewrite length_fmap.
  destruct (GameRoom.players room); [done | simpl; lia].
Qed.

(** X22 (handlePlayerReady, joinRoom, leaveRoom): nothing sets a room
    back to [waiting]: a room that is [playing] is still [playing] after
    any message the gateway handles, for as long as it is in the
    registry. *)
Theorem started_room_stays_started call (rooms : gmap string GameRoom.t)
    code room room' :
  rooms !! code = Some room →
  GameRoom.status room = playing →
  roomStep call rooms !! code = Some room' →
  GameRoom.status room' = playing.
Proof.
  intros Hroom Hst.
  destruct call as [fuel rnd joinedNow createdNow clientId nickname settings
                   | now roomCode clientId nickname
                   | roomCode clientId
                   | roomCode clientId isReady]; unfold roomStep.
  - unfold RoomsGateway.handleRoomCreate, createRoom.
    destruct (generateRoomCode _ _ _ _) as [fresh|] eqn:Hgen; simpl;
      [|by rewrite Hroom; intros [= <-]].
    apply generateRoomCode_fresh in Hgen as [Hfresh _].
    rewrite lookup_insert_ne by congruence.
    rewrite Hroom. by intros [= <-].
  - unfold RoomsGateway.handleRoomJoin.
    destruct (joinRoom rooms now roomCode clientId nickname)
      as [rooms' [joined|]] eqn:Hjoin; simpl.
    + apply joinRoom_success_inv in Hjoin as (room0 & Hroom0 & _ & _ & -> & ->).
      destruct (decide (roomCode = code)) as [->|Hne].
      * rewrite lookup_insert_eq. intros [= <-]. simpl. congruence.
      * rewrite lookup_insert_ne by done. rewrite Hroom. by intros [= <-].
    + apply joinRoom_rejected_unchanged in Hjoin as ->.
      rewrite Hroom. by intros [= <-].
  - unfold RoomsGateway.handleRoomLeave, leaveRoom.
    destruct (rooms !! roomCode) as [room0|] eqn:Hroom0; simpl;
      [|by rewrite Hroom; intros [= <-]].
    destruct (decide (roomCode = code)) as [->|Hne].
    + rewrite Hroom in Hroom0. injection Hroom0 as <-.
      destruct (_ =? 0); simpl; [by rewrite lookup_delete_eq|].
      destruct (String.eqb _ _); simpl.
      * destruct (_ !! 0) as [newHost|]; simpl;
          [|rewrite lookup_insert_eq; by intros [= <-]].
        destruct (JsObject.get _ _); simpl;
          rewrite lookup_insert_eq; by intros [= <-].
      * rewrite lookup_insert_eq. by intros [= <-].
    + assert (∀ r0 : GameRoom.t, <[roomCode := r0]> rooms !! code = Some room)
        as Hins by (intros r0; by rewrite lookup_insert_ne).
      assert (delete roomCode rooms !! code = Some room) as Hdel
        by (by rewrite lookup_delete_ne).
      destruct (_ =? 0); simpl; [rewrite Hdel; by intros [= <-]|].
      destruct (String.eqb _ _); simpl.
      * destruct (_ !! 0) as [newHost|]; simpl;
          [|rewrite Hins; by intros [= <-]].
        destruct (JsObject.get _ _); simpl; rewrite Hins; by intros [= <-].
      * rewrite Hins. by intros [= <-].
  - destruct (rooms !! roomCode) as [room0|] eqn:Hroom0;
      [|unfold RoomsGateway.handlePlayerReady, setPlayerReady;
        rewrite Hroom0; simpl; rewrite Hroom; by intros [= <-]].
    destruct (JsObject.get clientId (GameRoom.players room0)) as [player|]
      eqn:Hget;
      [|unfold RoomsGateway.handlePlayerReady, setPlayerReady;
        rewrite Hroom0, Hget; simpl; rewrite Hroom; by intros [= <-]].
    rewrite (handlePlayerReady_member rooms roomCode clientId isReady room0
               player Hroom0 Hget).
    destruct (decide (roomCode = code)) as [->|Hne].
    + rewrite Hroom in Hroom0. injection Hroom0 as <-.
      destruct (_ && _); simpl; rewrite lookup_insert_eq; by intros [= <-].
    + destruct (_ && _); simpl; rewrite lookup_insert_ne by done;
        rewrite Hroom; by intros [= <-].
Qed.

Lemma gateway_rooms_hold_one_or_two_witness :
  let calls :=
    [CallCreate 1 (λ _ i, i) 10 10 "sockA" "alice" None;
     CallJoin 20 "ABCDEF" "sockB" "bob";
     CallReady "ABCDEF" "sockA" true;
     CallReady "ABCDEF" "sockB" true] in
  let room := default sampleRoom (roomRun calls ∅ !! "ABCDEF") in
  roomRun calls ∅ !! "ABCDEF" = Some room
  ∧ length (JsObject.keys (GameRoom.players room)) = 2
  ∧ GameRoom.status room = playing
  ∧ GameRoom.roomCode room = "ABCDEF"
  ∧ 1 ≤ length (JsObject.keys (GameRoom.players room)) ≤ 2.
Proof.
  intros calls room.
  assert (roomRun calls ∅ !! "ABCDEF" = Some room) as H
    by (vm_compute; reflexivity).
  split; [exact H|]. split; [vm_compute; reflexivity|].
  split; [vm_compute; reflexivity|].
  destruct (gateway_rooms_hold_one_or_two calls "ABCDEF" room H)
    as (Hcode & Hlen & _).
  exact (conj Hcode Hlen).
Defined.

Lemma started_room_stays_started_witness :
  let rooms :=
    roomRun [CallCreate 1 (λ _ i, i) 10 10 "sockA" "alice" None;
             CallJoin 20 "ABCDEF" "sockB" "bob";
             CallReady "ABCDEF" "sockA" true;
             CallReady "ABCDEF" "sockB" true] ∅ in
  let room := default sampleRoom (rooms !! "ABCDEF") in
  let room' :=
    default sampleRoom (roomStep (CallLeave "ABCDEF" "sockB") rooms !! "ABCDEF") in
  rooms !! "ABCDEF" = Some room
  ∧ GameRoom.status room = playing
  ∧ roomStep (CallLeave "ABCDEF" "sockB") rooms !! "ABCDEF" = Some room'
  ∧ JsObject.keys (GameRoom.players room') = ["sockA"]
  ∧ GameRoom.status room' = playing.
Proof.
  intros rooms room room'.
  assert (rooms !! "ABCDEF" = Some room) as H1 by (vm_compute; reflexivity).
  assert (GameRoom.status room = playing) as H2 by (vm_compute; reflexivity).
  assert (roomStep (CallLeave "ABCDEF" "sockB") rooms !! "ABCDEF" = Some room')
    as H3 by (vm_compute; reflexivity).
  split; [exact H1|]. split; [exact H2|]. split; [exact H3|].
  split; [vm_compute; reflexivity|].
  exact (started_room_stays_started (CallLeave "ABCDEF" "sockB") rooms "ABCDEF"
           room room' H1 H2 H3).
Defined.

(** ** When the game is started *)

Lemma elem_of_replace_other {V} (o : JsObject.t V) k v k' v' :
  (k', v') ∈ o → k' ≠ k → (k', v') ∈ JsObject.replace k v o.
Proof.
  intros Hin Hne. induction o as [|[k0 v0] r IH]; [done|].
  simpl. destruct (String.eqb k0 k) eqn:E.
  - apply eqb_string_true in E as ->.
    apply elem_of_cons in Hin as [[= -> ->]|Hin]; [done | by right].
  - apply elem_of_cons in Hin as [[= -> ->]|Hin]; [left | right; by apply IH].
Qed.

Lemma elem_of_replace_self {V} (o : JsObject.t V) k v old :
  JsObject.get k o = Some old → (k, v) ∈ JsObject.replace k v o.
Proof.
  intros Hget. apply get_Some_elem_of.
  by rewrite get_replace, decide_True, Hget.
Qed.

Lemma get_zeroScores (players : JsObject.t Player.t) k :
  JsObject.get k (RoomsGateway.zeroScores players)
  = if decide (k ∈ JsObject.keys players) then Some 0 else None.
Proof.
  unfold RoomsGateway.zeroScores.
  assert (∀ (ks : list string) (acc : JsObject.t nat),
            JsObject.get k (fold_left (λ scores playerId,
                                         JsObject.set playerId 0 scores) ks acc)
            = if decide (k ∈ ks) then Some 0 else JsObject.get k acc) as Hfold.
  { induction ks as [|k0 ks IH]; intros acc; cbn [fold_left].
    - case_decide as H; [by apply elem_of_nil in H | done].
    - rewrite IH, get_set.
      destruct (decide (k ∈ ks)) as [Hin|Hnot].
      + rewrite decide_True; [done | by right].
      + destruct (decide (k0 = k)) as [->|Hne].
        * rewrite decide_True; [done | left].
        * rewrite decide_False; [done|].
          intros [->|?]%elem_of_cons; done. }
  by rewrite Hfold.
Qed.

(** X23 (handlePlayerReady over setPlayerReady): for a member of a room
    whose members have distinct keys, [game:start] is sent exactly when
    the member reports ready, the room has two members and every other
    member is ready already.  It is then sent to the room after a
    [room:updated] that still shows the former status, carries the room
    with the status [playing] that the registry now holds, names the
    room's [hostId] as the first to play and gives each member, and no
    one else, the score 0.  Otherwise only [room:updated] is sent and the
    status stays. *)
Theorem game_starts_when_both_ready
    (rooms : gmap string GameRoom.t) roomCode clientId isReady room player :
  rooms !! roomCode = Some room →
  NoDup (JsObject.keys (GameRoom.players room)) →
  JsObject.get clientId (GameRoom.players room) = Some player →
  let r := RoomsGateway.handlePlayerReady rooms roomCode clientId isReady in
  let after :=
    GameRoom.setPlayers
      (JsObject.replace clientId (Player.setIsReady isReady player)
         (GameRoom.players room)) room in
  let audience := ToRoom (GameRoom.roomCode room) in
  let bothReady :=
    isReady = true
    ∧ length (JsObject.keys (GameRoom.players room)) = 2
    ∧ ∀ k p, (k, p) ∈ GameRoom.players room → k ≠ clientId →
             Player.isReady p = true in
  (bothReady →
   ∃ scores,
     r = (<[roomCode := GameRoom.setStatus playing after]> rooms,
          [Send audience (RoomEvent.updated after);
           Send audience
             (RoomEvent.gameStart "Game is starting!"
                (GameRoom.setStatus playing after) (GameRoom.hostId room) 1
                scores)])
     ∧ ∀ k, JsObject.get k scores
            = if decide (k ∈ JsObject.keys (GameRoom.players room))
              then Some 0 else None)
  ∧ (¬ bothReady →
     r = (<[roomCode := after]> rooms, [Send audience (RoomEvent.updated after)])).
Proof.
  intros Hroom Hnd Hget r after audience bothReady. unfold r.
  rewrite (handlePlayerReady_member rooms roomCode clientId isReady room player
             Hroom Hget).
  fold after audience.
  assert (forallb Player.isReady (JsObject.values (GameRoom.players after))
          && (length (JsObject.keys (GameRoom.players after)) =? 2) = true
          ↔ bothReady) as Hiff.
  { unfold after, bothReady. simpl. rewrite keys_replace.
    rewrite andb_true_iff, Nat.eqb_eq, forallb_forall. split.
    - intros [Hall Hlen].
      assert (∀ k p,
                (k, p) ∈ JsObject.replace clientId
                           (Player.setIsReady isReady player)
                           (GameRoom.players room) →
                Player.isReady p = true) as Hready.
      { intros k p Hin. apply Hall, list_elem_of_In.
        apply list_elem_of_fmap. by exists (k, p). }
      split; [|split; [done|]].
      + by apply (Hready clientId (Player.setIsReady isReady player)),
          (elem_of_replace_self _ _ _ player).
      + intros k p Hin Hne. apply (Hready k p).
        by apply elem_of_replace_other.
    - intros (Hb & Hlen & Hothers). split; [|done].
      intros p Hp%list_elem_of_In.
      apply list_elem_of_fmap in Hp as ([k p'] & -> & Hin). simpl.
      apply elem_of_replace_NoDup in Hin as [[-> ->]|[Hne Hin]]; [done| |done].
      by apply (Hothers k). }
  destruct (_ && _).
  - split; [|intros Hnot; by destruct Hnot; apply Hiff].
    intros _. eexists. split; [reflexivity|].
    intros k. rewrite get_zeroScores. unfold after. simpl.
    by rewrite keys_replace.
  - split; [|done]. intros Hb. apply Hiff in Hb. discriminate.
Qed.

Lemma game_starts_when_both_ready_witness :
  let rooms :=
    roomRun [CallCreate 1 (λ _ i, i) 10 10 "sockA" "alice" None;
             CallJoin 20 "ABCDEF" "sockB" "bob";
             CallReady "ABCDEF" "sockA" true] ∅ in
  let room := default sampleRoom (rooms !! "ABCDEF") in
  let player := Player.mk "sockB" "bob" false false 20 in
  rooms !! "ABCDEF" = Some room
  ∧ NoDup (JsObject.keys (GameRoom.players room))
  ∧ JsObject.get "sockB" (GameRoom.players room) = Some player
  ∧ GameRoom.status room = waiting
  ∧ ∃ started,
      (RoomsGateway.handlePlayerReady rooms "ABCDEF" "sockB" true).1 !! "ABCDEF"
      = Some started
      ∧ GameRoom.status started = playing.
Proof.
  intros rooms room player.
  assert (rooms !! "ABCDEF" = Some room) as H1 by (vm_compute; reflexivity).
  assert (NoDup (JsObject.keys (GameRoom.players room))) as H2
    by (apply (bool_decide_unpack _); vm_compute; exact I).
  assert (JsObject.get "sockB" (GameRoom.players room) = Some player) as H3
    by (vm_compute; reflexivity).
  split; [exact H1|]. split; [exact H2|]. split; [exact H3|].
  split; [vm_compute; reflexivity|].
  destruct (game_starts_when_both_ready rooms "ABCDEF" "sockB" true room player
              H1 H2 H3) as [Hstart _].
  destruct Hstart as (scores & Hr & _).
  - split; [reflexivity|]. split; [vm_compute; reflexivity|].
    intros k p Hin Hne.
    assert (GameRoom.players room
            = [("sockA", Player.mk "sockA" "alice" true true 10);
               ("sockB", Player.mk "sockB" "bob" false false 20)]) as Hplayers
      by (vm_compute; reflexivity).
    rewrite Hplayers in Hin.
    apply elem_of_cons in Hin as [[= -> ->]|Hin]; [reflexivity|].
    apply list_elem_of_singleton in Hin. injection Hin as -> ->. done.
  - eexists. rewrite Hr. cbn [fst]. rewrite lookup_insert_eq.
    split; reflexivity.
Defined.

(** ** How many cards are dealt *)

(** X24 (generateBugSolutionPairs, getFallbackPairs, generateCards,
    createGame): when between 0 and 9 pairs are asked for, the content
    provider hands out exactly that many, whatever the AI replied, and the
    session that [createGame] returns has twice as many cards; for any
    count that is not negative, never more. *)
Theorem createGame_deals_twice_the_pairs
    (games : gmap string GameState.t) reply rndPairs rndCards drawnId
    startedNow turnNow roomCode players config g :
  (createGame games reply rndPairs rndCards drawnId startedNow turnNow
     roomCode players config).2 = Returned g →
  (0 ≤ GameConfig.numberOfPairs config)%Z →
  let count := GameConfig.numberOfPairs config in
  let pairs := generateBugSolutionPairs reply rndPairs count in
  (Z.of_nat (length pairs) ≤ count)%Z
  ∧ (Z.of_nat (length (GameState.cards g)) ≤ 2 * count)%Z
  ∧ ((count ≤ 9)%Z →
     Z.of_nat (length pairs) = count
     ∧ Z.of_nat (length (GameState.cards g)) = (2 * count)%Z).
Proof.
  intros Hcreate Hcount count pairs.
  assert (length (GameState.cards g) = 2 * length pairs) as Hlen.
  { unfold createGame in Hcreate.
    destruct (players !! 0) as [first|]; [|done].
    injection Hcreate as <-.
    by destruct (generateCards_board rndCards pairs) as [Hboard _]. }
  assert ((Z.of_nat (length pairs) ≤ count)%Z
          ∧ ((count ≤ 9)%Z → Z.of_nat (length pairs) = count)) as [Hle Heq].
  { unfold pairs, generateBugSolutionPairs.
    assert ((Z.of_nat (length (getFallbackPairs rndPairs count)) ≤ count)%Z
            ∧ ((count ≤ 9)%Z
               → Z.of_nat (length (getFallbackPairs rndPairs count)) = count))
      as Hfb.
    { rewrite length_getFallbackPairs.
      destruct (count <? 0)%Z eqn:E; [apply Z.ltb_lt in E; lia|]. lia. }
    destruct reply as [| |aiPairs]; try done.
    destruct (Z.of_nat (length aiPairs) =? count)%Z eqn:E; [|done].
    apply Z.eqb_eq in E. lia. }
  split; [done|]. split; [lia|]. intros Hnine. specialize (Heq Hnine). lia.
Qed.

Lemma createGame_deals_twice_the_pairs_witness :
  sampleCreated.2 = Returned sampleGame
  ∧ (0 ≤ GameConfig.numberOfPairs (sampleConfig 3))%Z
  ∧ length (GameState.cards sampleGame) = 6
  ∧ (Z.of_nat (length (GameState.cards sampleGame))
     ≤ 2 * GameConfig.numberOfPairs (sampleConfig 3))%Z.
Proof.
  assert (sampleCreated.2 = Returned sampleGame) as H1
    by (vm_compute; reflexivity).
  assert (0 ≤ GameConfig.numberOfPairs (sampleConfig 3))%Z as H2
    by (simpl; lia).
  split; [exact H1|]. split; [exact H2|]. split; [reflexivity|].
  exact (proj1 (proj2
    (createGame_deals_twice_the_pairs _ _ _ _ _ _ _ _ _ _ _ H1 H2))).
Defined.
